(** * The guest GPU memory manager of yuzu (video_core/memory_manager.cpp)

    A shallow embedding of [Tegra::MemoryManager]: the ordered map of virtual
    memory areas, the flat page table it is projected into, the hot-path typed
    accessors and the page-wise block transfers, followed by the properties
    of the specification that concern them. *)

From Stdlib Require Import ZArith List Lia Bool.
Import ListNotations.
Open Scope Z_scope.

(** ** Machine integers *)

(** [u64], [GPUVAddr], [VAddr] and [std::size_t] are 64-bit unsigned integers:
    a [Z] in [0, 2^64) whose arithmetic wraps around. *)
Definition wrap64 (x : Z) : Z := x mod 2 ^ 64.
Definition add64 (a b : Z) : Z := wrap64 (a + b).
Definition sub64 (a b : Z) : Z := wrap64 (a - b).

(** A host pointer ([u8*]) is the integer value of the pointer; [nullptr] is 0.
    Pointer arithmetic is the arithmetic of [Z]: inside one host allocation it
    does not wrap. *)
Definition HostPtr := Z.
Definition nullptr : HostPtr := 0.

(** ** Constants of the address space *)

(** Modelled from the spec: the constants of video_core/memory_manager.h,
    which is not among the sources. The specification fixes pages of [2^12]
    bytes, an address space of 40 bits and the base address 0. *)
Definition page_bits : Z := 12.
Definition page_size : Z := Z.shiftl 1 page_bits.
Definition page_mask : Z := page_size - 1.
Definition address_space_width : Z := 40.
Definition address_space_base : Z := 0.
Definition address_space_end : Z := Z.shiftl 1 address_space_width.

(** Modelled from the spec: [Common::AlignUp] of common/alignment.h rounds a
    value up to the next multiple of the alignment. *)
Definition AlignUp (value size : Z) : Z :=
  add64 value ((size - value mod size) mod size).

(** ** Outcomes *)

(** A call returns a value, halts the process on a failed assertion, or leaves
    the defined behaviour of C++ (a dereferenced end or singular iterator, a
    copy through a null host pointer, an index past the end of a vector).
    [OutOfFuel] belongs to the model only: the loops of the source are run
    with a bound, which is shown to be large enough. *)
Inductive Result (A : Type) : Type :=
| Ok (a : A)
| AssertFail
| Undefined
| OutOfFuel.
Arguments Ok {A} a.
Arguments AssertFail {A}.
Arguments Undefined {A}.
Arguments OutOfFuel {A}.

Definition rbind {A B : Type} (r : Result A) (k : A -> Result B) : Result B :=
  match r with
  | Ok a => k a
  | AssertFail => AssertFail
  | Undefined => Undefined
  | OutOfFuel => OutOfFuel
  end.

(** Modelled from the spec: the ASSERT, ASSERT_MSG and UNREACHABLE macros of
    common/assert.h halt the process when the condition is false. *)
Definition ASSERT (b : bool) : Result unit := if b then Ok tt else AssertFail.

Declare Scope result_scope.
Delimit Scope result_scope with result.
Notation "x <- e ;; k" := (rbind e (fun x => k))
  (at level 61, e at next level, right associativity) : result_scope.
Notation "e ;;; k" := (rbind e (fun _ => k))
  (at level 61, right associativity) : result_scope.
Open Scope result_scope.

(** ** The page table *)

Module PageType.
(** Modelled from the spec: [Common::PageType] of common/page_table.h, of
    which the manager uses [Unmapped] and [Memory]. *)
Inductive t : Type := Unmapped | Memory.

Definition eqb (a b : t) : bool :=
  match a, b with
  | Unmapped, Unmapped | Memory, Memory => true
  | _, _ => false
  end.
End PageType.

(** [Common::PageTable]: three vectors indexed by page number. A vector is a
    function of the index together with its size; an index at or past the size
    is outside the vector. *)
Record PageTable : Type := mkPageTable {
  pointers : Z -> HostPtr;
  attributes : Z -> PageType.t;
  backing_addr : Z -> Z
}.

(** [page_table.Resize(address_space_width)]: one slot per page. *)
Definition pointers_size : Z := Z.shiftl 1 (address_space_width - page_bits).

(** [std::fill(v.begin() + first, v.begin() + last, x)]. *)
Definition fill {A : Type} (v : Z -> A) (first last : Z) (x : A) : Z -> A :=
  fun i => if (first <=? i) && (i <? last) then x else v i.

(** [v[i] = x]. *)
Definition store {A : Type} (v : Z -> A) (i : Z) (x : A) : Z -> A :=
  fun j => if j =? i then x else v j.

(** ** Virtual memory areas *)

Module VMAType.
(** Modelled from the spec: [VirtualMemoryArea::Type], with the three
    enumerators that memory_manager.cpp names. *)
Inductive t : Type := Unmapped | Allocated | Mapped.

Definition eqb (a b : t) : bool :=
  match a, b with
  | Unmapped, Unmapped | Allocated, Allocated | Mapped, Mapped => true
  | _, _ => false
  end.
End VMAType.

(** Modelled from the spec: [VirtualMemoryArea] is declared in
    video_core/memory_manager.h, which is not among the sources; its fields
    are those that memory_manager.cpp reads and writes. The field
    [backing_addr] of the source is [vma_backing_addr] here, the name being
    taken by the page table. *)
Record VirtualMemoryArea : Type := mkVMA {
  base : Z;
  size : Z;
  type : VMAType.t;
  offset : Z;
  backing_memory : HostPtr;
  vma_backing_addr : Z
}.

(** Modelled from the spec: a default-constructed area is [Unmapped], with
    every other field zero or null. *)
Definition default_vma : VirtualMemoryArea :=
  mkVMA 0 0 VMAType.Unmapped 0 nullptr 0.

Definition set_size (v : VirtualMemoryArea) (n : Z) : VirtualMemoryArea :=
  mkVMA (base v) n (type v) (offset v) (backing_memory v) (vma_backing_addr v).
Definition set_base (v : VirtualMemoryArea) (b : Z) : VirtualMemoryArea :=
  mkVMA b (size v) (type v) (offset v) (backing_memory v) (vma_backing_addr v).
Definition set_offset (v : VirtualMemoryArea) (o : Z) : VirtualMemoryArea :=
  mkVMA (base v) (size v) (type v) o (backing_memory v) (vma_backing_addr v).
Definition set_backing_memory (v : VirtualMemoryArea) (p : HostPtr) : VirtualMemoryArea :=
  mkVMA (base v) (size v) (type v) (offset v) p (vma_backing_addr v).
Definition set_mapping (v : VirtualMemoryArea) (ty : VMAType.t) (p : HostPtr) (a : Z)
  : VirtualMemoryArea :=
  mkVMA (base v) (size v) ty (offset v) p a.

(** [VirtualMemoryArea::CanBeMergedWith]. *)
Definition CanBeMergedWith (v next : VirtualMemoryArea) : Result bool :=
  ASSERT (add64 (base v) (size v) =? base next) ;;;
  if negb (VMAType.eqb (type v) (type next)) then Ok false
  else if VMAType.eqb (type v) VMAType.Allocated
          && negb (add64 (offset v) (size v) =? offset next) then Ok false
  else if VMAType.eqb (type v) VMAType.Mapped
          && negb (backing_memory v + size v =? backing_memory next) then Ok false
  else Ok true.

(** ** The map of areas

    [vma_map] is a [std::map<GPUVAddr, VirtualMemoryArea>]. Every insertion
    uses the area's own [base] as its key and no stored area has its [base]
    assigned to, so the map is the list of its areas in ascending order of
    [base], and the key of an entry is read from the entry. *)
Definition VMAMap := list VirtualMemoryArea.

(** An iterator of the map: the key of the entry it points to, the
    past-the-end iterator, or the value-initialised iterator that [return {}]
    yields. Keys identify entries, so an iterator stays valid when other
    entries are inserted or erased, as in [std::map]. *)
Inductive VMAIter : Type := It (key : Z) | ItEnd | ItNull.

Definition iter_eqb (a b : VMAIter) : bool :=
  match a, b with
  | It j, It k => j =? k
  | ItEnd, ItEnd => true
  | ItNull, ItNull => true
  | _, _ => false
  end.

Definition map_begin (m : VMAMap) : VMAIter :=
  match m with
  | [] => ItEnd
  | v :: _ => It (base v)
  end.

(** [m.upper_bound(t)]: the first entry whose key is greater than [t]. *)
Fixpoint upper_bound (m : VMAMap) (t : Z) : VMAIter :=
  match m with
  | [] => ItEnd
  | v :: m' => if t <? base v then It (base v) else upper_bound m' t
  end.

(** [m.lower_bound(t)]: the first entry whose key is not less than [t]. *)
Fixpoint lower_bound (m : VMAMap) (t : Z) : VMAIter :=
  match m with
  | [] => ItEnd
  | v :: m' => if t <=? base v then It (base v) else lower_bound m' t
  end.

Fixpoint map_find (m : VMAMap) (k : Z) : option VirtualMemoryArea :=
  match m with
  | [] => None
  | v :: m' => if base v =? k then Some v else map_find m' k
  end.

(** [it->second]. *)
Definition deref (m : VMAMap) (it : VMAIter) : Result VirtualMemoryArea :=
  match it with
  | It k => match map_find m k with Some v => Ok v | None => Undefined end
  | ItEnd | ItNull => Undefined
  end.

(** The greatest key below [k], scanning in ascending order. *)
Fixpoint key_below (m : VMAMap) (k : Z) (acc : option Z) : option Z :=
  match m with
  | [] => acc
  | v :: m' => if base v <? k then key_below m' k (Some (base v)) else acc
  end.

(** [std::next(it)]. *)
Definition iter_next (m : VMAMap) (it : VMAIter) : Result VMAIter :=
  match it with
  | It k => Ok (upper_bound m k)
  | ItEnd | ItNull => Undefined
  end.

(** [std::prev(it)]: undefined on [begin()]. *)
Definition iter_prev (m : VMAMap) (it : VMAIter) : Result VMAIter :=
  match it with
  | It k => match key_below m k None with Some j => Ok (It j) | None => Undefined end
  | ItEnd => match m with
             | [] => Undefined
             | _ => Ok (It (base (last m default_vma)))
             end
  | ItNull => Undefined
  end.

(** [m.erase(it)]. *)
Fixpoint map_erase (m : VMAMap) (k : Z) : VMAMap :=
  match m with
  | [] => []
  | v :: m' => if base v =? k then m' else v :: map_erase m' k
  end.

(** An assignment through the reference [it->second]. *)
Fixpoint map_update (m : VMAMap) (k : Z) (f : VirtualMemoryArea -> VirtualMemoryArea)
  : VMAMap :=
  match m with
  | [] => []
  | v :: m' => if base v =? k then f v :: m' else v :: map_update m' k f
  end.

(** [m.emplace(v.base, v)] and [m.emplace_hint(hint, v.base, v)]: the entry is
    inserted in key order unless the key is present. *)
Fixpoint map_emplace (m : VMAMap) (v : VirtualMemoryArea) : VMAMap :=
  match m with
  | [] => [v]
  | u :: m' =>
      if base v <? base u then v :: u :: m'
      else if base v =? base u then u :: m'
      else u :: map_emplace m' v
  end.

(** ** The manager *)

(** The calls the manager makes into its collaborators, in the order made:
    the rasterizer ([FlushRegion], [InvalidateRegion]), the GPU
    ([FlushAndInvalidateRegion]) and the kernel's VM manager
    ([SetMemoryAttribute], with [true] for [DeviceMapped] and [false] for
    [None]). *)
Inductive Callout : Type :=
| FlushRegion (cache_addr size : Z)
| InvalidateRegion (cache_addr size : Z)
| FlushAndInvalidateRegion (cache_addr size : Z)
| SetMemoryAttribute (cpu_addr size : Z) (device_mapped : bool).

(** The state a [MemoryManager] works on: its own members [vma_map] and
    [page_table], the host memory that the page pointers lead to (one byte
    per host address), the calls made so far, the two services of [system]
    whose answers the manager reads, and what the rasterizer holds.

    Modelled from the spec: [Memory_GetPointer] is the memory bus
    ([system.Memory().GetPointer]) and [SetMemoryAttribute_IsSuccess] is the
    result of the kernel call; neither is among the sources.
    [rasterizer_cache] stands for the caches behind
    [RasterizerVulkan::FlushRegion] and [InvalidateRegion] (texture, buffer,
    query and pipeline cache), which are not among the sources either: the
    cached writes the rasterizer holds, by host address, [None] where it
    holds nothing. *)
Record MemoryManager : Type := mkMemoryManager {
  vma_map : VMAMap;
  page_table : PageTable;
  host_memory : Z -> Z;
  callouts : list Callout;
  Memory_GetPointer : Z -> HostPtr;
  SetMemoryAttribute_IsSuccess : Z -> Z -> bool -> bool;
  rasterizer_cache : Z -> option Z
}.

Definition with_vma_map (s : MemoryManager) (m : VMAMap) : MemoryManager :=
  mkMemoryManager m (page_table s) (host_memory s) (callouts s)
    (Memory_GetPointer s) (SetMemoryAttribute_IsSuccess s) (rasterizer_cache s).
Definition with_page_table (s : MemoryManager) (pt : PageTable) : MemoryManager :=
  mkMemoryManager (vma_map s) pt (host_memory s) (callouts s)
    (Memory_GetPointer s) (SetMemoryAttribute_IsSuccess s) (rasterizer_cache s).
Definition with_host_memory (s : MemoryManager) (h : Z -> Z) : MemoryManager :=
  mkMemoryManager (vma_map s) (page_table s) h (callouts s)
    (Memory_GetPointer s) (SetMemoryAttribute_IsSuccess s) (rasterizer_cache s).
Definition with_callout (s : MemoryManager) (c : Callout) : MemoryManager :=
  mkMemoryManager (vma_map s) (page_table s) (host_memory s) (callouts s ++ [c])
    (Memory_GetPointer s) (SetMemoryAttribute_IsSuccess s) (rasterizer_cache s).
Definition with_rasterizer_cache (s : MemoryManager) (cache : Z -> option Z)
  : MemoryManager :=
  mkMemoryManager (vma_map s) (page_table s) (host_memory s) (callouts s)
    (Memory_GetPointer s) (SetMemoryAttribute_IsSuccess s) cache.

(** A member function that may change the manager or call out. *)
Definition M (A : Type) : Type := MemoryManager -> Result (A * MemoryManager).

Definition ret {A : Type} (a : A) : M A := fun s => Ok (a, s).
Definition bind {A B : Type} (c : M A) (k : A -> M B) : M B :=
  fun s =>
    match c s with
    | Ok (a, s') => k a s'
    | AssertFail => AssertFail
    | Undefined => Undefined
    | OutOfFuel => OutOfFuel
    end.
Definition lift {A : Type} (r : Result A) : M A :=
  fun s => rbind r (fun a => Ok (a, s)).
Definition gets {A : Type} (f : MemoryManager -> A) : M A := fun s => Ok (f s, s).
Definition modify (f : MemoryManager -> MemoryManager) : M unit := fun s => Ok (tt, f s).
Definition assert (b : bool) : M unit := lift (ASSERT b).
(** [call c] records that the call [c] is made. A call into the rasterizer
    also acts on host memory or on what the rasterizer holds, which
    [Rasterizer_FlushRegion], [Rasterizer_InvalidateRegion] and
    [GPU_FlushAndInvalidateRegion] add to the record; the call into the
    kernel acts on neither. *)
Definition call (c : Callout) : M unit := modify (fun s => with_callout s c).

Close Scope result_scope.
Declare Scope manager_scope.
Delimit Scope manager_scope with manager.
Notation "x <- e ;; k" := (bind e (fun x => k))
  (at level 61, e at next level, right associativity) : manager_scope.
Notation "e ;;; k" := (bind e (fun _ => k))
  (at level 61, right associativity) : manager_scope.
Open Scope manager_scope.

(** The area an iterator points to, and an assignment through it. *)
Definition area (it : VMAIter) : M VirtualMemoryArea :=
  m <- gets vma_map ;; lift (deref m it).

Definition assign (it : VMAIter) (f : VirtualMemoryArea -> VirtualMemoryArea) : M unit :=
  match it with
  | It k => modify (fun s => with_vma_map s (map_update (vma_map s) k f))
  | ItEnd | ItNull => lift Undefined
  end.

Definition erase (it : VMAIter) : M unit :=
  match it with
  | It k => modify (fun s => with_vma_map s (map_erase (vma_map s) k))
  | ItEnd | ItNull => lift Undefined
  end.

(** *** Projection into the page table *)

(** The [while (base != end)] loop of [MapPages], [n] pages from [base]. *)
Fixpoint MapPages_loop (n : nat) (base : Z) (memory : HostPtr) (backing : Z)
    (pt : PageTable) : PageTable :=
  match n with
  | O => pt
  | S n' =>
      MapPages_loop n' (add64 base 1) (memory + page_size) (add64 backing page_size)
        (mkPageTable (store (pointers pt) base memory)
                     (attributes pt)
                     (store (backing_addr pt) base backing))
  end.

(** [MemoryManager::MapPages]; [base] and [size] count pages. *)
Definition MapPages (base size : Z) (memory : HostPtr) (type : PageType.t)
    (backing : Z) : M unit :=
  let end_ := add64 base size in
  assert (end_ <=? pointers_size) ;;;
  modify (fun s =>
    let pt := page_table s in
    with_page_table s
      (mkPageTable (pointers pt) (fill (attributes pt) base end_ type) (backing_addr pt))) ;;;
  if memory =? nullptr then
    modify (fun s =>
      let pt := page_table s in
      with_page_table s
        (mkPageTable (fill (pointers pt) base end_ memory)
                     (attributes pt)
                     (fill (backing_addr pt) base end_ backing)))
  else
    modify (fun s =>
      with_page_table s
        (MapPages_loop (Z.to_nat (end_ - base)) base memory backing (page_table s))).

(** [MemoryManager::MapMemoryRegion]. *)
Definition MapMemoryRegion (base size : Z) (target : HostPtr) (backing : Z) : M unit :=
  assert (Z.land size page_mask =? 0) ;;;
  assert (Z.land base page_mask =? 0) ;;;
  MapPages (base / page_size) (size / page_size) target PageType.Memory backing.

(** [MemoryManager::UnmapRegion]; the [backing_addr] argument of [MapPages]
    is left to its default, 0. *)
Definition UnmapRegion (base size : Z) : M unit :=
  assert (Z.land size page_mask =? 0) ;;;
  assert (Z.land base page_mask =? 0) ;;;
  MapPages (base / page_size) (size / page_size) nullptr PageType.Unmapped 0.

(** [MemoryManager::UpdatePageTableForVMA]. *)
Definition UpdatePageTableForVMA (vma : VirtualMemoryArea) : M unit :=
  match type vma with
  | VMAType.Unmapped => UnmapRegion (base vma) (size vma)
  | VMAType.Allocated =>
      MapMemoryRegion (base vma) (size vma) nullptr (vma_backing_addr vma)
  | VMAType.Mapped =>
      MapMemoryRegion (base vma) (size vma) (backing_memory vma) (vma_backing_addr vma)
  end.

(** *** The interval engine *)

(** [MemoryManager::FindVMA]. *)
Definition FindVMA (target : Z) : M VMAIter :=
  m <- gets vma_map ;;
  if address_space_end <=? target then ret ItEnd
  else lift (iter_prev m (upper_bound m target)).

(** [MemoryManager::StripIterConstness]: erasing the empty range changes
    nothing and yields the same position. *)
Definition StripIterConstness (iter : VMAIter) : M VMAIter := ret iter.

(** [MemoryManager::SplitVMA]. *)
Definition SplitVMA (vma_handle : VMAIter) (offset_in_vma : Z) : M VMAIter :=
  old_vma <- area vma_handle ;;
  let new_vma := old_vma in
  assert (offset_in_vma <? size old_vma) ;;;
  assert (0 <? offset_in_vma) ;;;
  assign vma_handle (fun v => set_size v offset_in_vma) ;;;
  let new_vma := set_base new_vma (add64 (base new_vma) offset_in_vma) in
  let new_vma := set_size new_vma (sub64 (size new_vma) offset_in_vma) in
  let new_vma :=
    match type new_vma with
    | VMAType.Unmapped => new_vma
    | VMAType.Allocated => set_offset new_vma (add64 (offset new_vma) offset_in_vma)
    | VMAType.Mapped =>
        set_backing_memory new_vma (backing_memory new_vma + offset_in_vma)
    end in
  old_vma <- area vma_handle ;;
  mergeable <- lift (CanBeMergedWith old_vma new_vma) ;;
  assert mergeable ;;;
  modify (fun s => with_vma_map s (map_emplace (vma_map s) new_vma)) ;;;
  ret (It (base new_vma)).

(** [MemoryManager::MergeAdjacent]. *)
Definition MergeAdjacent (iter : VMAIter) : M VMAIter :=
  m <- gets vma_map ;;
  next_vma <- lift (iter_next m iter) ;;
  (if negb (iter_eqb next_vma ItEnd) then
     v <- area iter ;;
     n <- area next_vma ;;
     mergeable <- lift (CanBeMergedWith v n) ;;
     if mergeable then
       assign iter (fun v => set_size v (add64 (size v) (size n))) ;;;
       erase next_vma
     else ret tt
   else ret tt) ;;;
  m <- gets vma_map ;;
  if negb (iter_eqb iter (map_begin m)) then
    prev_vma <- lift (iter_prev m iter) ;;
    p <- area prev_vma ;;
    v <- area iter ;;
    mergeable <- lift (CanBeMergedWith p v) ;;
    if mergeable then
      assign prev_vma (fun p => set_size p (add64 (size p) (size v))) ;;;
      erase iter ;;;
      ret prev_vma
    else ret iter
  else ret iter.

(** [MemoryManager::Allocate]. *)
Definition Allocate (vma_handle : VMAIter) : M VMAIter :=
  assign vma_handle (fun v => set_mapping v VMAType.Allocated nullptr 0) ;;;
  vma <- area vma_handle ;;
  UpdatePageTableForVMA vma ;;;
  MergeAdjacent vma_handle.

(** [MemoryManager::CarveVMA]. *)
Definition CarveVMA (base_ size_ : Z) : M VMAIter :=
  assert (Z.land size_ page_mask =? 0) ;;;
  assert (Z.land base_ page_mask =? 0) ;;;
  found <- FindVMA base_ ;;
  vma_handle <- StripIterConstness found ;;
  if iter_eqb vma_handle ItEnd then ret ItNull
  else
    vma <- area vma_handle ;;
    if VMAType.eqb (type vma) VMAType.Mapped then ret vma_handle
    else
      let start_in_vma := sub64 base_ (base vma) in
      let end_in_vma := add64 start_in_vma size_ in
      assert (end_in_vma <=? size vma) ;;;
      (if end_in_vma <? size vma then
         SplitVMA vma_handle end_in_vma ;;; ret tt
       else ret tt) ;;;
      if negb (start_in_vma =? 0) then SplitVMA vma_handle start_in_vma
      else ret vma_handle.

(** [std::any_of(first, last, pred)] over the entries of the map from the
    position [first] up to, not including, the position [last]. *)
Fixpoint any_of_from (m : VMAMap) (last : VMAIter)
    (pred : VirtualMemoryArea -> bool) : bool :=
  match m with
  | [] => false
  | v :: m' =>
      if iter_eqb (It (base v)) last then false
      else pred v || any_of_from m' last pred
  end.

Fixpoint any_of (m : VMAMap) (first last : VMAIter)
    (pred : VirtualMemoryArea -> bool) : bool :=
  match m with
  | [] => false
  | v :: m' =>
      if iter_eqb (It (base v)) first then any_of_from m last pred
      else any_of m' first last pred
  end.

(** [MemoryManager::CarveVMARange]. *)
Definition CarveVMARange (target size_ : Z) : M VMAIter :=
  assert (Z.land size_ page_mask =? 0) ;;;
  assert (Z.land target page_mask =? 0) ;;;
  let target_end := add64 target size_ in
  assert (target <=? target_end) ;;;
  assert (0 <? size_) ;;;
  found <- FindVMA target ;;
  begin_vma <- StripIterConstness found ;;
  m <- gets vma_map ;;
  let i_end := lower_bound m target_end in
  if any_of m begin_vma i_end
       (fun entry => VMAType.eqb (type entry) VMAType.Unmapped)
  then ret ItNull
  else
    first <- area begin_vma ;;
    begin_vma <-
      (if negb (target =? base first)
       then SplitVMA begin_vma (sub64 target (base first))
       else ret begin_vma) ;;
    found <- FindVMA target_end ;;
    end_vma <- StripIterConstness found ;;
    (if negb (iter_eqb end_vma ItEnd) then
       last <- area end_vma ;;
       if negb (target_end =? base last)
       then SplitVMA end_vma (sub64 target_end (base last)) ;;; ret tt
       else ret tt
     else ret tt) ;;;
    ret begin_vma.

(** [MemoryManager::AllocateMemory]. *)
Definition AllocateMemory (target offset_ size_ : Z) : M VMAIter :=
  vma_handle <- CarveVMA target size_ ;;
  vma <- area vma_handle ;;
  assert (size vma =? size_) ;;;
  assign vma_handle (fun v => set_offset v offset_) ;;;
  Allocate vma_handle.

(** [MemoryManager::MapBackingMemory]. *)
Definition MapBackingMemory (target : Z) (memory : HostPtr) (size_ backing : Z)
  : M VMAIter :=
  vma_handle <- CarveVMA target size_ ;;
  vma <- area vma_handle ;;
  assert (size vma =? size_) ;;;
  assign vma_handle (fun v => set_mapping v VMAType.Mapped memory backing) ;;;
  vma <- area vma_handle ;;
  UpdatePageTableForVMA vma ;;;
  MergeAdjacent vma_handle.

(** The loop of [UnmapRange]; every round moves [vma] to a greater key, so
    the number of entries bounds the number of rounds. *)
Fixpoint UnmapRange_loop (fuel : nat) (vma : VMAIter) (target_end : Z) : M unit :=
  match vma with
  | ItNull => lift Undefined
  | ItEnd => ret tt
  | It _ =>
      v <- area vma ;;
      if base v <? target_end then
        match fuel with
        | O => lift OutOfFuel
        | S fuel' =>
            allocated <- Allocate vma ;;
            m <- gets vma_map ;;
            next <- lift (iter_next m allocated) ;;
            UnmapRange_loop fuel' next target_end
        end
      else ret tt
  end.

(** [MemoryManager::UnmapRange]. *)
Definition UnmapRange (target size_ : Z) : M unit :=
  vma <- CarveVMARange target size_ ;;
  let target_end := add64 target size_ in
  m <- gets vma_map ;;
  UnmapRange_loop (length m) vma target_end ;;;
  found <- FindVMA target ;;
  v <- area found ;;
  assert (size_ <=? size v).

(** *** Address translation and the hot path *)

(** [MemoryManager::IsAddressValid]. *)
Definition IsAddressValid (addr : Z) : bool :=
  Z.shiftr addr page_bits <? pointers_size.

(** [MemoryManager::GpuToCpuAddress]; [None] is the empty optional. *)
Definition GpuToCpuAddress (s : MemoryManager) (addr : Z) : option Z :=
  if negb (IsAddressValid addr) then None
  else
    let cpu_addr := backing_addr (page_table s) (Z.shiftr addr page_bits) in
    if negb (cpu_addr =? 0) then Some (add64 cpu_addr (Z.land addr page_mask))
    else None.

(** [MemoryManager::GetPointer]. *)
Definition GetPointer (s : MemoryManager) (addr : Z) : HostPtr :=
  if negb (IsAddressValid addr) then nullptr
  else
    let page_pointer := pointers (page_table s) (Z.shiftr addr page_bits) in
    if negb (page_pointer =? nullptr) then page_pointer + Z.land addr page_mask
    else nullptr.

(** Modelled from the spec: [ToCacheAddr] of video_core/gpu.h reinterprets a
    host pointer as an integer tag. *)
Definition ToCacheAddr (p : HostPtr) : Z := p.

(** *** The rasterizer *)

(** The host addresses [cache_addr, cache_addr + size) that a call into the
    rasterizer names. *)
Definition in_region (cache_addr size p : Z) : bool :=
  (cache_addr <=? p) && (p <? cache_addr + size).

(** Modelled from the spec: a flush makes host memory reflect the cached
    writes that the rasterizer holds over the region; host memory outside the
    region, and where nothing is cached, stays as it is. *)
Definition flush_region (h : Z -> Z) (cache : Z -> option Z) (cache_addr size : Z)
  : Z -> Z :=
  fun p =>
    if in_region cache_addr size p
    then match cache p with Some v => v | None => h p end
    else h p.

(** Modelled from the spec: an invalidation discards what the rasterizer
    holds over the region. *)
Definition invalidate_region (cache : Z -> option Z) (cache_addr size : Z)
  : Z -> option Z :=
  fun p => if in_region cache_addr size p then None else cache p.

(** [RasterizerVulkan::FlushRegion]: the caches write back to host memory. *)
Definition Rasterizer_FlushRegion (cache_addr size : Z) : M unit :=
  call (FlushRegion cache_addr size) ;;;
  modify (fun s =>
    with_host_memory s
      (flush_region (host_memory s) (rasterizer_cache s) cache_addr size)).

(** [RasterizerVulkan::InvalidateRegion]: the caches drop the region. *)
Definition Rasterizer_InvalidateRegion (cache_addr size : Z) : M unit :=
  call (InvalidateRegion cache_addr size) ;;;
  modify (fun s =>
    with_rasterizer_cache s (invalidate_region (rasterizer_cache s) cache_addr size)).

(** Modelled from the spec: [system.GPU().FlushAndInvalidateRegion] is not
    among the sources; the spec has the call synchronous, and
    [RasterizerVulkan::FlushAndInvalidateRegion] carries it out as a
    [FlushRegion] followed by an [InvalidateRegion]. It is one call of the
    manager. *)
Definition GPU_FlushAndInvalidateRegion (cache_addr size : Z) : M unit :=
  call (FlushAndInvalidateRegion cache_addr size) ;;;
  modify (fun s =>
    with_host_memory s
      (flush_region (host_memory s) (rasterizer_cache s) cache_addr size)) ;;;
  modify (fun s =>
    with_rasterizer_cache s (invalidate_region (rasterizer_cache s) cache_addr size)).

(** [n] bytes of host memory from [p]. *)
Definition read_bytes (h : Z -> Z) (p : HostPtr) (n : Z) : list Z :=
  map (fun i => h (p + Z.of_nat i)) (seq 0 (Z.to_nat n)).

(** Host memory after the bytes [l] are copied to [p]. *)
Definition write_bytes (h : Z -> Z) (p : HostPtr) (l : list Z) : Z -> Z :=
  fun a =>
    if (p <=? a) && (a <? p + Z.of_nat (length l))
    then nth (Z.to_nat (a - p)) l 0
    else h a.

(** The value of a little-endian byte sequence, and the [n] bytes of a value. *)
Fixpoint le_combine (l : list Z) : Z :=
  match l with
  | [] => 0
  | b :: l' => b + 256 * le_combine l'
  end.

Fixpoint le_split (n : nat) (v : Z) : list Z :=
  match n with
  | O => []
  | S n' => v mod 256 :: le_split n' (v / 256)
  end.

(** [MemoryManager::Read<T>], for a [T] of [sizeof_T] bytes (1, 2, 4 or 8).
    The function is [const]: it returns a value and changes nothing. *)
Definition Read (sizeof_T : Z) (s : MemoryManager) (addr : Z) : Result Z :=
  if negb (IsAddressValid addr) then Ok 0
  else
    let page_pointer := pointers (page_table s) (Z.shiftr addr page_bits) in
    if negb (page_pointer =? nullptr) then
      Ok (le_combine (read_bytes (host_memory s)
                        (page_pointer + Z.land addr page_mask) sizeof_T))
    else
      match attributes (page_table s) (Z.shiftr addr page_bits) with
      | PageType.Unmapped => Ok 0
      | PageType.Memory => AssertFail
      end.

(** [MemoryManager::Write<T>]. *)
Definition Write (sizeof_T : Z) (addr data : Z) : M unit :=
  if negb (IsAddressValid addr) then ret tt
  else
    pt <- gets page_table ;;
    let page_pointer := pointers pt (Z.shiftr addr page_bits) in
    if negb (page_pointer =? nullptr) then
      modify (fun s =>
        with_host_memory s
          (write_bytes (host_memory s) (page_pointer + Z.land addr page_mask)
             (le_split (Z.to_nat sizeof_T) data)))
    else
      match attributes pt (Z.shiftr addr page_bits) with
      | PageType.Unmapped => ret tt
      | PageType.Memory => lift AssertFail
      end.

(** *** Block transfers *)

(** [v[i]] on a vector of the page table: past its end the access is
    undefined. *)
Definition at_page {A : Type} (v : Z -> A) (i : Z) : M A :=
  if (0 <=? i) && (i <? pointers_size) then ret (v i) else lift Undefined.

(** [std::memcpy] out of and into host memory through a page pointer: a null
    page pointer has no memory behind it. *)
Definition memcpy_from (page_pointer : HostPtr) (page_offset n : Z) : M (list Z) :=
  if page_pointer =? nullptr then lift Undefined
  else h <- gets host_memory ;; ret (read_bytes h (page_pointer + page_offset) n).

Definition memcpy_to (page_pointer : HostPtr) (page_offset : Z) (l : list Z) : M unit :=
  if page_pointer =? nullptr then lift Undefined
  else modify (fun s =>
         with_host_memory s (write_bytes (host_memory s) (page_pointer + page_offset) l)).

(** The loop of [ReadBlock]; [dest] is what has been written to
    [dest_buffer] so far. Every round consumes at least one byte of
    [remaining_size]. *)
Fixpoint ReadBlock_loop (fuel : nat) (remaining_size page_index page_offset : Z)
    (dest : list Z) : M (list Z) :=
  if 0 <? remaining_size then
    match fuel with
    | O => lift OutOfFuel
    | S fuel' =>
        let copy_amount := Z.min (page_size - page_offset) remaining_size in
        pt <- gets page_table ;;
        attribute <- at_page (attributes pt) page_index ;;
        match attribute with
        | PageType.Memory =>
            let src_ptr := pointers pt page_index + page_offset in
            Rasterizer_FlushRegion (ToCacheAddr src_ptr) copy_amount ;;;
            bytes <- memcpy_from (pointers pt page_index) page_offset copy_amount ;;
            ReadBlock_loop fuel' (sub64 remaining_size copy_amount)
              (add64 page_index 1) 0 (dest ++ bytes)
        | PageType.Unmapped => lift AssertFail
        end
    end
  else ret dest.

(** [MemoryManager::ReadBlock]; the result is the content of [dest_buffer]. *)
Definition ReadBlock (src_addr size_ : Z) : M (list Z) :=
  ReadBlock_loop (Z.to_nat size_) size_
    (Z.shiftr src_addr page_bits) (Z.land src_addr page_mask) [].

(** The loop of [ReadBlockUnsafe]. *)
Fixpoint ReadBlockUnsafe_loop (fuel : nat) (remaining_size page_index page_offset : Z)
    (dest : list Z) : M (list Z) :=
  if 0 <? remaining_size then
    match fuel with
    | O => lift OutOfFuel
    | S fuel' =>
        let copy_amount := Z.min (page_size - page_offset) remaining_size in
        pt <- gets page_table ;;
        page_pointer <- at_page (pointers pt) page_index ;;
        bytes <-
          (if negb (page_pointer =? nullptr)
           then memcpy_from page_pointer page_offset copy_amount
           else ret (repeat 0 (Z.to_nat copy_amount))) ;;
        ReadBlockUnsafe_loop fuel' (sub64 remaining_size copy_amount)
          (add64 page_index 1) 0 (dest ++ bytes)
    end
  else ret dest.

(** [MemoryManager::ReadBlockUnsafe]. *)
Definition ReadBlockUnsafe (src_addr size_ : Z) : M (list Z) :=
  ReadBlockUnsafe_loop (Z.to_nat size_) size_
    (Z.shiftr src_addr page_bits) (Z.land src_addr page_mask) [].

(** The loop of [WriteBlock]; [src] is what is left of [src_buffer]. *)
Fixpoint WriteBlock_loop (fuel : nat) (remaining_size page_index page_offset : Z)
    (src : list Z) : M unit :=
  if 0 <? remaining_size then
    match fuel with
    | O => lift OutOfFuel
    | S fuel' =>
        let copy_amount := Z.min (page_size - page_offset) remaining_size in
        pt <- gets page_table ;;
        attribute <- at_page (attributes pt) page_index ;;
        match attribute with
        | PageType.Memory =>
            let dest_ptr := pointers pt page_index + page_offset in
            Rasterizer_InvalidateRegion (ToCacheAddr dest_ptr) copy_amount ;;;
            memcpy_to (pointers pt page_index) page_offset
              (firstn (Z.to_nat copy_amount) src) ;;;
            WriteBlock_loop fuel' (sub64 remaining_size copy_amount)
              (add64 page_index 1) 0 (skipn (Z.to_nat copy_amount) src)
        | PageType.Unmapped => lift AssertFail
        end
    end
  else ret tt.

(** [MemoryManager::WriteBlock]; reading [size_] bytes from a shorter
    [src_buffer] is undefined. *)
Definition WriteBlock (dest_addr : Z) (src_buffer : list Z) (size_ : Z) : M unit :=
  if Z.of_nat (length src_buffer) <? size_ then lift Undefined
  else
    WriteBlock_loop (Z.to_nat size_) size_
      (Z.shiftr dest_addr page_bits) (Z.land dest_addr page_mask) src_buffer.

(** *** The public interface *)

(** The [std::find_if] of [FindFreeRegion]. *)
Fixpoint find_free (m : VMAMap) (region_start size_ : Z) : option VirtualMemoryArea :=
  match m with
  | [] => None
  | vma :: m' =>
      if negb (VMAType.eqb (type vma) VMAType.Unmapped) then find_free m' region_start size_
      else
        let vma_end := add64 (base vma) (size vma) in
        if (region_start <? vma_end) && (add64 region_start size_ <=? vma_end)
        then Some vma
        else find_free m' region_start size_
  end.

(** [MemoryManager::FindFreeRegion]. *)
Definition FindFreeRegion (s : MemoryManager) (region_start size_ : Z) : Z :=
  match find_free (vma_map s) region_start size_ with
  | None => 0
  | Some vma => Z.max region_start (base vma)
  end.

(** [MemoryManager::AllocateSpace(u64 size, u64 align)]. *)
Definition AllocateSpace (size_ align : Z) : M Z :=
  let aligned_size := AlignUp size_ page_size in
  s <- gets (fun s => s) ;;
  let gpu_addr := FindFreeRegion s address_space_base aligned_size in
  AllocateMemory gpu_addr 0 aligned_size ;;;
  ret gpu_addr.

(** [MemoryManager::AllocateSpace(GPUVAddr gpu_addr, u64 size, u64 align)]. *)
Definition AllocateSpaceAt (gpu_addr size_ align : Z) : M Z :=
  let aligned_size := AlignUp size_ page_size in
  AllocateMemory gpu_addr 0 aligned_size ;;;
  ret gpu_addr.

(** [SetMemoryAttribute(...).IsSuccess()] inside an [ASSERT]. *)
Definition set_device_mapped (cpu_addr size_ : Z) (device_mapped : bool) : M unit :=
  call (SetMemoryAttribute cpu_addr size_ device_mapped) ;;;
  ok <- gets (fun s => SetMemoryAttribute_IsSuccess s cpu_addr size_ device_mapped) ;;
  assert ok.

(** [MemoryManager::MapBufferEx(VAddr cpu_addr, u64 size)]. *)
Definition MapBufferEx (cpu_addr size_ : Z) : M Z :=
  let aligned_size := AlignUp size_ page_size in
  s <- gets (fun s => s) ;;
  let gpu_addr := FindFreeRegion s address_space_base aligned_size in
  MapBackingMemory gpu_addr (Memory_GetPointer s cpu_addr) aligned_size cpu_addr ;;;
  set_device_mapped cpu_addr size_ true ;;;
  ret gpu_addr.

(** [MemoryManager::MapBufferEx(VAddr cpu_addr, GPUVAddr gpu_addr, u64 size)]. *)
Definition MapBufferExAt (cpu_addr gpu_addr size_ : Z) : M Z :=
  assert (Z.land gpu_addr page_mask =? 0) ;;;
  let aligned_size := AlignUp size_ page_size in
  s <- gets (fun s => s) ;;
  MapBackingMemory gpu_addr (Memory_GetPointer s cpu_addr) aligned_size cpu_addr ;;;
  set_device_mapped cpu_addr size_ true ;;;
  ret gpu_addr.

(** [MemoryManager::UnmapBuffer]. *)
Definition UnmapBuffer (gpu_addr size_ : Z) : M Z :=
  assert (Z.land gpu_addr page_mask =? 0) ;;;
  let aligned_size := AlignUp size_ page_size in
  s <- gets (fun s => s) ;;
  let cache_addr := ToCacheAddr (GetPointer s gpu_addr) in
  match GpuToCpuAddress s gpu_addr with
  | None => lift AssertFail
  | Some cpu_addr =>
      GPU_FlushAndInvalidateRegion cache_addr aligned_size ;;;
      UnmapRange gpu_addr aligned_size ;;;
      set_device_mapped cpu_addr size_ false ;;;
      ret gpu_addr
  end.

(** The constructor: every slot null, [Unmapped] and 0, one free area over the
    whole address space, projected into the page table. [rasterizer] is what
    the rasterizer it is given holds. *)
Definition MemoryManager_new (host : Z -> Z) (memory_bus : Z -> HostPtr)
    (kernel : Z -> Z -> bool -> bool) (rasterizer : Z -> option Z)
  : Result MemoryManager :=
  let initial_vma := set_size default_vma address_space_end in
  let s := mkMemoryManager
             (map_emplace [] initial_vma)
             (mkPageTable (fun _ => nullptr) (fun _ => PageType.Unmapped) (fun _ => 0))
             host [] memory_bus kernel rasterizer in
  rbind (UpdatePageTableForVMA initial_vma s) (fun r => Ok (snd r)).


(** * Vocabulary of the properties *)

(** The page table [MapPages] leaves behind. *)
Definition MapPages_table (base size : Z) (memory : HostPtr) (type : PageType.t)
    (backing : Z) (pt : PageTable) : PageTable :=
  let end_ := add64 base size in
  let pt1 := mkPageTable (pointers pt) (fill (attributes pt) base end_ type) (backing_addr pt) in
  if memory =? nullptr then
    mkPageTable (fill (pointers pt1) base end_ memory) (attributes pt1)
      (fill (backing_addr pt1) base end_ backing)
  else MapPages_loop (Z.to_nat (end_ - base)) base memory backing pt1.

(** A region given in bytes, as [MapMemoryRegion] and [UnmapRegion] take it. *)
Definition region_ok (b n : Z) : Prop :=
  0 <= b /\ 0 <= n /\ b mod 4096 = 0 /\ n mod 4096 = 0 /\ b + n <= address_space_end.


(** The addresses [a, a + 1, ..., a + n - 1]. *)
Definition zrange (a n : Z) : list Z :=
  map (fun i => a + Z.of_nat i) (seq 0 (Z.to_nat n)).

(** What [ReadBlockUnsafe] is to deliver for the byte at GPU address [a]. *)
Definition unsafe_byte (s : MemoryManager) (a : Z) : Z :=
  let page_pointer := pointers (page_table s) (Z.shiftr a page_bits) in
  if page_pointer =? nullptr then 0
  else host_memory s (page_pointer + Z.land a page_mask).


(** The byte of host memory at [p] once the rasterizer has written back what
    it holds there. *)
Definition retired (h : Z -> Z) (cache : Z -> option Z) (p : Z) : Z :=
  match cache p with Some v => v | None => h p end.


(** The pages of the byte range [base, base + size) are projected from host
    memory that starts at [memory]: the projection of a [Mapped] area. *)
Definition mapped_pages (pt : PageTable) (base size : Z) (memory : HostPtr) : Prop :=
  forall p, base <= p * 4096 < base + size ->
    attributes pt p = PageType.Memory
    /\ pointers pt p = memory + (p * 4096 - base).

(** ** The map as a chain of areas *)

(** The areas of [m] follow one another from [lo] to [hi]: each starts where
    its predecessor ends, and each has a positive, page-aligned size. *)
Fixpoint chain (lo : Z) (m : VMAMap) (hi : Z) : Prop :=
  match m with
  | [] => lo = hi
  | v :: m' =>
      base v = lo /\ 0 < size v /\ size v mod 4096 = 0 /\ chain (lo + size v) m' hi
  end.

(** I1 and I2: the areas tile the managed address space. *)
Definition tiles (m : VMAMap) : Prop := chain 0 m address_space_end.

(** Every key of [m] is below [k]; at most, above, at least [k]. *)
Definition keys_lt (k : Z) (m : VMAMap) : Prop := Forall (fun u => base u < k) m.

Definition keys_le (k : Z) (m : VMAMap) : Prop := Forall (fun u => base u <= k) m.

Definition keys_gt (k : Z) (m : VMAMap) : Prop := Forall (fun u => k < base u) m.

Definition keys_ge (k : Z) (m : VMAMap) : Prop := Forall (fun u => k <= base u) m.

(** The right half [SplitVMA] inserts. *)
Definition split_right (v : VirtualMemoryArea) (off : Z) : VirtualMemoryArea :=
  let new_vma := set_size (set_base v (base v + off)) (size v - off) in
  match type v with
  | VMAType.Unmapped => new_vma
  | VMAType.Allocated => set_offset new_vma (add64 (offset v) off)
  | VMAType.Mapped => set_backing_memory new_vma (backing_memory v + off)
  end.

(** The test of [CanBeMergedWith] once its assertion holds. *)
Definition mergeable (a b : VirtualMemoryArea) : bool :=
  VMAType.eqb (type a) (type b)
  && match type a with
     | VMAType.Unmapped => true
     | VMAType.Allocated => add64 (offset a) (size a) =? offset b
     | VMAType.Mapped => backing_memory a + size a =? backing_memory b
     end.

(** The two absorptions of [MergeAdjacent] on a map [l1 ++ v :: l2]: of the
    successor into [v], then of the result into the predecessor. *)
Definition merge_next (v : VirtualMemoryArea) (l2 : VMAMap) : VirtualMemoryArea * VMAMap :=
  match l2 with
  | n :: l2' => if mergeable v n then (set_size v (size v + size n), l2') else (v, l2)
  | [] => (v, [])
  end.

Definition merge_prev (l1 : VMAMap) (v : VirtualMemoryArea) : VMAMap * VirtualMemoryArea :=
  match rev l1 with
  | p :: r => if mergeable p v then (rev r, set_size p (size p + size v)) else (l1, v)
  | [] => (l1, v)
  end.

(** The area [MergeAdjacent] returns an iterator to, and the map it leaves. *)
Definition merged_area (l1 : VMAMap) (v : VirtualMemoryArea) (l2 : VMAMap)
  : VirtualMemoryArea :=
  snd (merge_prev l1 (fst (merge_next v l2))).

Definition merged_map (l1 : VMAMap) (v : VirtualMemoryArea) (l2 : VMAMap) : VMAMap :=
  fst (merge_prev l1 (fst (merge_next v l2)))
  ++ merged_area l1 v l2 :: snd (merge_next v l2).

(** The manager with the given members. *)
Abbreviation St := mkMemoryManager.

(** Unfolds the updates of the manager's members in the goal. *)
Ltac norm_state :=
  unfold with_vma_map, with_page_table, with_host_memory, with_callout,
         with_rasterizer_cache;
  cbn [vma_map page_table host_memory callouts Memory_GetPointer
       SetMemoryAttribute_IsSuccess rasterizer_cache].

(** I5, for one area: what the page table holds on the pages of [v]. For a
    [Mapped] area the host pointers are part of the statement when [strict]
    is set, which supposes that the area is backed by host memory. *)
Definition projected (strict : bool) (pt : PageTable) (v : VirtualMemoryArea) : Prop :=
  (strict = true -> type v = VMAType.Mapped -> 0 < backing_memory v)
  /\ forall p, base v <= p * 4096 < base v + size v ->
       match type v with
       | VMAType.Unmapped =>
           attributes pt p = PageType.Unmapped
           /\ pointers pt p = nullptr /\ backing_addr pt p = 0
       | VMAType.Allocated =>
           attributes pt p = PageType.Memory
           /\ pointers pt p = nullptr /\ backing_addr pt p = 0
       | VMAType.Mapped =>
           attributes pt p = PageType.Memory
           /\ (strict = true ->
               pointers pt p = backing_memory v + (p * 4096 - base v))
       end.

(** The invariant of the manager: I1, I2 and I5. *)
Definition Inv (strict : bool) (s : MemoryManager) : Prop :=
  tiles (vma_map s) /\ Forall (projected strict (page_table s)) (vma_map s).

(** The page table after [UpdatePageTableForVMA]. *)
Definition projection (v : VirtualMemoryArea) (pt : PageTable) : PageTable :=
  match type v with
  | VMAType.Unmapped =>
      MapPages_table (base v / page_size) (size v / page_size) nullptr
        PageType.Unmapped 0 pt
  | VMAType.Allocated =>
      MapPages_table (base v / page_size) (size v / page_size) nullptr
        PageType.Memory (vma_backing_addr v) pt
  | VMAType.Mapped =>
      MapPages_table (base v / page_size) (size v / page_size) (backing_memory v)
        PageType.Memory (vma_backing_addr v) pt
  end.

(** The keys of the map. *)
Definition keys (m : VMAMap) : list Z := map base m.

(** The area [Allocate] leaves in place of [v]. *)
Definition allocated (v : VirtualMemoryArea) : VirtualMemoryArea :=
  set_mapping v VMAType.Allocated nullptr 0.

(** The pieces [CarveVMA] cuts the area [v] into, for a region that starts
    [start] bytes into [v] and is [n] bytes long: the end is split off first,
    then the start. *)
Definition carve_end (v : VirtualMemoryArea) (start n : Z) : VirtualMemoryArea :=
  if start + n <? size v then set_size v (start + n) else v.

Definition carve_right (v : VirtualMemoryArea) (start n : Z) : VMAMap :=
  if start + n <? size v then [split_right v (start + n)] else [].

Definition carve_left (v : VirtualMemoryArea) (start n : Z) : VMAMap :=
  if start =? 0 then [] else [set_size (carve_end v start n) start].

Definition carve_mid (v : VirtualMemoryArea) (start n : Z) : VirtualMemoryArea :=
  if start =? 0 then carve_end v start n else split_right (carve_end v start n) start.

(** The same in a hypothesis. *)
Ltac norm_state_in H :=
  unfold with_vma_map, with_page_table, with_host_memory, with_callout,
         with_rasterizer_cache in H;
  cbn [vma_map page_table host_memory callouts Memory_GetPointer
       SetMemoryAttribute_IsSuccess rasterizer_cache] in H.

(** ** Unmapping *)

(** Where the rest of a map starts. *)
Definition start_of (rest : VMAMap) : Z :=
  match rest with
  | [] => address_space_end
  | v :: _ => base v
  end.

(** The address [a] lies in an [Allocated] area of [m]. *)
Definition in_allocated (m : VMAMap) (a : Z) : Prop :=
  exists u, In u m /\ base u <= a < base u + size u /\ type u = VMAType.Allocated.

(** ** The public interface *)

(** A 64-bit unsigned argument. *)
Definition is_u64 (x : Z) : Prop := 0 <= x < 2 ^ 64.

(** The memory bus backs every guest address by host memory. *)
Definition bus_backed (s : MemoryManager) : Prop :=
  forall cpu_addr, 0 <= cpu_addr -> 0 < Memory_GetPointer s cpu_addr.

(** The managers that the constructor and the public calls produce; between
    the calls the guest and the GPU may change host memory and what the
    rasterizer holds. *)
Inductive reachable : MemoryManager -> Prop :=
| reachable_new h bus kernel rc s :
    MemoryManager_new h bus kernel rc = Ok s -> reachable s
| reachable_AllocateSpace s size_ align r s' :
    reachable s -> is_u64 size_ ->
    AllocateSpace size_ align s = Ok (r, s') -> reachable s'
| reachable_AllocateSpaceAt s gpu_addr size_ align r s' :
    reachable s -> is_u64 gpu_addr -> is_u64 size_ ->
    AllocateSpaceAt gpu_addr size_ align s = Ok (r, s') -> reachable s'
| reachable_MapBufferEx s cpu_addr size_ r s' :
    reachable s -> is_u64 cpu_addr -> is_u64 size_ ->
    MapBufferEx cpu_addr size_ s = Ok (r, s') -> reachable s'
| reachable_MapBufferExAt s cpu_addr gpu_addr size_ r s' :
    reachable s -> is_u64 cpu_addr -> is_u64 gpu_addr -> is_u64 size_ ->
    MapBufferExAt cpu_addr gpu_addr size_ s = Ok (r, s') -> reachable s'
| reachable_UnmapBuffer s gpu_addr size_ r s' :
    reachable s -> is_u64 gpu_addr -> is_u64 size_ ->
    UnmapBuffer gpu_addr size_ s = Ok (r, s') -> reachable s'
| reachable_Write s sizeof_T addr data s' :
    reachable s -> Write sizeof_T addr data s = Ok (tt, s') -> reachable s'
| reachable_ReadBlock s src_addr size_ dest s' :
    reachable s -> ReadBlock src_addr size_ s = Ok (dest, s') -> reachable s'
| reachable_WriteBlock s dest_addr src_buffer size_ s' :
    reachable s -> WriteBlock dest_addr src_buffer size_ s = Ok (tt, s') -> reachable s'
| reachable_outside s h cache :
    reachable s -> reachable (with_rasterizer_cache (with_host_memory s h) cache).

(** The memory bus and the kernel answer as before. *)
Definition same_services (s s' : MemoryManager) : Prop :=
  Memory_GetPointer s' = Memory_GetPointer s
  /\ SetMemoryAttribute_IsSuccess s' = SetMemoryAttribute_IsSuccess s.

(** The manager is the same but for host memory, the calls made and what the
    rasterizer holds. *)
Definition same_tables (s s' : MemoryManager) : Prop :=
  vma_map s' = vma_map s /\ page_table s' = page_table s
  /\ Memory_GetPointer s' = Memory_GetPointer s.

(** ** Concrete managers *)

(** A memory bus that places guest address [a] at host address
    [0x7f0000000000 + a], a kernel whose calls succeed, host memory that is
    zero everywhere, and a rasterizer that holds the byte [0xEE] for the 32
    host addresses from [0x7f0000100ff0]. *)
Definition example_bus (cpu_addr : Z) : HostPtr := 0x7f0000000000 + cpu_addr.

Definition example_kernel (cpu_addr size_ : Z) (device_mapped : bool) : bool := true.

Definition example_rasterizer (p : Z) : option Z :=
  if in_region 0x7f0000100ff0 0x20 p then Some 0xEE else None.

Definition new_manager : Result MemoryManager :=
  MemoryManager_new (fun _ => 0) example_bus example_kernel example_rasterizer.



(** The manager after the call [c], and after the calls [ops] made in order. *)
Definition next {A : Type} (c : M A) (r : Result MemoryManager) : Result MemoryManager :=
  rbind r (fun s => rbind (c s) (fun x => Ok (snd x))).

Fixpoint after (ops : list (M Z)) (r : Result MemoryManager) : Result MemoryManager :=
  match ops with
  | [] => r
  | op :: ops' => after ops' (next op r)
  end.

(** What [f] sees of the manager [r], and what the call [c] returns on it. *)
Definition observe {A : Type} (r : Result MemoryManager) (f : MemoryManager -> A)
  : Result A :=
  rbind r (fun s => Ok (f s)).

Definition outcome {A : Type} (r : Result MemoryManager) (c : M A) : Result A :=
  rbind r (fun s => rbind (c s) (fun x => Ok (fst x))).

(** The fields of an area that identify it in the map. *)
Definition extent (v : VirtualMemoryArea) : Z * Z * VMAType.t * Z :=
  (base v, size v, type v, offset v).

(** The manager that a successful construction or call leaves; the manager
    [s] itself where the call fails. *)
Definition the (r : Result MemoryManager) (s : MemoryManager) : MemoryManager :=
  match r with Ok s' => s' | _ => s end.

Definition run {A : Type} (c : M A) (s : MemoryManager) : MemoryManager :=
  match c s with Ok (_, s') => s' | _ => s end.

Definition succeeds {A : Type} (r : Result A) : bool :=
  match r with Ok _ => true | _ => false end.

(** The members of the manager before its constructor has run. *)
Definition blank : MemoryManager :=
  mkMemoryManager [] (mkPageTable (fun _ => nullptr) (fun _ => PageType.Unmapped) (fun _ => 0))
    (fun _ => 0) [] example_bus example_kernel example_rasterizer.

(** The new manager; with two pages mapped at 0; with three pages reserved
    at 0. *)
Definition fresh : MemoryManager := the new_manager blank.

Definition mapped : MemoryManager := run (MapBufferEx 0x100000 0x2000) fresh.

Definition reserved : MemoryManager := run (AllocateSpace 0x3000 1) fresh.

(** The areas of these managers that the examples name. *)
Definition free_area : VirtualMemoryArea :=
  mkVMA 0 0x10000000000 VMAType.Unmapped 0 0 0.

Definition mapped_area : VirtualMemoryArea :=
  mkVMA 0 0x2000 VMAType.Mapped 0 0x7f0000100000 0x100000.

Definition reserved_area : VirtualMemoryArea :=
  mkVMA 0 0x3000 VMAType.Allocated 0 0 0.

(** ** The calls a block transfer makes *)

(** The bytes a call out covers when it is a flush. *)
Definition flushed (c : Callout) : option Z :=
  match c with FlushRegion _ n => Some n | _ => None end.

(** The bytes a call out covers when it is an invalidation. *)
Definition invalidated (c : Callout) : option Z :=
  match c with InvalidateRegion _ n => Some n | _ => None end.

(** The calls of [l] are all of the kind [f] tells, and cover [n] bytes in
    all. *)
Fixpoint covers (f : Callout -> option Z) (l : list Callout) (n : Z) : Prop :=
  match l with
  | [] => n = 0
  | c :: l' => exists k, f c = Some k /\ 0 < k /\ covers f l' (n - k)
  end.

(** The pieces into which a block loop cuts [remaining_size] bytes that start
    at offset [page_offset] of page [page_index]: the page, the offset in it
    and the length of each piece, in the order of the loop. *)
Fixpoint chunks (fuel : nat) (remaining_size page_index page_offset : Z)
  : list (Z * Z * Z) :=
  if 0 <? remaining_size then
    match fuel with
    | O => []
    | S fuel' =>
        let copy_amount := Z.min (page_size - page_offset) remaining_size in
        (page_index, page_offset, copy_amount)
        :: chunks fuel' (sub64 remaining_size copy_amount) (add64 page_index 1) 0
    end
  else [].

(** The pieces of the [size_] bytes at GPU address [addr]. *)
Definition block_chunks (addr size_ : Z) : list (Z * Z * Z) :=
  chunks (Z.to_nat size_) size_ (Z.shiftr addr page_bits) (Z.land addr page_mask).

(** The host address of a piece, the flush that [ReadBlock] calls for it, and
    its bytes in the host memory [h]. *)
Definition chunk_pointer (pt : PageTable) (ch : Z * Z * Z) : HostPtr :=
  pointers pt (fst (fst ch)) + snd (fst ch).

Definition chunk_flush (pt : PageTable) (ch : Z * Z * Z) : Callout :=
  FlushRegion (ToCacheAddr (chunk_pointer pt ch)) (snd ch).

Definition chunk_bytes (h : Z -> Z) (pt : PageTable) (ch : Z * Z * Z) : list Z :=
  read_bytes h (chunk_pointer pt ch) (snd ch).

(** ** The rest of the block interface *)

(** *** The unchecked block transfers and the continuity test *)

(** The loop of [WriteBlockUnsafe]: a page without a pointer is skipped, and
    [src_buffer] is read only for the pages that have one. *)
Fixpoint WriteBlockUnsafe_loop (fuel : nat) (remaining_size page_index page_offset : Z)
    (src : list Z) : M unit :=
  if 0 <? remaining_size then
    match fuel with
    | O => lift OutOfFuel
    | S fuel' =>
        let copy_amount := Z.min (page_size - page_offset) remaining_size in
        pt <- gets page_table ;;
        page_pointer <- at_page (pointers pt) page_index ;;
        (if negb (page_pointer =? nullptr) then
           if Z.of_nat (length src) <? copy_amount then lift Undefined
           else memcpy_to page_pointer page_offset (firstn (Z.to_nat copy_amount) src)
         else ret tt) ;;;
        WriteBlockUnsafe_loop fuel' (sub64 remaining_size copy_amount)
          (add64 page_index 1) 0 (skipn (Z.to_nat copy_amount) src)
    end
  else ret tt.

(** [MemoryManager::WriteBlockUnsafe]. *)
Definition WriteBlockUnsafe (dest_addr : Z) (src_buffer : list Z) (size_ : Z) : M unit :=
  WriteBlockUnsafe_loop (Z.to_nat size_) size_
    (Z.shiftr dest_addr page_bits) (Z.land dest_addr page_mask) src_buffer.

(** [MemoryManager::CopyBlockUnsafe]; [tmp_buffer] holds the [size] bytes that
    [ReadBlockUnsafe] delivers. *)
Definition CopyBlockUnsafe (dest_addr src_addr size_ : Z) : M unit :=
  tmp_buffer <- ReadBlockUnsafe src_addr size_ ;;
  WriteBlockUnsafe dest_addr tmp_buffer size_.

(** [MemoryManager::IsBlockContinuous]; the host pointers are compared as
    64-bit integers. *)
Definition IsBlockContinuous (s : MemoryManager) (start size_ : Z) : bool :=
  let inner_size := sub64 size_ 1 in
  let end_ := add64 start inner_size in
  let host_ptr_start := GetPointer s start in
  let host_ptr_end := GetPointer s end_ in
  let range := wrap64 (host_ptr_end - host_ptr_start) in
  range =? inner_size.

(** *** Copies inside the GPU address space *)








(** * Properties *)

(** ** Arithmetic of the constants *)

Lemma page_size_eq : page_size = 4096.
Proof. reflexivity. Qed.

Lemma page_mask_eq : page_mask = Z.ones 12.
Proof. reflexivity. Qed.

Lemma address_space_end_eq : address_space_end = 1099511627776.
Proof. reflexivity. Qed.

Lemma pointers_size_eq : pointers_size = 268435456.
Proof. reflexivity. Qed.

Lemma land_page_mask (x : Z) : Z.land x page_mask = x mod 4096.
Proof. rewrite page_mask_eq, Z.land_ones by lia. reflexivity. Qed.

Lemma shiftr_page_bits (x : Z) : Z.shiftr x page_bits = x / 4096.
Proof. unfold page_bits. rewrite Z.shiftr_div_pow2 by lia. reflexivity. Qed.

Lemma wrap64_small (x : Z) : 0 <= x < 2 ^ 64 -> wrap64 x = x.
Proof. intros H. unfold wrap64. apply Z.mod_small. exact H. Qed.

Lemma add64_small (a b : Z) : 0 <= a + b < 2 ^ 64 -> add64 a b = a + b.
Proof. apply wrap64_small. Qed.

Lemma sub64_small (a b : Z) : 0 <= a - b < 2 ^ 64 -> sub64 a b = a - b.
Proof. apply wrap64_small. Qed.

Lemma aligned_test (x : Z) : x mod 4096 = 0 -> (Z.land x page_mask =? 0) = true.
Proof. intros H. rewrite land_page_mask, H. reflexivity. Qed.


(** ** Running the monad *)

Lemma bind_Ok {A B : Type} (c : M A) (k : A -> M B) s a s' :
  c s = Ok (a, s') -> bind c k s = k a s'.
Proof. intros H. unfold bind. rewrite H. reflexivity. Qed.

Lemma assert_true (b : bool) s : b = true -> assert b s = Ok (tt, s).
Proof. intros ->. reflexivity. Qed.

(** ** The projector *)

Lemma MapPages_Ok base size memory type backing s :
  add64 base size <= pointers_size ->
  MapPages base size memory type backing s
  = Ok (tt, with_page_table s (MapPages_table base size memory type backing (page_table s))).
Proof.
  intros H. unfold MapPages, MapPages_table.
  rewrite (bind_Ok _ _ s tt s) by (apply assert_true; lia).
  unfold bind, modify. cbn.
  destruct (memory =? nullptr); reflexivity.
Qed.

Lemma MapPages_loop_attributes n b mem back pt p :
  attributes (MapPages_loop n b mem back pt) p = attributes pt p.
Proof.
  revert b mem back pt. induction n as [|n IH]; intros; cbn; [reflexivity|].
  rewrite IH. reflexivity.
Qed.

Lemma MapPages_table_attributes b n mem ty back pt p :
  attributes (MapPages_table b n mem ty back pt) p
  = if (b <=? p) && (p <? add64 b n) then ty else attributes pt p.
Proof.
  unfold MapPages_table. destruct (mem =? nullptr); cbn.
  - reflexivity.
  - rewrite MapPages_loop_attributes. reflexivity.
Qed.

Lemma MapPages_table_null_pointers b n ty back pt p :
  pointers (MapPages_table b n nullptr ty back pt) p
  = if (b <=? p) && (p <? add64 b n) then nullptr else pointers pt p.
Proof. reflexivity. Qed.

Lemma MapPages_table_null_backing b n ty back pt p :
  backing_addr (MapPages_table b n nullptr ty back pt) p
  = if (b <=? p) && (p <? add64 b n) then back else backing_addr pt p.
Proof. reflexivity. Qed.

Lemma region_pages b n :
  region_ok b n ->
  add64 (b / page_size) (n / page_size) = (b + n) / 4096
  /\ (b + n) / 4096 <= pointers_size
  /\ b / page_size = b / 4096.
Proof.
  intros (Hb & Hn & Hbm & Hnm & He). rewrite page_size_eq, pointers_size_eq.
  rewrite address_space_end_eq in He.
  assert (b = 4096 * (b / 4096)) by (rewrite (Z.div_mod b 4096) at 1 by lia; lia).
  assert (n = 4096 * (n / 4096)) by (rewrite (Z.div_mod n 4096) at 1 by lia; lia).
  assert (E : (b + n) / 4096 = b / 4096 + n / 4096).
  { replace (b + n) with ((b / 4096 + n / 4096) * 4096) by lia.
    rewrite Z.div_mul by lia. reflexivity. }
  rewrite E. split; [|split; [|reflexivity]].
  - apply add64_small. assert (2 ^ 64 = 18446744073709551616) by reflexivity. lia.
  - lia.
Qed.

Lemma MapMemoryRegion_Ok b n target backing s :
  region_ok b n ->
  MapMemoryRegion b n target backing s
  = Ok (tt, with_page_table s
              (MapPages_table (b / page_size) (n / page_size) target PageType.Memory
                 backing (page_table s))).
Proof.
  intros H. pose proof (region_pages b n H) as (E & Hle & _).
  destruct H as (Hb & Hn & Hbm & Hnm & He).
  unfold MapMemoryRegion.
  rewrite (bind_Ok _ _ s tt s) by (apply assert_true, aligned_test; assumption).
  rewrite (bind_Ok _ _ s tt s) by (apply assert_true, aligned_test; assumption).
  apply MapPages_Ok. lia.
Qed.

Lemma UnmapRegion_Ok b n s :
  region_ok b n ->
  UnmapRegion b n s
  = Ok (tt, with_page_table s
              (MapPages_table (b / page_size) (n / page_size) nullptr PageType.Unmapped
                 0 (page_table s))).
Proof.
  intros H. pose proof (region_pages b n H) as (E & Hle & _).
  destruct H as (Hb & Hn & Hbm & Hnm & He).
  unfold UnmapRegion.
  rewrite (bind_Ok _ _ s tt s) by (apply assert_true, aligned_test; assumption).
  rewrite (bind_Ok _ _ s tt s) by (apply assert_true, aligned_test; assumption).
  apply MapPages_Ok. lia.
Qed.

(** Whether page [p] is one of the pages of the region. *)
Lemma in_region_pages b n p :
  region_ok b n ->
  ((b / page_size <=? p) && (p <? add64 (b / page_size) (n / page_size))) = true
  <-> b <= p * 4096 < b + n.
Proof.
  intros H. pose proof (region_pages b n H) as (E & Hle & Eb).
  destruct H as (Hb & Hn & Hbm & Hnm & He).
  rewrite E, Eb, andb_true_iff, Z.leb_le, Z.ltb_lt.
  assert (b = 4096 * (b / 4096)) by (rewrite (Z.div_mod b 4096) at 1 by lia; lia).
  assert (b + n = 4096 * ((b + n) / 4096)).
  { rewrite (Z.div_mod (b + n) 4096) at 1 by lia.
    rewrite <- Zplus_mod_idemp_l, Hbm, Z.add_0_l, Hnm. lia. }
  lia.
Qed.


(** ** Block transfers *)


Lemma zrange_length a n : length (zrange a n) = Z.to_nat n.
Proof. unfold zrange. rewrite length_map, length_seq. reflexivity. Qed.

Lemma zrange_nil a n : n <= 0 -> zrange a n = [].
Proof. intros H. unfold zrange. replace (Z.to_nat n) with O by lia. reflexivity. Qed.

Lemma map_seq_from {A : Type} (f : nat -> A) (k m : nat) :
  map f (seq k m) = map (fun i => f (k + i)%nat) (seq 0 m).
Proof.
  rewrite <- (Nat.add_0_r k) at 1. generalize 0%nat as j.
  induction m as [|m IH]; intros j; [reflexivity|].
  cbn [seq map]. f_equal. rewrite <- IH. f_equal. f_equal. lia.
Qed.

Lemma zrange_split a n k :
  0 <= k <= n -> zrange a n = zrange a k ++ zrange (a + k) (n - k).
Proof.
  intros H. unfold zrange.
  replace (Z.to_nat n) with (Z.to_nat k + Z.to_nat (n - k))%nat by lia.
  rewrite seq_app, map_app. f_equal.
  rewrite Nat.add_0_l, map_seq_from. apply map_ext. intros i. lia.
Qed.

Lemma nth_zrange a n i d :
  (i < Z.to_nat n)%nat -> nth i (zrange a n) d = a + Z.of_nat i.
Proof.
  intros H. unfold zrange.
  rewrite (nth_indep _ d (a + Z.of_nat 0)) by (rewrite length_map, length_seq; exact H).
  rewrite (map_nth (fun i => a + Z.of_nat i)), seq_nth by exact H. reflexivity.
Qed.

Lemma in_zrange a n x : In x (zrange a n) -> a <= x < a + n.
Proof.
  unfold zrange. rewrite in_map_iff. intros (i & <- & Hi). apply in_seq in Hi. lia.
Qed.

Lemma read_bytes_zrange h p n : read_bytes h p n = map h (zrange p n).
Proof. unfold read_bytes, zrange. rewrite map_map. reflexivity. Qed.

Lemma repeat_zrange a n : repeat 0 (Z.to_nat n) = map (fun _ => 0) (zrange a n).
Proof. unfold zrange. rewrite map_map, map_const, length_seq. reflexivity. Qed.

(** Page number and offset of an address inside the page [page_index]. *)
Lemma page_of_addr page_index x :
  0 <= x < 4096 ->
  Z.shiftr (page_index * 4096 + x) page_bits = page_index
  /\ Z.land (page_index * 4096 + x) page_mask = x.
Proof.
  intros H. rewrite shiftr_page_bits, land_page_mask. split.
  - rewrite Z.add_comm, Z.div_add by lia. rewrite Z.div_small by lia. lia.
  - rewrite Z.add_comm, Z.mod_add by lia. apply Z.mod_small. lia.
Qed.

Lemma at_page_Ok {A : Type} (v : Z -> A) i s :
  0 <= i < pointers_size -> at_page v i s = Ok (v i, s).
Proof.
  intros H. unfold at_page.
  replace ((0 <=? i) && (i <? pointers_size)) with true; [reflexivity|].
  symmetry. apply andb_true_iff. split; [apply Z.leb_le | apply Z.ltb_lt]; lia.
Qed.

(** One round of a block loop stays inside the address space. *)
Lemma block_round rem page_index page_offset :
  0 <= page_index -> 0 <= page_offset < 4096 -> 0 < rem ->
  page_index * 4096 + page_offset + rem <= address_space_end ->
  let copy_amount := Z.min (page_size - page_offset) rem in
  0 < copy_amount <= rem
  /\ copy_amount <= 4096 - page_offset
  /\ 0 <= page_index < pointers_size
  /\ sub64 rem copy_amount = rem - copy_amount
  /\ add64 page_index 1 = page_index + 1
  /\ ((page_index + 1) * 4096 + 0 + (rem - copy_amount) <= address_space_end)
  /\ (0 < rem - copy_amount ->
      page_index * 4096 + page_offset + copy_amount = (page_index + 1) * 4096 + 0).
Proof.
  intros Hpi Hpo Hrem Hend. rewrite page_size_eq, pointers_size_eq.
  rewrite address_space_end_eq in *. cbv zeta.
  assert (2 ^ 64 = 18446744073709551616) by reflexivity.
  repeat split; try lia.
  - rewrite sub64_small; lia.
  - rewrite add64_small; lia.
Qed.

Lemma ReadBlockUnsafe_loop_spec s fuel :
  forall rem page_index page_offset dest,
    0 <= page_index -> 0 <= page_offset < 4096 -> 0 <= rem ->
    page_index * 4096 + page_offset + rem <= address_space_end ->
    (Z.to_nat rem <= fuel)%nat ->
    ReadBlockUnsafe_loop fuel rem page_index page_offset dest s
    = Ok (dest ++ map (unsafe_byte s) (zrange (page_index * 4096 + page_offset) rem), s).
Proof.
  induction fuel as [|fuel IH]; intros rem page_index page_offset dest Hpi Hpo Hrem Hend Hfuel.
  - assert (rem = 0) by lia. subst rem. rewrite zrange_nil, app_nil_r by lia. reflexivity.
  - cbn [ReadBlockUnsafe_loop]. destruct (0 <? rem) eqn:Hpos.
    2:{ apply Z.ltb_ge in Hpos. rewrite zrange_nil, app_nil_r by lia. reflexivity. }
    apply Z.ltb_lt in Hpos.
    pose proof (block_round rem page_index page_offset Hpi Hpo Hpos Hend)
      as (Hc & Hc' & Hpage & Esub & Eadd & Hend' & Enext).
    set (copy_amount := Z.min (page_size - page_offset) rem) in *.
    unfold bind at 1. unfold gets at 1.
    unfold bind at 1. rewrite at_page_Ok by exact Hpage.
    set (page_pointer := pointers (page_table s) page_index).
    assert (Ebytes :
      (if negb (page_pointer =? nullptr)
       then memcpy_from page_pointer page_offset copy_amount
       else ret (repeat 0 (Z.to_nat copy_amount))) s
      = Ok (map (unsafe_byte s) (zrange (page_index * 4096 + page_offset) copy_amount), s)).
    { assert (Eb : forall x, In x (zrange (page_index * 4096 + page_offset) copy_amount) ->
                unsafe_byte s x
                = if page_pointer =? nullptr then 0
                  else host_memory s (page_pointer + page_offset
                                      + (x - (page_index * 4096 + page_offset)))).
      { intros x Hx. apply in_zrange in Hx. unfold unsafe_byte.
        destruct (page_of_addr page_index (x - page_index * 4096)) as (E1 & E2); [lia|].
        replace (page_index * 4096 + (x - page_index * 4096)) with x in E1, E2 by lia.
        cbv zeta. rewrite E1, E2. fold page_pointer. destruct (page_pointer =? nullptr); [reflexivity|].
        f_equal. lia. }
      destruct (page_pointer =? nullptr) eqn:Hnull; cbn [negb].
      - unfold ret. rewrite (repeat_zrange (page_index * 4096 + page_offset)).
        do 2 f_equal. apply map_ext_in. intros x Hx. rewrite (Eb x Hx). reflexivity.
      - unfold memcpy_from. rewrite Hnull. unfold bind, gets, ret.
        rewrite read_bytes_zrange. do 2 f_equal.
        unfold zrange. rewrite !map_map. apply map_ext_in. intros i Hi.
        rewrite Eb.
        + f_equal. lia.
        + unfold zrange. apply in_map_iff. exists i. split; [reflexivity | exact Hi]. }
    unfold bind at 1. rewrite Ebytes.
    rewrite Esub, Eadd.
    rewrite IH by lia.
    rewrite <- app_assoc. do 3 f_equal.
    rewrite (zrange_split _ rem copy_amount), map_app by lia. do 2 f_equal.
    destruct (Z.eq_dec (rem - copy_amount) 0) as [E0|E0].
    + rewrite E0, !zrange_nil by lia. reflexivity.
    + rewrite Enext by lia. reflexivity.
Qed.


Lemma write_bytes_app h p l1 l2 x :
  write_bytes (write_bytes h p l1) (p + Z.of_nat (length l1)) l2 x
  = write_bytes h p (l1 ++ l2) x.
Proof.
  unfold write_bytes. rewrite length_app, Nat2Z.inj_add.
  destruct ((p + Z.of_nat (length l1) <=? x)
            && (x <? p + Z.of_nat (length l1) + Z.of_nat (length l2))) eqn:E2.
  - apply andb_true_iff in E2. destruct E2 as [E2 E3].
    apply Z.leb_le in E2. apply Z.ltb_lt in E3.
    replace ((p <=? x) && (x <? p + (Z.of_nat (length l1) + Z.of_nat (length l2))))
      with true by (symmetry; apply andb_true_iff; split;
                    [apply Z.leb_le | apply Z.ltb_lt]; lia).
    rewrite app_nth2 by lia. f_equal. lia.
  - apply andb_false_iff in E2.
    destruct ((p <=? x) && (x <? p + Z.of_nat (length l1))) eqn:E1.
    + apply andb_true_iff in E1. destruct E1 as [E1 E3].
      apply Z.leb_le in E1. apply Z.ltb_lt in E3.
      replace ((p <=? x) && (x <? p + (Z.of_nat (length l1) + Z.of_nat (length l2))))
        with true by (symmetry; apply andb_true_iff; split;
                      [apply Z.leb_le | apply Z.ltb_lt]; lia).
      rewrite app_nth1 by lia. reflexivity.
    + apply andb_false_iff in E1.
      replace ((p <=? x) && (x <? p + (Z.of_nat (length l1) + Z.of_nat (length l2))))
        with false; [reflexivity|].
      symmetry. apply andb_false_iff.
      rewrite Z.leb_gt, Z.ltb_ge in *. lia.
Qed.


Lemma write_bytes_nil h p x : write_bytes h p [] x = h x.
Proof.
  unfold write_bytes. cbn [length Z.of_nat].
  destruct ((p <=? x) && (x <? p + 0)) eqn:E; [|reflexivity].
  apply andb_true_iff in E. rewrite Z.leb_le, Z.ltb_lt in E. lia.
Qed.

Lemma write_bytes_read h p l i :
  0 <= i < Z.of_nat (length l) ->
  write_bytes h p l (p + i) = nth (Z.to_nat i) l 0.
Proof.
  intros H. unfold write_bytes.
  replace ((p <=? p + i) && (p + i <? p + Z.of_nat (length l))) with true.
  - f_equal. lia.
  - symmetry. apply andb_true_iff. split; [apply Z.leb_le | apply Z.ltb_lt]; lia.
Qed.

(** *** What the rasterizer does to host memory *)

Lemma in_region_true a n p : a <= p < a + n -> in_region a n p = true.
Proof.
  intros H. unfold in_region. apply andb_true_iff.
  split; [apply Z.leb_le | apply Z.ltb_lt]; lia.
Qed.



Lemma flush_region_in h cache a n p :
  in_region a n p = true -> flush_region h cache a n p = retired h cache p.
Proof. intros H. unfold flush_region, retired. rewrite H. reflexivity. Qed.




Lemma retired_flush h cache a n p :
  retired (flush_region h cache a n) cache p = retired h cache p.
Proof.
  unfold retired, flush_region. destruct (cache p), (in_region a n p); reflexivity.
Qed.



Lemma Rasterizer_FlushRegion_Ok a n s :
  Rasterizer_FlushRegion a n s
  = Ok (tt, with_host_memory (with_callout s (FlushRegion a n))
              (flush_region (host_memory s) (rasterizer_cache s) a n)).
Proof. reflexivity. Qed.

Lemma Rasterizer_InvalidateRegion_Ok a n s :
  Rasterizer_InvalidateRegion a n s
  = Ok (tt, with_rasterizer_cache (with_callout s (InvalidateRegion a n))
              (invalidate_region (rasterizer_cache s) a n)).
Proof. reflexivity. Qed.

Lemma GPU_FlushAndInvalidateRegion_Ok a n s :
  GPU_FlushAndInvalidateRegion a n s
  = Ok (tt, with_rasterizer_cache
              (with_host_memory (with_callout s (FlushAndInvalidateRegion a n))
                 (flush_region (host_memory s) (rasterizer_cache s) a n))
              (invalidate_region (rasterizer_cache s) a n)).
Proof. reflexivity. Qed.

(** The page a block loop is about to touch belongs to the mapped range. *)
Lemma touched_page base_ size_ page_index page_offset rem :
  base_ mod 4096 = 0 ->
  0 <= page_offset < 4096 -> 0 < rem ->
  base_ <= page_index * 4096 + page_offset ->
  page_index * 4096 + page_offset + rem <= base_ + size_ ->
  base_ <= page_index * 4096 < base_ + size_.
Proof.
  intros Hal Hpo Hrem Hlo Hhi. split; [|lia].
  assert (base_ = 4096 * (base_ / 4096)) by (rewrite (Z.div_mod base_ 4096) at 1 by lia; lia).
  lia.
Qed.



(** ** Invariants of the map *)

Lemma chain_app lo l1 l2 hi :
  chain lo (l1 ++ l2) hi <-> exists mid, chain lo l1 mid /\ chain mid l2 hi.
Proof.
  revert lo. induction l1 as [|v l1 IH]; intros lo; cbn [app chain].
  - split.
    + intros H. exists lo. split; [reflexivity | exact H].
    + intros (mid & -> & H). exact H.
  - rewrite IH. split.
    + intros (Hb & Hs & Ha & mid & H1 & H2). exists mid. repeat split; assumption.
    + intros (mid & (Hb & Hs & Ha & H1) & H2). repeat split; try assumption.
      exists mid. split; assumption.
Qed.

Lemma chain_le lo m hi : chain lo m hi -> lo <= hi.
Proof.
  revert lo. induction m as [|v m IH]; intros lo; cbn [chain].
  - lia.
  - intros (_ & Hs & _ & H). apply IH in H. lia.
Qed.

Lemma chain_aligned lo m hi : chain lo m hi -> lo mod 4096 = 0 -> hi mod 4096 = 0.
Proof.
  revert lo. induction m as [|v m IH]; intros lo; cbn [chain].
  - intros -> H. exact H.
  - intros (_ & _ & Ha & H) Hlo. apply (IH _ H).
    rewrite <- Zplus_mod_idemp_l, Hlo, Z.add_0_l. exact Ha.
Qed.

Lemma chain_keys_ge lo m hi : chain lo m hi -> keys_ge lo m.
Proof.
  revert lo. induction m as [|v m IH]; intros lo; cbn [chain]; intros H.
  - constructor.
  - destruct H as (Hb & Hs & _ & H). constructor; [lia|].
    apply IH in H. unfold keys_ge in *. rewrite Forall_forall in *.
    intros u Hu. specialize (H u Hu). cbn beta in H. lia.
Qed.

Lemma chain_keys_lt lo m hi : chain lo m hi -> keys_lt hi m.
Proof.
  revert lo. induction m as [|v m IH]; intros lo; cbn [chain]; intros H.
  - constructor.
  - destruct H as (Hb & Hs & _ & H). constructor.
    + apply chain_le in H. lia.
    + exact (IH _ H).
Qed.

Lemma chain_In lo m hi v :
  chain lo m hi -> In v m ->
  lo <= base v /\ 0 < size v /\ size v mod 4096 = 0 /\ base v + size v <= hi.
Proof.
  revert lo. induction m as [|u m IH]; intros lo; cbn [chain In]; [tauto|].
  intros (Hb & Hs & Ha & H) [->|Hin].
  - apply chain_le in H. lia.
  - destruct (IH _ H Hin) as (? & ? & ? & ?). lia.
Qed.

(** What a decomposition of a chain says about the keys on either side. *)
Lemma chain_split lo l1 v l2 hi :
  chain lo (l1 ++ v :: l2) hi ->
  chain lo l1 (base v) /\ 0 < size v /\ size v mod 4096 = 0
  /\ chain (base v + size v) l2 hi
  /\ keys_lt (base v) l1 /\ keys_gt (base v) l2 /\ keys_ge (base v + size v) l2.
Proof.
  intros H. apply chain_app in H. destruct H as (mid & H1 & H2).
  cbn [chain] in H2. destruct H2 as (Hb & Hs & Ha & H2). subst mid.
  repeat split; try assumption.
  - eapply chain_keys_lt, H1.
  - apply chain_keys_ge in H2. unfold keys_gt, keys_ge in *.
    rewrite Forall_forall in *. intros u Hu. specialize (H2 u Hu). cbn beta in H2. lia.
  - eapply chain_keys_ge, H2.
Qed.

Lemma chain_join lo l1 v l2 hi :
  chain lo l1 (base v) -> 0 < size v -> size v mod 4096 = 0 ->
  chain (base v + size v) l2 hi ->
  chain lo (l1 ++ v :: l2) hi.
Proof.
  intros H1 Hs Ha H2. apply chain_app. exists (base v). split; [exact H1|].
  cbn [chain]. repeat split; assumption.
Qed.

(** *** The primitives of the map on a decomposed list *)

Lemma map_find_at l1 v l2 :
  keys_lt (base v) l1 -> map_find (l1 ++ v :: l2) (base v) = Some v.
Proof.
  induction l1 as [|u l1 IH]; intros H; cbn [app map_find].
  - rewrite Z.eqb_refl. reflexivity.
  - inversion H as [|? ? Hu H']; subst.
    replace (base u =? base v) with false by (symmetry; apply Z.eqb_neq; lia).
    apply IH, H'.
Qed.

Lemma map_update_at l1 v l2 f :
  keys_lt (base v) l1 -> map_update (l1 ++ v :: l2) (base v) f = l1 ++ f v :: l2.
Proof.
  induction l1 as [|u l1 IH]; intros H; cbn [app map_update].
  - rewrite Z.eqb_refl. reflexivity.
  - inversion H as [|? ? Hu H']; subst.
    replace (base u =? base v) with false by (symmetry; apply Z.eqb_neq; lia).
    rewrite (IH H'). reflexivity.
Qed.

Lemma map_erase_at l1 v l2 :
  keys_lt (base v) l1 -> map_erase (l1 ++ v :: l2) (base v) = l1 ++ l2.
Proof.
  induction l1 as [|u l1 IH]; intros H; cbn [app map_erase].
  - rewrite Z.eqb_refl. reflexivity.
  - inversion H as [|? ? Hu H']; subst.
    replace (base u =? base v) with false by (symmetry; apply Z.eqb_neq; lia).
    rewrite (IH H'). reflexivity.
Qed.

Lemma map_emplace_at l1 w l2 :
  keys_lt (base w) l1 -> keys_gt (base w) l2 ->
  map_emplace (l1 ++ l2) w = l1 ++ w :: l2.
Proof.
  intros H1 H2. induction l1 as [|u l1 IH]; cbn [app].
  - destruct l2 as [|n l2]; cbn [map_emplace]; [reflexivity|].
    inversion H2; subst.
    replace (base w <? base n) with true by (symmetry; apply Z.ltb_lt; lia).
    reflexivity.
  - inversion H1 as [|? ? Hu H1']; subst. cbn [map_emplace].
    replace (base w <? base u) with false by (symmetry; apply Z.ltb_ge; lia).
    replace (base w =? base u) with false by (symmetry; apply Z.eqb_neq; lia).
    rewrite (IH H1'). reflexivity.
Qed.

Lemma upper_bound_at l1 l2 t :
  keys_le t l1 -> keys_gt t l2 -> upper_bound (l1 ++ l2) t = map_begin l2.
Proof.
  intros H1 H2. induction l1 as [|u l1 IH]; cbn [app].
  - destruct l2 as [|n l2]; cbn [upper_bound map_begin]; [reflexivity|].
    inversion H2; subst.
    replace (t <? base n) with true by (symmetry; apply Z.ltb_lt; lia). reflexivity.
  - inversion H1 as [|? ? Hu H1']; subst. cbn [upper_bound].
    replace (t <? base u) with false by (symmetry; apply Z.ltb_ge; lia).
    apply IH, H1'.
Qed.

Lemma lower_bound_at l1 l2 t :
  keys_lt t l1 -> keys_ge t l2 -> lower_bound (l1 ++ l2) t = map_begin l2.
Proof.
  intros H1 H2. induction l1 as [|u l1 IH]; cbn [app].
  - destruct l2 as [|n l2]; cbn [lower_bound map_begin]; [reflexivity|].
    inversion H2; subst.
    replace (t <=? base n) with true by (symmetry; apply Z.leb_le; lia). reflexivity.
  - inversion H1 as [|? ? Hu H1']; subst. cbn [lower_bound].
    replace (t <=? base u) with false by (symmetry; apply Z.leb_gt; lia).
    apply IH, H1'.
Qed.

Lemma key_below_at l1 p l2 k acc :
  keys_lt k (l1 ++ [p]) -> keys_ge k l2 ->
  key_below ((l1 ++ [p]) ++ l2) k acc = Some (base p).
Proof.
  intros H1 H2. revert acc. induction l1 as [|u l1 IH]; intros acc; cbn [app].
  - inversion H1; subst. cbn [key_below].
    replace (base p <? k) with true by (symmetry; apply Z.ltb_lt; lia).
    destruct l2 as [|n l2]; cbn [key_below]; [reflexivity|].
    inversion H2; subst.
    replace (base n <? k) with false by (symmetry; apply Z.ltb_ge; lia). reflexivity.
  - inversion H1 as [|? ? Hu H1']; subst. cbn [key_below].
    replace (base u <? k) with true by (symmetry; apply Z.ltb_lt; lia).
    apply IH, H1'.
Qed.

Lemma key_below_first v l2 acc :
  keys_ge (base v) l2 -> key_below (v :: l2) (base v) acc = acc.
Proof.
  intros _. cbn [key_below]. rewrite Z.ltb_irrefl. reflexivity.
Qed.

Lemma keys_lt_snoc k l p : keys_lt k l -> base p < k -> keys_lt k (l ++ [p]).
Proof. intros H Hp. apply Forall_app. split; [exact H | constructor; [exact Hp | constructor]]. Qed.

Lemma keys_weaken_lt_le k l : keys_lt k l -> keys_le k l.
Proof. apply Forall_impl. intros u. lia. Qed.

Lemma keys_lt_trans k k' l : keys_lt k l -> k <= k' -> keys_lt k' l.
Proof. intros H Hk. revert H. apply Forall_impl. intros u. lia. Qed.

Lemma keys_ge_trans k k' l : keys_ge k l -> k' <= k -> keys_ge k' l.
Proof. intros H Hk. revert H. apply Forall_impl. intros u. lia. Qed.

Lemma keys_ge_gt k k' l : keys_ge k l -> k' < k -> keys_gt k' l.
Proof. intros H Hk. revert H. apply Forall_impl. intros u. lia. Qed.

Lemma snoc_cases {A : Type} (l : list A) : l = [] \/ exists l0 p, l = l0 ++ [p].
Proof.
  destruct l as [|a l]; [left; reflexivity|]. right.
  destruct (@exists_last _ (a :: l)) as (l0 & p & E); [discriminate|].
  exists l0, p. exact E.
Qed.

Lemma iter_next_at lo l1 v l2 hi :
  chain lo (l1 ++ v :: l2) hi ->
  iter_next (l1 ++ v :: l2) (It (base v)) = Ok (map_begin l2).
Proof.
  intros H. apply chain_split in H. destruct H as (_ & _ & _ & _ & Hlt & Hgt & _).
  cbn [iter_next]. f_equal.
  replace (l1 ++ v :: l2) with ((l1 ++ [v]) ++ l2) by (rewrite <- app_assoc; reflexivity).
  apply upper_bound_at; [|exact Hgt].
  apply Forall_app. split; [apply keys_weaken_lt_le, Hlt|].
  constructor; [lia | constructor].
Qed.

Lemma iter_prev_at lo l0 p v l2 hi :
  chain lo ((l0 ++ [p]) ++ v :: l2) hi ->
  iter_prev ((l0 ++ [p]) ++ v :: l2) (It (base v)) = Ok (It (base p)).
Proof.
  intros H. apply chain_split in H. destruct H as (_ & Hs & _ & _ & Hlt & Hgt & _).
  cbn [iter_prev]. rewrite key_below_at; [reflexivity | exact Hlt |].
  constructor; [lia|]. revert Hgt. apply Forall_impl. intros u. lia.
Qed.

Lemma iter_prev_end l1 v : iter_prev (l1 ++ [v]) ItEnd = Ok (It (base v)).
Proof.
  cbn [iter_prev]. rewrite last_last.
  destruct (l1 ++ [v]) eqn:E; [|reflexivity].
  destruct l1; discriminate.
Qed.

Lemma at_begin lo l1 v l2 hi :
  chain lo (l1 ++ v :: l2) hi ->
  iter_eqb (It (base v)) (map_begin (l1 ++ v :: l2))
  = match l1 with [] => true | _ :: _ => false end.
Proof.
  intros H. apply chain_split in H. destruct H as (_ & _ & _ & _ & Hlt & _).
  destruct l1 as [|u l1]; cbn [app map_begin iter_eqb].
  - apply Z.eqb_refl.
  - inversion Hlt; subst. apply Z.eqb_neq. lia.
Qed.

(** *** The monad on a decomposed map *)

Lemma bind_gets {A B : Type} (f : MemoryManager -> A) (k : A -> M B) s :
  bind (gets f) k s = k (f s) s.
Proof. reflexivity. Qed.

Lemma bind_modify {B : Type} (f : MemoryManager -> MemoryManager) (k : unit -> M B) s :
  bind (modify f) k s = k tt (f s).
Proof. reflexivity. Qed.

Lemma bind_ret {A B : Type} (a : A) (k : A -> M B) s : bind (ret a) k s = k a s.
Proof. reflexivity. Qed.

Lemma bind_lift_Ok {A B : Type} (a : A) (k : A -> M B) s : bind (lift (Ok a)) k s = k a s.
Proof. reflexivity. Qed.

Lemma bind_assert_true {B : Type} (b : bool) (k : unit -> M B) s :
  b = true -> bind (assert b) k s = k tt s.
Proof. intros ->. reflexivity. Qed.

Lemma bind_bind {A B C : Type} (c : M A) (k : A -> M B) (k' : B -> M C) s :
  bind (bind c k) k' s = bind c (fun a => bind (k a) k') s.
Proof. unfold bind. destruct (c s) as [[a s']| | |]; reflexivity. Qed.

Lemma area_at l1 v l2 s :
  vma_map s = l1 ++ v :: l2 -> keys_lt (base v) l1 ->
  area (It (base v)) s = Ok (v, s).
Proof.
  intros Hm H. unfold area. rewrite bind_gets, Hm. unfold lift, deref.
  rewrite map_find_at by exact H. reflexivity.
Qed.

Lemma assign_at l1 v l2 f s :
  vma_map s = l1 ++ v :: l2 -> keys_lt (base v) l1 ->
  assign (It (base v)) f s = Ok (tt, with_vma_map s (l1 ++ f v :: l2)).
Proof.
  intros Hm H. unfold assign, modify. rewrite Hm, map_update_at by exact H. reflexivity.
Qed.

Lemma erase_at l1 v l2 s :
  vma_map s = l1 ++ v :: l2 -> keys_lt (base v) l1 ->
  erase (It (base v)) s = Ok (tt, with_vma_map s (l1 ++ l2)).
Proof.
  intros Hm H. unfold erase, modify. rewrite Hm, map_erase_at by exact H. reflexivity.
Qed.

(** *** FindVMA *)

(** The area of a chain that contains an address. *)
Lemma chain_locate lo m hi t :
  chain lo m hi -> lo <= t < hi ->
  exists l1 v l2, m = l1 ++ v :: l2 /\ base v <= t < base v + size v.
Proof.
  revert lo. induction m as [|u m IH]; intros lo; cbn [chain].
  - intros -> H. lia.
  - intros (Hb & Hs & Ha & H) Ht.
    destruct (Z_lt_dec t (lo + size u)) as [Hin|Hout].
    + exists [], u, m. split; [reflexivity | lia].
    + destruct (IH _ H) as (l1 & v & l2 & -> & Hv); [lia|].
      exists (u :: l1), v, l2. split; [reflexivity | exact Hv].
Qed.

Lemma FindVMA_at lo l1 v l2 hi s t :
  vma_map s = l1 ++ v :: l2 -> chain lo (l1 ++ v :: l2) hi ->
  base v <= t < base v + size v -> t < address_space_end ->
  FindVMA t s = Ok (It (base v), s).
Proof.
  intros Hm Hc Ht Hend. unfold FindVMA. rewrite bind_gets, Hm.
  replace (address_space_end <=? t) with false by (symmetry; apply Z.leb_gt; lia).
  pose proof (chain_split _ _ _ _ _ Hc) as (_ & Hs & _ & _ & Hlt & Hgt & Hge).
  replace (l1 ++ v :: l2) with ((l1 ++ [v]) ++ l2) by (rewrite <- app_assoc; reflexivity).
  rewrite upper_bound_at.
  - destruct l2 as [|n l2]; cbn [map_begin].
    + rewrite app_nil_r, iter_prev_end. reflexivity.
    + unfold lift. rewrite (iter_prev_at lo l1 v n l2 hi); [reflexivity|].
      rewrite <- app_assoc. exact Hc.
  - apply Forall_app. split.
    + revert Hlt. apply Forall_impl. intros u. lia.
    + constructor; [lia | constructor].
  - revert Hge. apply Forall_impl. intros u. lia.
Qed.

Lemma FindVMA_end s t : address_space_end <= t -> FindVMA t s = Ok (ItEnd, s).
Proof.
  intros H. unfold FindVMA. rewrite bind_gets.
  replace (address_space_end <=? t) with true by (symmetry; apply Z.leb_le; lia).
  reflexivity.
Qed.

(** *** SplitVMA *)

Lemma pow64 : 2 ^ 64 = 18446744073709551616.
Proof. reflexivity. Qed.

Lemma CanBeMergedWith_adjacent a b :
  add64 (base a) (size a) = base b -> CanBeMergedWith a b = Ok (mergeable a b).
Proof.
  intros H. unfold CanBeMergedWith, mergeable. rewrite H, Z.eqb_refl. cbn [ASSERT rbind].
  destruct (type a), (type b); cbn [VMAType.eqb negb andb]; try reflexivity.
  - destruct (add64 (offset a) (size a) =? offset b); reflexivity.
  - destruct (backing_memory a + size a =? backing_memory b); reflexivity.
Qed.

Lemma split_right_fields v off :
  base (split_right v off) = base v + off
  /\ size (split_right v off) = size v - off
  /\ type (split_right v off) = type v.
Proof. unfold split_right. destruct (type v) eqn:E; cbn; rewrite ?E; auto. Qed.

Lemma SplitVMA_at lo l1 v l2 hi s off :
  vma_map s = l1 ++ v :: l2 -> chain lo (l1 ++ v :: l2) hi ->
  0 <= lo -> hi <= address_space_end ->
  0 < off < size v ->
  SplitVMA (It (base v)) off s
  = Ok (It (base v + off),
        with_vma_map s (l1 ++ set_size v off :: split_right v off :: l2)).
Proof.
  intros Hm Hc Hlo Hhi Hoff.
  pose proof (chain_split _ _ _ _ _ Hc) as (Hc1 & Hs & Ha & Hc2 & Hlt & Hgt & Hge).
  pose proof (chain_le _ _ _ Hc1). pose proof (chain_le _ _ _ Hc2).
  pose proof pow64 as P. rewrite address_space_end_eq in Hhi.
  unfold SplitVMA.
  rewrite (bind_Ok _ _ s v s) by (eapply area_at; eassumption).
  rewrite bind_assert_true by (apply Z.ltb_lt; lia).
  rewrite bind_assert_true by (apply Z.ltb_lt; lia).
  rewrite (bind_Ok _ _ s tt _ (assign_at l1 v l2 _ s Hm Hlt)).
  set (s1 := with_vma_map s (l1 ++ set_size v off :: l2)).
  assert (Hm1 : vma_map s1 = l1 ++ set_size v off :: l2) by reflexivity.
  rewrite (bind_Ok _ _ s1 (set_size v off) s1)
    by (apply (area_at l1 (set_size v off) l2 s1 Hm1 Hlt)).
  cbv zeta.
  match goal with
  | |- context [CanBeMergedWith _ ?n] => replace n with (split_right v off)
  end.
  2:{ unfold split_right. cbn [type size base offset backing_memory set_base set_size].
      rewrite (add64_small (base v) off), (sub64_small (size v) off) by lia.
      reflexivity. }
  destruct (split_right_fields v off) as (Eb & Es & Et).
  rewrite CanBeMergedWith_adjacent
    by (cbn [base size set_size]; rewrite Eb; apply add64_small; lia).
  assert (Emerge : mergeable (set_size v off) (split_right v off) = true).
  { unfold mergeable, split_right. 
    destruct (type v) eqn:E; cbn; rewrite ?E; cbn; rewrite ?Z.eqb_refl; reflexivity. }
  rewrite Emerge, bind_lift_Ok, bind_assert_true by reflexivity.
  rewrite bind_modify. unfold ret. rewrite Eb. do 2 f_equal.
  unfold with_vma_map at 1. cbn [vma_map s1 with_vma_map page_table host_memory callouts
                                 Memory_GetPointer SetMemoryAttribute_IsSuccess rasterizer_cache].
  unfold with_vma_map. f_equal.
  replace (l1 ++ set_size v off :: l2) with ((l1 ++ [set_size v off]) ++ l2)
    by (rewrite <- app_assoc; reflexivity).
  rewrite map_emplace_at.
  - rewrite <- app_assoc. reflexivity.
  - rewrite Eb. apply keys_lt_snoc.
    + eapply keys_lt_trans; [exact Hlt | lia].
    + cbn. lia.
  - rewrite Eb. eapply keys_ge_gt; [exact Hge | lia].
Qed.

(** *** MergeAdjacent *)

Lemma merge_next_chain v l2 hi :
  0 < size v -> size v mod 4096 = 0 -> chain (base v + size v) l2 hi ->
  let v' := fst (merge_next v l2) in
  base v' = base v /\ 0 < size v' /\ size v' mod 4096 = 0
  /\ chain (base v' + size v') (snd (merge_next v l2)) hi
  /\ type v' = type v /\ size v <= size v'.
Proof.
  intros Hs Ha Hc. unfold merge_next. destruct l2 as [|n l2]; cbn [fst snd].
  - split; [reflexivity | split; [exact Hs | split; [exact Ha | split; [exact Hc |]]]].
    split; [reflexivity | lia].
  - destruct (mergeable v n); cbn [fst snd].
    2:{ split; [reflexivity | split; [exact Hs | split; [exact Ha | split; [exact Hc |]]]].
        split; [reflexivity | lia]. }
    cbn [chain] in Hc. destruct Hc as (Hb & Hsn & Han & Hc).
    cbn [base size type set_size]. repeat split; try lia.
    + rewrite <- Zplus_mod_idemp_l, Ha, Z.add_0_l. exact Han.
    + replace (base v + (size v + size n)) with (base v + size v + size n) by lia.
      exact Hc.
Qed.

Lemma merge_next_step lo l1 v l2 hi pt h c b k rc (iter := It (base v)) :
  chain lo (l1 ++ v :: l2) hi -> 0 <= lo -> hi <= address_space_end ->
  (if negb (iter_eqb (map_begin l2) ItEnd) then
     v <- area iter ;;
     n <- area (map_begin l2) ;;
     mergeable <- lift (CanBeMergedWith v n) ;;
     if mergeable then
       assign iter (fun v => set_size v (add64 (size v) (size n))) ;;;
       erase (map_begin l2)
     else ret tt
   else ret tt) (St (l1 ++ v :: l2) pt h c b k rc)
  = Ok (tt, St (l1 ++ fst (merge_next v l2) :: snd (merge_next v l2)) pt h c b k rc).
Proof.
  intros Hc Hlo Hhi.
  pose proof (chain_split _ _ _ _ _ Hc) as (Hc1 & Hs & Ha & Hc2 & Hlt & Hgt & Hge).
  pose proof (chain_le _ _ _ Hc1). pose proof (chain_le _ _ _ Hc2).
  pose proof pow64 as P. rewrite address_space_end_eq in Hhi.
  destruct l2 as [|n l2]; cbn [map_begin iter_eqb negb merge_next fst snd]; [reflexivity|].
  cbn [chain] in Hc2. destruct Hc2 as (Hbn & Hsn & Han & Hc2).
  pose proof (chain_le _ _ _ Hc2).
  set (s := St (l1 ++ v :: n :: l2) pt h c b k rc).
  rewrite (bind_Ok _ _ s v s) by (apply (area_at l1 v (n :: l2)); [reflexivity | exact Hlt]).
  rewrite (bind_Ok _ _ s n s).
  2:{ apply (area_at (l1 ++ [v]) n l2).
      - unfold s. cbn [vma_map]. rewrite <- app_assoc. reflexivity.
      - apply keys_lt_snoc; [eapply keys_lt_trans; [exact Hlt | lia] | lia]. }
  rewrite CanBeMergedWith_adjacent by (rewrite Hbn; apply add64_small; lia).
  rewrite bind_lift_Ok.
  destruct (mergeable v n); cbn [fst snd]; [|reflexivity].
  rewrite (bind_Ok _ _ s tt _ (assign_at l1 v (n :: l2) _ s eq_refl Hlt)).
  rewrite add64_small by lia.
  set (v' := set_size v (size v + size n)).
  rewrite (erase_at (l1 ++ [v']) n l2).
  - unfold s. cbn [with_vma_map vma_map page_table host_memory callouts Memory_GetPointer
                   SetMemoryAttribute_IsSuccess].
    rewrite <- app_assoc. reflexivity.
  - cbn [vma_map with_vma_map]. rewrite <- app_assoc. reflexivity.
  - apply keys_lt_snoc; [eapply keys_lt_trans; [exact Hlt | lia] | cbn; lia].
Qed.

Lemma merge_prev_step lo l1 v l2 hi pt h c b k rc (iter := It (base v)) :
  chain lo (l1 ++ v :: l2) hi -> 0 <= lo -> hi <= address_space_end ->
  (m <- gets vma_map ;;
   if negb (iter_eqb iter (map_begin m)) then
     prev_vma <- lift (iter_prev m iter) ;;
     p <- area prev_vma ;;
     v <- area iter ;;
     mergeable <- lift (CanBeMergedWith p v) ;;
     if mergeable then
       assign prev_vma (fun p => set_size p (add64 (size p) (size v))) ;;;
       erase iter ;;;
       ret prev_vma
     else ret iter
   else ret iter) (St (l1 ++ v :: l2) pt h c b k rc)
  = Ok (It (base (snd (merge_prev l1 v))),
        St (fst (merge_prev l1 v) ++ snd (merge_prev l1 v) :: l2) pt h c b k rc).
Proof.
  intros Hc Hlo Hhi.
  pose proof (chain_split _ _ _ _ _ Hc) as (Hc1 & Hs & Ha & Hc2 & Hlt & Hgt & Hge).
  pose proof (chain_le _ _ _ Hc1). pose proof (chain_le _ _ _ Hc2).
  pose proof pow64 as P. rewrite address_space_end_eq in Hhi.
  rewrite bind_gets. cbn [vma_map]. unfold iter. rewrite (at_begin _ _ _ _ _ Hc).
  destruct (snoc_cases l1) as [-> | (l0 & p & ->)].
  - cbn [negb merge_prev rev fst snd app]. reflexivity.
  - replace (match l0 ++ [p] with [] => true | _ :: _ => false end) with false
      by (destruct l0; reflexivity).
    cbn [negb]. unfold merge_prev. rewrite rev_unit.
    apply chain_app in Hc1. destruct Hc1 as (mid & Hc0 & Hcp).
    cbn [chain] in Hcp. destruct Hcp as (Hbp & Hsp & Hap & Hcp).
    pose proof (chain_le _ _ _ Hc0).
    rewrite (iter_prev_at lo l0 p v l2 hi Hc), bind_lift_Ok.
    set (s := St ((l0 ++ [p]) ++ v :: l2) pt h c b k rc).
    assert (Hltp : keys_lt (base p) l0) by (subst mid; eapply chain_keys_lt, Hc0).
    rewrite (bind_Ok _ _ s p s).
    2:{ apply (area_at l0 p (v :: l2)); [|exact Hltp].
        unfold s. cbn [vma_map]. rewrite <- app_assoc. reflexivity. }
    rewrite (bind_Ok _ _ s v s) by (apply (area_at (l0 ++ [p]) v l2); [reflexivity | exact Hlt]).
    rewrite CanBeMergedWith_adjacent by (rewrite add64_small; lia).
    rewrite bind_lift_Ok.
    destruct (mergeable p v); cbn [fst snd]; [|reflexivity].
    assert (Hms : vma_map s = l0 ++ p :: v :: l2)
      by (unfold s; cbn [vma_map]; rewrite <- app_assoc; reflexivity).
    rewrite (bind_Ok _ _ s tt _ (assign_at l0 p (v :: l2) _ s Hms Hltp)).
    rewrite add64_small by lia.
    set (p' := set_size p (size p + size v)).
    set (s2 := with_vma_map s (l0 ++ p' :: v :: l2)).
    assert (Hms2 : vma_map s2 = (l0 ++ [p']) ++ v :: l2)
      by (unfold s2; cbn [vma_map with_vma_map]; rewrite <- app_assoc; reflexivity).
    assert (Hlt2 : keys_lt (base v) (l0 ++ [p']))
      by (apply keys_lt_snoc; [eapply keys_lt_trans; [exact Hltp | lia] | cbn; lia]).
    rewrite (bind_Ok _ _ s2 tt _ (erase_at (l0 ++ [p']) v l2 s2 Hms2 Hlt2)).
    unfold ret, s2, s.
    cbn [with_vma_map vma_map page_table host_memory callouts Memory_GetPointer
         SetMemoryAttribute_IsSuccess].
    rewrite rev_involutive, <- !app_assoc. reflexivity.
Qed.

Lemma MergeAdjacent_at lo l1 v l2 hi pt h c b k rc :
  chain lo (l1 ++ v :: l2) hi -> 0 <= lo -> hi <= address_space_end ->
  MergeAdjacent (It (base v)) (St (l1 ++ v :: l2) pt h c b k rc)
  = Ok (It (base (merged_area l1 v l2)), St (merged_map l1 v l2) pt h c b k rc).
Proof.
  intros Hc Hlo Hhi.
  pose proof (chain_split _ _ _ _ _ Hc) as (Hc1 & Hs & Ha & Hc2 & Hlt & Hgt & Hge).
  unfold MergeAdjacent. rewrite bind_gets. cbn [vma_map].
  rewrite (iter_next_at _ _ _ _ _ Hc), bind_lift_Ok.
  rewrite (bind_Ok _ _ _ tt _ (merge_next_step lo l1 v l2 hi pt h c b k rc Hc Hlo Hhi)).
  destruct (merge_next_chain v l2 hi Hs Ha Hc2) as (Eb & Hs' & Ha' & Hc2' & _).
  rewrite <- Eb.
  apply (merge_prev_step lo l1 (fst (merge_next v l2)) (snd (merge_next v l2)) hi);
    try assumption.
  apply chain_join; try assumption. rewrite Eb. exact Hc1.
Qed.

(** ** The page table as a projection of the map *)

Lemma UpdatePageTableForVMA_at v m pt h c b k rc :
  region_ok (base v) (size v) ->
  UpdatePageTableForVMA v (St m pt h c b k rc) = Ok (tt, St m (projection v pt) h c b k rc).
Proof.
  intros H. unfold UpdatePageTableForVMA, projection.
  destruct (type v).
  - rewrite UnmapRegion_Ok by exact H. reflexivity.
  - rewrite MapMemoryRegion_Ok by exact H. reflexivity.
  - rewrite MapMemoryRegion_Ok by exact H. reflexivity.
Qed.

Lemma MapPages_loop_pointers n b mem back pt p :
  0 <= b -> b + Z.of_nat n < 2 ^ 64 ->
  pointers (MapPages_loop n b mem back pt) p
  = if (b <=? p) && (p <? b + Z.of_nat n) then mem + (p - b) * page_size
    else pointers pt p.
Proof.
  revert b mem back pt. induction n as [|n IH]; intros b mem back pt Hb Hn.
  - cbn [MapPages_loop]. replace ((b <=? p) && (p <? b + Z.of_nat 0)) with false; [reflexivity|].
    symmetry. apply andb_false_iff. rewrite Z.leb_gt, Z.ltb_ge. lia.
  - cbn [MapPages_loop]. rewrite add64_small by lia. rewrite IH by lia.
    cbn [pointers]. unfold store.
    destruct (Z.eq_dec p b) as [->|Hne].
    + rewrite Z.eqb_refl.
      replace ((b + 1 <=? b) && (b <? b + 1 + Z.of_nat n)) with false
        by (symmetry; apply andb_false_iff; rewrite Z.leb_gt; lia).
      replace ((b <=? b) && (b <? b + Z.of_nat (S n))) with true
        by (symmetry; apply andb_true_iff; rewrite Z.leb_le, Z.ltb_lt; lia).
      lia.
    + replace (p =? b) with false by (symmetry; apply Z.eqb_neq; exact Hne).
      destruct ((b + 1 <=? p) && (p <? b + 1 + Z.of_nat n)) eqn:E.
      * apply andb_true_iff in E. rewrite Z.leb_le, Z.ltb_lt in E.
        replace ((b <=? p) && (p <? b + Z.of_nat (S n))) with true
          by (symmetry; apply andb_true_iff; rewrite Z.leb_le, Z.ltb_lt; lia).
        lia.
      * apply andb_false_iff in E. rewrite Z.leb_gt, Z.ltb_ge in E.
        replace ((b <=? p) && (p <? b + Z.of_nat (S n))) with false
          by (symmetry; apply andb_false_iff; rewrite Z.leb_gt, Z.ltb_ge; lia).
        reflexivity.
Qed.

Lemma MapPages_loop_backing_outside n b mem back pt p :
  0 <= b -> b + Z.of_nat n < 2 ^ 64 -> ~ (b <= p < b + Z.of_nat n) ->
  backing_addr (MapPages_loop n b mem back pt) p = backing_addr pt p.
Proof.
  revert b mem back pt. induction n as [|n IH]; intros b mem back pt Hb Hn Hp.
  - reflexivity.
  - cbn [MapPages_loop]. rewrite add64_small by lia. rewrite IH by lia.
    cbn [backing_addr]. unfold store.
    replace (p =? b) with false by (symmetry; apply Z.eqb_neq; lia). reflexivity.
Qed.

(** The projection changes nothing outside the pages of the area. *)
Lemma projection_outside v pt p :
  region_ok (base v) (size v) -> ~ (base v <= p * 4096 < base v + size v) ->
  attributes (projection v pt) p = attributes pt p
  /\ pointers (projection v pt) p = pointers pt p
  /\ backing_addr (projection v pt) p = backing_addr pt p.
Proof.
  intros Hr Hp.
  pose proof (in_region_pages _ _ p Hr) as Hin.
  pose proof (region_pages _ _ Hr) as (E & Hle & Eb).
  assert (F : ((base v / page_size <=? p)
               && (p <? add64 (base v / page_size) (size v / page_size))) = false).
  { destruct ((base v / page_size <=? p)
              && (p <? add64 (base v / page_size) (size v / page_size))); [|reflexivity].
    exfalso. apply Hp, Hin. reflexivity. }
  assert (G : forall mem ty back,
    attributes (MapPages_table (base v / page_size) (size v / page_size) mem ty back pt) p
    = attributes pt p
    /\ pointers (MapPages_table (base v / page_size) (size v / page_size) mem ty back pt) p
       = pointers pt p
    /\ backing_addr (MapPages_table (base v / page_size) (size v / page_size) mem ty back pt) p
       = backing_addr pt p).
  { intros mem ty back. rewrite MapPages_table_attributes, F. split; [reflexivity|].
    unfold MapPages_table. destruct (mem =? nullptr).
    - cbn [pointers backing_addr]. unfold fill. rewrite F. split; reflexivity.
    - destruct Hr as (Hb & Hn & Hbm & Hnm & He).
      rewrite E, Eb in *. rewrite pointers_size_eq in Hle. pose proof pow64.
      assert (0 <= base v / 4096) by (apply Z.div_pos; lia).
      assert (Epages : Z.of_nat (Z.to_nat ((base v + size v) / 4096 - base v / 4096))
                       = (base v + size v) / 4096 - base v / 4096).
      { apply Z2Nat.id. assert (base v / 4096 <= (base v + size v) / 4096)
          by (apply Z.div_le_mono; lia). lia. }
      apply andb_false_iff in F. rewrite Z.leb_gt, Z.ltb_ge in F.
      rewrite MapPages_loop_pointers, MapPages_loop_backing_outside by lia.
      rewrite Epages.
      replace ((base v / 4096 <=? p)
               && (p <? base v / 4096 + ((base v + size v) / 4096 - base v / 4096)))
        with false by (symmetry; apply andb_false_iff; rewrite Z.leb_gt, Z.ltb_ge; lia).
      split; reflexivity. }
  unfold projection. destruct (type v); apply G.
Qed.

(** On the pages of the area the projection is the one specified. *)
Lemma projection_inside strict v pt :
  region_ok (base v) (size v) ->
  (strict = true -> type v = VMAType.Mapped -> 0 < backing_memory v) ->
  (type v = VMAType.Allocated -> vma_backing_addr v = 0) ->
  projected strict (projection v pt) v.
Proof.
  intros Hr Hmem Hback. split; [exact Hmem|]. intros p Hp.
  pose proof (in_region_pages _ _ p Hr) as Hin. apply Hin in Hp as T.
  pose proof (region_pages _ _ Hr) as (E & Hle & Eb).
  unfold projection. destruct (type v) eqn:Ety.
  - rewrite MapPages_table_attributes, MapPages_table_null_pointers,
      MapPages_table_null_backing, T. auto.
  - rewrite MapPages_table_attributes, MapPages_table_null_pointers,
      MapPages_table_null_backing, T. rewrite Hback by reflexivity. auto.
  - rewrite MapPages_table_attributes, T. split; [reflexivity|].
    intros Hstrict. specialize (Hmem Hstrict eq_refl).
    unfold MapPages_table.
    replace (backing_memory v =? nullptr) with false
      by (symmetry; apply Z.eqb_neq; unfold nullptr; lia).
    destruct Hr as (Hb & Hn & Hbm & Hnm & He).
    rewrite E, Eb in *. rewrite pointers_size_eq in Hle. pose proof pow64.
    assert (0 <= base v / 4096) by (apply Z.div_pos; lia).
    assert (base v / 4096 <= (base v + size v) / 4096) by (apply Z.div_le_mono; lia).
    apply andb_true_iff in T. rewrite Z.leb_le, Z.ltb_lt in T.
    rewrite MapPages_loop_pointers by lia. rewrite Z2Nat.id by lia.
    replace ((base v / 4096 <=? p)
             && (p <? base v / 4096 + ((base v + size v) / 4096 - base v / 4096)))
      with true by (symmetry; apply andb_true_iff; rewrite Z.leb_le, Z.ltb_lt; lia).
    rewrite page_size_eq.
    assert (base v = 4096 * (base v / 4096))
      by (rewrite (Z.div_mod (base v) 4096) at 1 by lia; lia).
    lia.
Qed.

Lemma projected_frame strict v pt u :
  region_ok (base v) (size v) ->
  (base u + size u <= base v \/ base v + size v <= base u) ->
  projected strict pt u -> projected strict (projection v pt) u.
Proof.
  intros Hr Hdis (Hmem & Hu). split; [exact Hmem|]. intros p Hp.
  destruct (projection_outside v pt p Hr) as (Ea & Ep & Eb); [lia|].
  rewrite Ea, Ep, Eb. apply Hu, Hp.
Qed.

Lemma projected_split strict pt v off :
  0 <= off -> off < size v -> projected strict pt v ->
  projected strict pt (set_size v off) /\ projected strict pt (split_right v off).
Proof.
  intros Hoff Hlt (Hmem & Hv). split.
  - split; [exact Hmem|]. intros p Hp. cbn [base size type set_size backing_memory] in *.
    apply Hv. lia.
  - destruct (split_right_fields v off) as (Eb & Es & Et).
    split.
    + intros Hstrict Hty. rewrite Et in Hty. specialize (Hmem Hstrict Hty).
      unfold split_right. rewrite Hty. cbn. lia.
    + intros p Hp. rewrite Eb, Es in Hp. rewrite Et.
      assert (Hp' : base v <= p * 4096 < base v + size v) by lia.
      specialize (Hv p Hp'). destruct (type v) eqn:Ety; try exact Hv.
      destruct Hv as (Ha & Hptr). split; [exact Ha|].
      intros Hstrict. rewrite (Hptr Hstrict).
      unfold split_right. rewrite Ety. cbn. lia.
Qed.

Lemma projected_merge strict pt a b :
  0 < size a -> base b = base a + size a -> mergeable a b = true ->
  projected strict pt a -> projected strict pt b ->
  projected strict pt (set_size a (size a + size b)).
Proof.
  intros Hs Hb Hm (Hma & Ha) (Hmb & Hb'). unfold mergeable in Hm.
  apply andb_true_iff in Hm. destruct Hm as [Hty Hm].
  assert (Ety : type b = type a) by (destruct (type a), (type b); cbn in Hty; congruence).
  split; [exact Hma|]. intros p Hp. cbn [base size type set_size backing_memory] in *.
  destruct (Z_lt_dec (p * 4096) (base a + size a)) as [Hl|Hr].
  - apply Ha. lia.
  - assert (Hp' : base b <= p * 4096 < base b + size b) by lia.
    specialize (Hb' p Hp'). rewrite Ety in Hb'.
    destruct (type a) eqn:Eta; try exact Hb'.
    destruct Hb' as (Hattr & Hptr). split; [exact Hattr|].
    intros Hstrict. rewrite (Hptr Hstrict). apply Z.eqb_eq in Hm. lia.
Qed.

(** *** What merging preserves *)

Lemma merge_next_projected strict pt v l2 :
  0 < size v -> forall hi, chain (base v + size v) l2 hi ->
  projected strict pt v -> Forall (projected strict pt) l2 ->
  projected strict pt (fst (merge_next v l2))
  /\ Forall (projected strict pt) (snd (merge_next v l2)).
Proof.
  intros Hs hi Hc Hv Hl2. unfold merge_next. destruct l2 as [|n l2]; cbn [fst snd].
  - split; [exact Hv | constructor].
  - destruct (mergeable v n) eqn:Hm; cbn [fst snd]; [|split; assumption].
    inversion Hl2 as [|? ? Hn Hl2']; subst. cbn [chain] in Hc. destruct Hc as (Hb & _).
    split; [|exact Hl2']. apply projected_merge; assumption.
Qed.

Lemma merge_prev_chain lo l1 v :
  chain lo l1 (base v) -> 0 < size v -> size v mod 4096 = 0 ->
  let v' := snd (merge_prev l1 v) in
  chain lo (fst (merge_prev l1 v)) (base v')
  /\ 0 < size v' /\ size v' mod 4096 = 0
  /\ base v' + size v' = base v + size v
  /\ type v' = type v
  /\ base v' <= base v.
Proof.
  intros Hc Hs Ha. unfold merge_prev.
  destruct (snoc_cases l1) as [-> | (l0 & p & ->)]; cbn [rev fst snd].
  - repeat split; try assumption; lia.
  - rewrite rev_unit.
    destruct (mergeable p v) eqn:Hm; cbn [fst snd]; [|repeat split; try assumption; lia].
    apply chain_app in Hc. destruct Hc as (mid & Hc0 & Hcp).
    cbn [chain] in Hcp. destruct Hcp as (Hbp & Hsp & Hap & Hcp).
    rewrite rev_involutive. cbn [base size type set_size].
    unfold mergeable in Hm. apply andb_true_iff in Hm. destruct Hm as [Hty _].
    repeat split; try lia.
    + rewrite Hbp. exact Hc0.
    + rewrite <- Zplus_mod_idemp_l, Hap, Z.add_0_l. exact Ha.
    + destruct (type p), (type v); cbn in Hty; congruence.
Qed.

Lemma merge_prev_projected strict pt lo l1 v :
  chain lo l1 (base v) ->
  Forall (projected strict pt) l1 -> projected strict pt v ->
  Forall (projected strict pt) (fst (merge_prev l1 v))
  /\ projected strict pt (snd (merge_prev l1 v)).
Proof.
  intros Hc Hl1 Hv. unfold merge_prev.
  destruct (snoc_cases l1) as [-> | (l0 & p & ->)]; cbn [rev fst snd].
  - split; [constructor | exact Hv].
  - rewrite rev_unit.
    destruct (mergeable p v) eqn:Hm; cbn [fst snd]; [|split; assumption].
    apply chain_app in Hc. destruct Hc as (mid & Hc0 & Hcp).
    cbn [chain] in Hcp. destruct Hcp as (Hbp & Hsp & Hap & Hcp).
    apply Forall_app in Hl1. destruct Hl1 as [Hl0 Hp].
    inversion Hp; subst. rewrite rev_involutive.
    split; [exact Hl0|]. apply projected_merge; try assumption. lia.
Qed.

(** The shape of a map after [MergeAdjacent]. *)
Lemma merged_shape lo l1 v l2 hi :
  chain lo (l1 ++ v :: l2) hi ->
  exists l1' l2',
    merged_map l1 v l2 = l1' ++ merged_area l1 v l2 :: l2'
    /\ chain lo (merged_map l1 v l2) hi
    /\ type (merged_area l1 v l2) = type v
    /\ base (merged_area l1 v l2) <= base v
    /\ base v + size v <= base (merged_area l1 v l2) + size (merged_area l1 v l2)
    /\ (l1' = l1 \/ exists p, l1 = l1' ++ [p] /\ base (merged_area l1 v l2) = base p)
    /\ (l2' = l2 \/ exists n, l2 = n :: l2')
    /\ incl (keys (merged_map l1 v l2)) (keys (l1 ++ v :: l2)).
Proof.
  intros Hc.
  pose proof (chain_split _ _ _ _ _ Hc) as (Hc1 & Hs & Ha & Hc2 & _).
  destruct (merge_next_chain v l2 hi Hs Ha Hc2) as (Eb & Hs' & Ha' & Hc2' & Ety & Hsz).
  set (vn := fst (merge_next v l2)) in *.
  rewrite <- Eb in Hc1.
  destruct (merge_prev_chain lo l1 vn Hc1 Hs' Ha') as (Hc1' & Hs'' & Ha'' & Eend & Ety' & Hle).
  exists (fst (merge_prev l1 vn)), (snd (merge_next v l2)).
  unfold merged_map, merged_area. fold vn.
  split; [reflexivity|]. split.
  { apply chain_join; try assumption. rewrite Eend. exact Hc2'. }
  split; [congruence|]. split; [lia|]. split; [lia|].
  assert (Hl2 : snd (merge_next v l2) = l2 \/ exists n, l2 = n :: snd (merge_next v l2)).
  { unfold merge_next. destruct l2 as [|n l2]; [left; reflexivity|].
    destruct (mergeable v n); cbn [snd]; [right; exists n; reflexivity | left; reflexivity]. }
  assert (Hl1 : fst (merge_prev l1 vn) = l1
                \/ exists p, l1 = fst (merge_prev l1 vn) ++ [p]
                             /\ base (snd (merge_prev l1 vn)) = base p).
  { unfold merge_prev. destruct (snoc_cases l1) as [-> | (l0 & p & ->)]; cbn [rev fst snd].
    - left; reflexivity.
    - rewrite rev_unit. destruct (mergeable p vn); cbn [fst snd]; [|left; reflexivity].
      right. exists p. rewrite rev_involutive. split; reflexivity. }
  split; [exact Hl1|]. split; [exact Hl2|].
  unfold keys. intros x Hx. rewrite map_app in *. cbn [map] in *.
  apply in_app_iff in Hx. apply in_app_iff.
  destruct Hx as [Hx | [Hx | Hx]].
  - left. destruct Hl1 as [<- | (p & E & _)]; [exact Hx|].
    apply in_map_iff in Hx. destruct Hx as (u & Eu & Hu).
    apply in_map_iff. exists u. split; [exact Eu|].
    rewrite E. apply in_app_iff. left. exact Hu.
  - destruct Hl1 as [E1 | (p & E & Ep)].
    + right. left.
      assert (base (snd (merge_prev l1 vn)) = base v); [|congruence].
      unfold merge_prev in *. destruct (rev l1) as [|p r] eqn:Er; cbn [snd]; [exact Eb|].
      destruct (mergeable p vn); cbn [fst snd] in *; [|exact Eb].
      exfalso. assert (length (rev r) = length l1) by (rewrite E1; reflexivity).
      rewrite length_rev in H. rewrite <- (length_rev l1), Er in H. cbn in H. lia.
    + left. apply in_map_iff. exists p. split; [congruence|].
      rewrite E. apply in_app_iff. right. left. reflexivity.
  - right. right. destruct Hl2 as [<- | (n & E)]; [exact Hx|].
    rewrite E. right. exact Hx.
Qed.

Lemma merged_projected strict pt lo l1 v l2 hi :
  chain lo (l1 ++ v :: l2) hi ->
  Forall (projected strict pt) (l1 ++ v :: l2) ->
  Forall (projected strict pt) (merged_map l1 v l2).
Proof.
  intros Hc Hp.
  pose proof (chain_split _ _ _ _ _ Hc) as (Hc1 & Hs & Ha & Hc2 & _).
  apply Forall_app in Hp. destruct Hp as [Hp1 Hp2]. inversion Hp2 as [|? ? Hv Hp2']; subst.
  destruct (merge_next_chain v l2 hi Hs Ha Hc2) as (Eb & Hs' & Ha' & Hc2' & Ety & Hsz).
  destruct (merge_next_projected strict pt v l2 Hs hi Hc2 Hv Hp2') as [Hvn Hl2].
  rewrite <- Eb in Hc1.
  destruct (merge_prev_projected strict pt lo l1 _ Hc1 Hp1 Hvn) as [Hl1 Hvp].
  unfold merged_map, merged_area. apply Forall_app. split; [exact Hl1|].
  constructor; assumption.
Qed.

(** *** Allocate *)

Lemma chain_replace lo l1 v v' l2 hi :
  chain lo (l1 ++ v :: l2) hi -> base v' = base v -> size v' = size v ->
  chain lo (l1 ++ v' :: l2) hi.
Proof.
  intros Hc Eb Es. rewrite chain_app in *. destruct Hc as (mid & H1 & H2).
  exists mid. split; [exact H1|]. cbn [chain] in *. rewrite Eb, Es. exact H2.
Qed.

Lemma tiles_region l1 v l2 :
  tiles (l1 ++ v :: l2) -> region_ok (base v) (size v).
Proof.
  intros Hc. pose proof (chain_split _ _ _ _ _ Hc) as (Hc1 & Hs & Ha & Hc2 & _).
  pose proof (chain_le _ _ _ Hc1). pose proof (chain_le _ _ _ Hc2).
  pose proof (chain_aligned _ _ _ Hc1 eq_refl).
  unfold region_ok. repeat split; try assumption; lia.
Qed.

Lemma tiles_disjoint l1 v l2 u :
  tiles (l1 ++ v :: l2) -> In u (l1 ++ l2) ->
  base u + size u <= base v \/ base v + size v <= base u.
Proof.
  intros Hc Hu. pose proof (chain_split _ _ _ _ _ Hc) as (Hc1 & Hs & Ha & Hc2 & _).
  apply in_app_iff in Hu. destruct Hu as [Hu|Hu].
  - left. destruct (chain_In _ _ _ _ Hc1 Hu) as (_ & _ & _ & H). exact H.
  - right. destruct (chain_In _ _ _ _ Hc2 Hu) as (H & _). exact H.
Qed.

Lemma update_projected strict pt l1 v v' l2 :
  tiles (l1 ++ v :: l2) -> base v' = base v -> size v' = size v ->
  Forall (projected strict pt) (l1 ++ v :: l2) ->
  (strict = true -> type v' = VMAType.Mapped -> 0 < backing_memory v') ->
  (type v' = VMAType.Allocated -> vma_backing_addr v' = 0) ->
  Forall (projected strict (projection v' pt)) (l1 ++ v' :: l2).
Proof.
  intros Hc Eb Es Hp Hmem Hback.
  assert (Hr : region_ok (base v') (size v'))
    by (rewrite Eb, Es; eapply tiles_region, Hc).
  apply Forall_app in Hp. destruct Hp as [Hp1 Hp2]. inversion Hp2 as [|? ? Hv Hp2']; subst.
  assert (Hframe : forall u, In u (l1 ++ l2) -> projected strict pt u ->
                             projected strict (projection v' pt) u).
  { intros u Hu Hpu. apply projected_frame; [exact Hr | | exact Hpu].
    rewrite Eb, Es. eapply tiles_disjoint; eassumption. }
  apply Forall_app. split; [|constructor].
  - rewrite Forall_forall in *. intros u Hu. apply Hframe; [|apply Hp1, Hu].
    apply in_app_iff. left. exact Hu.
  - apply projection_inside; assumption.
  - rewrite Forall_forall in *. intros u Hu. apply Hframe; [|apply Hp2', Hu].
    apply in_app_iff. right. exact Hu.
Qed.

Lemma Allocate_at l1 v l2 pt h c b k rc :
  tiles (l1 ++ v :: l2) ->
  Allocate (It (base v)) (St (l1 ++ v :: l2) pt h c b k rc)
  = Ok (It (base (merged_area l1 (allocated v) l2)),
        St (merged_map l1 (allocated v) l2) (projection (allocated v) pt) h c b k rc).
Proof.
  intros Hc. pose proof (chain_split _ _ _ _ _ Hc) as (_ & _ & _ & _ & Hlt & _).
  unfold Allocate.
  set (s := St (l1 ++ v :: l2) pt h c b k rc).
  rewrite (bind_Ok _ _ s tt _ (assign_at l1 v l2 _ s eq_refl Hlt)).
  fold (allocated v).
  set (s1 := with_vma_map s (l1 ++ allocated v :: l2)).
  rewrite (bind_Ok _ _ s1 (allocated v) s1)
    by (apply (area_at l1 (allocated v) l2 s1 eq_refl Hlt)).
  assert (Hc' : tiles (l1 ++ allocated v :: l2))
    by (eapply chain_replace; [exact Hc | reflexivity | reflexivity]).
  unfold s1, s. norm_state.
  rewrite (bind_Ok _ _ _ tt _ (UpdatePageTableForVMA_at (allocated v) _ pt h c b k rc
                                 (tiles_region _ _ _ Hc'))).
  change (base v) with (base (allocated v)).
  apply (MergeAdjacent_at 0 l1 (allocated v) l2 address_space_end); [exact Hc' | lia | lia].
Qed.

Lemma Allocate_inv strict l1 v l2 pt :
  tiles (l1 ++ v :: l2) -> Forall (projected strict pt) (l1 ++ v :: l2) ->
  tiles (merged_map l1 (allocated v) l2)
  /\ Forall (projected strict (projection (allocated v) pt))
       (merged_map l1 (allocated v) l2).
Proof.
  intros Hc Hp.
  assert (Hc' : tiles (l1 ++ allocated v :: l2))
    by (eapply chain_replace; [exact Hc | reflexivity | reflexivity]).
  split.
  - destruct (merged_shape _ _ _ _ _ Hc') as (? & ? & _ & H & _). exact H.
  - eapply merged_projected; [exact Hc'|].
    apply (update_projected strict pt l1 v (allocated v) l2 Hc eq_refl eq_refl Hp).
    + intros _ Hty. discriminate Hty.
    + reflexivity.
Qed.

(** *** CarveVMA *)

Lemma chain_after_split lo l1 v l2 hi off :
  chain lo (l1 ++ v :: l2) hi -> 0 < off < size v -> off mod 4096 = 0 ->
  chain lo (l1 ++ set_size v off :: split_right v off :: l2) hi.
Proof.
  intros Hc Hoff Ha.
  pose proof (chain_split _ _ _ _ _ Hc) as (Hc1 & Hs & Hav & Hc2 & _).
  destruct (split_right_fields v off) as (Eb & Es & Et).
  apply chain_join; try assumption; cbn [base size set_size]; try lia.
  cbn [chain]. rewrite Eb, Es. repeat split; try lia.
  - rewrite Zminus_mod, Hav, Ha. reflexivity.
  - replace (base v + off + (size v - off)) with (base v + size v) by lia. exact Hc2.
Qed.

Lemma carve_mid_fields v start n :
  0 <= start -> 0 < n -> start + n <= size v ->
  base (carve_mid v start n) = base v + start
  /\ size (carve_mid v start n) = n
  /\ type (carve_mid v start n) = type v.
Proof.
  intros Hs Hn Hle. unfold carve_mid, carve_end.
  destruct (Z.eqb_spec start 0) as [E0|Hne];
    destruct (Z.ltb_spec (start + n) (size v)) as [Hlt|Hge].
  - cbn. repeat split; lia.
  - repeat split; lia.
  - destruct (split_right_fields (set_size v (start + n)) start) as (Eb & Es & Et).
    rewrite Eb, Es, Et. cbn. repeat split; lia.
  - destruct (split_right_fields v start) as (Eb & Es & Et).
    rewrite Eb, Es, Et. repeat split; lia.
Qed.

Lemma carve_chain lo l1 v l2 hi start n :
  chain lo (l1 ++ v :: l2) hi ->
  0 <= start -> 0 < n -> start + n <= size v ->
  start mod 4096 = 0 -> n mod 4096 = 0 ->
  chain lo ((l1 ++ carve_left v start n)
            ++ carve_mid v start n :: carve_right v start n ++ l2) hi.
Proof.
  intros Hc Hs Hn Hle Has Han.
  assert (Hae : (start + n) mod 4096 = 0)
    by (rewrite <- Zplus_mod_idemp_l, Has, Z.add_0_l; exact Han).
  unfold carve_left, carve_mid, carve_right, carve_end.
  destruct (Z.eqb_spec start 0) as [E0|Hne];
    destruct (Z.ltb_spec (start + n) (size v)) as [Hlt|Hge];
    rewrite ?app_nil_r; cbn [app].
  - apply chain_after_split; [exact Hc | lia | exact Hae].
  - exact Hc.
  - rewrite <- app_assoc. cbn [app].
    apply (chain_after_split lo l1 (set_size v (start + n))
             (split_right v (start + n) :: l2) hi start); [|cbn; lia | exact Has].
    apply chain_after_split; [exact Hc | lia | exact Hae].
  - rewrite <- app_assoc. cbn [app].
    apply chain_after_split; [exact Hc | lia | exact Has].
Qed.

Lemma carve_projected strict pt l1 v l2 start n :
  Forall (projected strict pt) (l1 ++ v :: l2) ->
  0 <= start -> 0 < n -> start + n <= size v ->
  Forall (projected strict pt)
    ((l1 ++ carve_left v start n) ++ carve_mid v start n :: carve_right v start n ++ l2).
Proof.
  intros Hp Hs Hn Hle.
  apply Forall_app in Hp. destruct Hp as [Hp1 Hp2]. inversion Hp2 as [|? ? Hv Hp2']; subst.
  assert (He : projected strict pt (carve_end v start n)
               /\ Forall (projected strict pt) (carve_right v start n)).
  { unfold carve_end, carve_right. destruct (Z.ltb_spec (start + n) (size v)).
    - destruct (projected_split strict pt v (start + n)) as [Ha Hb]; try lia; [exact Hv|].
      split; [exact Ha | constructor; [exact Hb | constructor]].
    - split; [exact Hv | constructor]. }
  destruct He as [He Hr].
  assert (Hm : Forall (projected strict pt) (carve_left v start n)
               /\ projected strict pt (carve_mid v start n)).
  { unfold carve_left, carve_mid. destruct (Z.eqb_spec start 0).
    - split; [constructor | exact He].
    - destruct (projected_split strict pt (carve_end v start n) start) as [Ha Hb];
        try lia; [| exact He |].
      + unfold carve_end. destruct (Z.ltb_spec (start + n) (size v)); cbn; lia.
      + split; [constructor; [exact Ha | constructor] | exact Hb]. }
  destruct Hm as [Hl Hm].
  apply Forall_app. split; [apply Forall_app; split; assumption|].
  constructor; [exact Hm|]. apply Forall_app. split; assumption.
Qed.

Lemma carve_keys l1 v l2 start n :
  0 <= start -> 0 < n -> start + n <= size v ->
  incl (keys ((l1 ++ carve_left v start n)
              ++ carve_mid v start n :: carve_right v start n ++ l2))
       (base v + start :: base v + (start + n) :: keys (l1 ++ v :: l2)).
Proof.
  intros Hs Hn Hle x. unfold keys. rewrite !map_app. cbn [map]. rewrite !map_app.
  rewrite !in_app_iff. cbn [In]. rewrite !in_app_iff. cbn [In].
  destruct (carve_mid_fields v start n Hs Hn Hle) as (Eb & _).
  intros [[H|H]|[H|[H|H]]].
  - tauto.
  - unfold carve_left in H. destruct (start =? 0); [destruct H|].
    destruct H as [H|[]]. right. right. right. left.
    rewrite <- H. unfold carve_end. destruct (start + n <? size v); reflexivity.
  - left. congruence.
  - unfold carve_right in H. destruct (start + n <? size v); [|destruct H].
    destruct H as [H|[]]. right. left.
    destruct (split_right_fields v (start + n)) as (E & _). congruence.
  - tauto.
Qed.

Lemma CarveVMA_at l1 v l2 pt h c b k rc base_ size_ :
  tiles (l1 ++ v :: l2) ->
  type v <> VMAType.Mapped ->
  base_ mod 4096 = 0 -> size_ mod 4096 = 0 ->
  base v <= base_ -> 0 < size_ -> base_ + size_ <= base v + size v ->
  let start := base_ - base v in
  CarveVMA base_ size_ (St (l1 ++ v :: l2) pt h c b k rc)
  = Ok (It base_,
        St ((l1 ++ carve_left v start size_)
            ++ carve_mid v start size_ :: carve_right v start size_ ++ l2) pt h c b k rc).
Proof.
  intros Hc Hty Hab Han Hlo Hn Hhi start.
  pose proof (chain_split _ _ _ _ _ Hc) as (Hc1 & Hs & Ha & Hc2 & Hlt & Hgt & Hge).
  pose proof (chain_le _ _ _ Hc1). pose proof (chain_le _ _ _ Hc2).
  pose proof (chain_aligned _ _ _ Hc1 eq_refl) as Hbv.
  pose proof pow64 as P. pose proof address_space_end_eq as Eend.
  assert (Hst : 0 <= start) by (unfold start; lia).
  assert (Hsa : start mod 4096 = 0)
    by (unfold start; rewrite Zminus_mod, Hab, Hbv; reflexivity).
  assert (Hea : (start + size_) mod 4096 = 0)
    by (rewrite <- Zplus_mod_idemp_l, Hsa, Z.add_0_l; exact Han).
  unfold CarveVMA. set (s := St (l1 ++ v :: l2) pt h c b k rc).
  rewrite bind_assert_true by (apply aligned_test; exact Han).
  rewrite bind_assert_true by (apply aligned_test; exact Hab).
  rewrite (bind_Ok _ _ _ _ _ (FindVMA_at 0 l1 v l2 address_space_end s base_
                                eq_refl Hc ltac:(lia) ltac:(lia))).
  unfold StripIterConstness. rewrite bind_ret. cbn [iter_eqb].
  rewrite (bind_Ok _ _ _ v _ (area_at l1 v l2 s eq_refl Hlt)).
  replace (VMAType.eqb (type v) VMAType.Mapped) with false
    by (destruct (type v); try reflexivity; congruence).
  rewrite (sub64_small base_ (base v)) by lia. fold start.
  rewrite (add64_small start size_) by (unfold start; lia).
  rewrite bind_assert_true by (apply Z.leb_le; unfold start; lia).
  unfold carve_left, carve_mid, carve_right, carve_end.
  destruct (Z.ltb_spec (start + size_) (size v)) as [Hlt'|Hge'].
  - rewrite bind_bind.
    rewrite (bind_Ok _ _ _ _ _ (SplitVMA_at 0 l1 v l2 address_space_end s (start + size_)
                                  eq_refl Hc ltac:(lia) ltac:(lia) ltac:(lia))).
    rewrite bind_ret. unfold s. norm_state.
    destruct (Z.eqb_spec start 0) as [E0|Hne]; cbn [negb].
    + unfold ret. rewrite app_nil_r. cbn [app]. unfold start in E0.
      do 2 f_equal. f_equal. lia.
    + change (base v) with (base (set_size v (start + size_))) at 1.
      rewrite (SplitVMA_at 0 l1 (set_size v (start + size_))
                 (split_right v (start + size_) :: l2) address_space_end
                 (St (l1 ++ set_size v (start + size_) :: split_right v (start + size_) :: l2)
                    pt h c b k rc) start eq_refl).
      * cbn [base set_size]. rewrite <- app_assoc. cbn [app].
        unfold with_vma_map. cbn [page_table host_memory callouts Memory_GetPointer
                                   SetMemoryAttribute_IsSuccess].
        do 2 f_equal. f_equal. unfold start. lia.
      * apply chain_after_split; [exact Hc | lia | exact Hea].
      * lia.
      * lia.
      * cbn [size set_size]. lia.
  - rewrite bind_ret.
    destruct (Z.eqb_spec start 0) as [E0|Hne]; cbn [negb].
    + unfold ret, s. rewrite !app_nil_r. cbn [app]. unfold start in E0.
      do 2 f_equal. f_equal. lia.
    + rewrite (SplitVMA_at 0 l1 v l2 address_space_end s start eq_refl Hc); try lia.
      rewrite <- app_assoc. cbn [app]. unfold s. norm_state.
      do 2 f_equal. f_equal. unfold start. lia.
Qed.

Lemma bind_assert_false {B : Type} (b : bool) (k : unit -> M B) s :
  b = false -> bind (assert b) k s = AssertFail.
Proof. intros ->. reflexivity. Qed.

Lemma bind_AssertFail {A B : Type} (c : M A) (k : A -> M B) s :
  c s = AssertFail -> bind c k s = AssertFail.
Proof. intros H. unfold bind. rewrite H. reflexivity. Qed.

Lemma SplitVMA_fail l1 v l2 s off :
  vma_map s = l1 ++ v :: l2 -> keys_lt (base v) l1 ->
  off <= 0 \/ size v <= off ->
  SplitVMA (It (base v)) off s = AssertFail.
Proof.
  intros Hm Hlt Hoff. unfold SplitVMA.
  rewrite (bind_Ok _ _ s v s) by (eapply area_at; eassumption).
  destruct (Z.ltb_spec off (size v)) as [Hl|Hg].
  - rewrite bind_assert_true by reflexivity.
    rewrite bind_assert_false; [reflexivity|]. apply Z.ltb_ge. lia.
  - reflexivity.
Qed.

Lemma CarveVMA_Mapped l1 v l2 pt h c b k rc base_ size_ :
  tiles (l1 ++ v :: l2) ->
  type v = VMAType.Mapped ->
  base_ mod 4096 = 0 -> size_ mod 4096 = 0 ->
  base v <= base_ < base v + size v ->
  CarveVMA base_ size_ (St (l1 ++ v :: l2) pt h c b k rc)
  = Ok (It (base v), St (l1 ++ v :: l2) pt h c b k rc).
Proof.
  intros Hc Hty Hab Han Hin.
  pose proof (chain_split _ _ _ _ _ Hc) as (Hc1 & Hs & Ha & Hc2 & Hlt & Hgt & Hge).
  pose proof (chain_le _ _ _ Hc2).
  unfold CarveVMA. set (s := St (l1 ++ v :: l2) pt h c b k rc).
  rewrite bind_assert_true by (apply aligned_test; exact Han).
  rewrite bind_assert_true by (apply aligned_test; exact Hab).
  rewrite (bind_Ok _ _ _ _ _ (FindVMA_at 0 l1 v l2 address_space_end s base_
                                eq_refl Hc Hin ltac:(lia))).
  unfold StripIterConstness. rewrite bind_ret. cbn [iter_eqb].
  rewrite (bind_Ok _ _ _ v _ (area_at l1 v l2 s eq_refl Hlt)).
  rewrite Hty. reflexivity.
Qed.

(** A call of [CarveVMA] that returns has carved a region of positive size
    that lies inside the area found, unless that area is [Mapped]. *)
Lemma CarveVMA_returns l1 v l2 pt h c b k rc base_ size_ r :
  tiles (l1 ++ v :: l2) ->
  type v <> VMAType.Mapped ->
  base v <= base_ < base v + size v ->
  0 <= size_ < 2 ^ 64 ->
  CarveVMA base_ size_ (St (l1 ++ v :: l2) pt h c b k rc) = Ok r ->
  base_ mod 4096 = 0 /\ size_ mod 4096 = 0
  /\ 0 < size_ /\ base_ + size_ <= base v + size v.
Proof.
  intros Hc Hty Hin Hn H.
  pose proof (chain_split _ _ _ _ _ Hc) as (Hc1 & Hs & Ha & Hc2 & Hlt & Hgt & Hge).
  pose proof (chain_le _ _ _ Hc1). pose proof (chain_le _ _ _ Hc2).
  pose proof pow64 as P. pose proof address_space_end_eq as Eend.
  unfold CarveVMA in H. set (s := St (l1 ++ v :: l2) pt h c b k rc) in *.
  destruct (Z.land size_ page_mask =? 0) eqn:Ean;
    [|rewrite bind_assert_false in H by reflexivity; discriminate H].
  destruct (Z.land base_ page_mask =? 0) eqn:Eab;
    [|rewrite bind_assert_true, bind_assert_false in H by reflexivity; discriminate H].
  rewrite land_page_mask in Ean, Eab. apply Z.eqb_eq in Ean, Eab.
  split; [exact Eab|]. split; [exact Ean|].
  rewrite !bind_assert_true in H by reflexivity.
  rewrite (bind_Ok _ _ _ _ _ (FindVMA_at 0 l1 v l2 address_space_end s base_
                                eq_refl Hc Hin ltac:(lia))) in H.
  unfold StripIterConstness in H. rewrite bind_ret in H. cbn [iter_eqb] in H.
  rewrite (bind_Ok _ _ _ v _ (area_at l1 v l2 s eq_refl Hlt)) in H.
  replace (VMAType.eqb (type v) VMAType.Mapped) with false in H
    by (destruct (type v); try reflexivity; congruence).
  rewrite (sub64_small base_ (base v)) in H by lia.
  set (start := base_ - base v) in *.
  set (end_in := add64 start size_) in *.
  assert (Hend : 0 <= end_in < 2 ^ 64) by (apply Z.mod_pos_bound; lia).
  assert (Ewrap : end_in = start + size_ \/ end_in = start + size_ - 2 ^ 64).
  { unfold end_in, add64, wrap64.
    destruct (Z_lt_dec (start + size_) (2 ^ 64)).
    - left. apply Z.mod_small. lia.
    - right. rewrite <- (Z.mod_small (start + size_ - 2 ^ 64) (2 ^ 64)) by lia.
      rewrite <- (Z_mod_plus_full (start + size_ - 2 ^ 64) 1 (2 ^ 64)). f_equal. lia. }
  destruct (Z.leb_spec end_in (size v)) as [Hle|Hgt'];
    [|rewrite bind_assert_false in H by reflexivity; discriminate H].
  rewrite bind_assert_true in H by reflexivity.
  destruct (Z.ltb_spec end_in (size v)) as [Hlt'|Hge'].
  - rewrite bind_bind in H.
    destruct (Z_le_dec end_in 0) as [Hz|Hpos].
    { rewrite (bind_AssertFail _ _ s (SplitVMA_fail l1 v l2 s end_in eq_refl Hlt
                                          (or_introl Hz))) in H.
      discriminate H. }
    rewrite (bind_Ok _ _ _ _ _ (SplitVMA_at 0 l1 v l2 address_space_end s end_in
                                  eq_refl Hc ltac:(lia) ltac:(lia) ltac:(lia))) in H.
    rewrite bind_ret in H.
    destruct (Z.eqb_spec start 0) as [E0|Hne]; cbn [negb] in H.
    + lia.
    + destruct (Z_le_dec end_in start) as [Hbad|Hok].
      * change (base v) with (base (set_size v end_in)) in H at 1.
        rewrite (SplitVMA_fail l1 (set_size v end_in) (split_right v end_in :: l2)
                   (with_vma_map s (l1 ++ set_size v end_in :: split_right v end_in :: l2))
                   start eq_refl Hlt (or_intror Hbad)) in H.
        discriminate H.
      * lia.
  - lia.
Qed.

Lemma bind_inv {A B : Type} (c : M A) (k : A -> M B) s r :
  bind c k s = Ok r -> exists a s1, c s = Ok (a, s1) /\ k a s1 = Ok r.
Proof.
  unfold bind. destruct (c s) as [[a s1]| | |]; try discriminate.
  intros H. exists a, s1. split; [reflexivity | exact H].
Qed.

Lemma assert_inv (b : bool) s a s1 : assert b s = Ok (a, s1) -> b = true /\ s1 = s.
Proof. destruct b; [|discriminate]. intros H. inversion H. split; reflexivity. Qed.

Lemma CarveVMA_aligned base_ size_ s r :
  CarveVMA base_ size_ s = Ok r -> base_ mod 4096 = 0 /\ size_ mod 4096 = 0.
Proof.
  unfold CarveVMA. intros H.
  apply bind_inv in H. destruct H as (? & s1 & H1 & H).
  apply assert_inv in H1. destruct H1 as [Han _].
  apply bind_inv in H. destruct H as (? & s2 & H2 & H).
  apply assert_inv in H2. destruct H2 as [Hab _].
  rewrite land_page_mask in Han, Hab. apply Z.eqb_eq in Han, Hab. split; assumption.
Qed.

Lemma CarveVMA_outside base_ size_ s r :
  address_space_end <= base_ ->
  CarveVMA base_ size_ s = Ok r -> r = (ItNull, s).
Proof.
  intros Hout H. pose proof (CarveVMA_aligned _ _ _ _ H) as [Hab Han].
  unfold CarveVMA in H.
  rewrite bind_assert_true in H by (apply aligned_test; exact Han).
  rewrite bind_assert_true in H by (apply aligned_test; exact Hab).
  rewrite (bind_Ok _ _ _ _ _ (FindVMA_end s base_ Hout)) in H.
  unfold StripIterConstness in H. rewrite bind_ret in H. cbn [iter_eqb] in H.
  unfold ret in H. congruence.
Qed.

Lemma projected_ext strict pt v v' :
  base v' = base v -> size v' = size v -> type v' = type v ->
  backing_memory v' = backing_memory v ->
  projected strict pt v -> projected strict pt v'.
Proof.
  intros Eb Es Et Em (Hmem & Hv). unfold projected. rewrite Eb, Es, Et, Em.
  split; assumption.
Qed.

Lemma Forall_replace {A : Type} (P : A -> Prop) l1 (v v' : A) l2 :
  Forall P (l1 ++ v :: l2) -> P v' -> Forall P (l1 ++ v' :: l2).
Proof.
  intros H Hv'. apply Forall_app in H. destruct H as [H1 H2].
  inversion H2; subst. apply Forall_app. split; [exact H1 | constructor; assumption].
Qed.

(** What is left of [AllocateMemory] and [MapBackingMemory] once the area is
    carved: the area is rewritten, projected and merged. *)
Lemma remap_at l1 x l2 pt h c b k rc (f : VirtualMemoryArea -> VirtualMemoryArea) :
  tiles (l1 ++ x :: l2) -> base (f x) = base x -> size (f x) = size x ->
  (assign (It (base x)) f ;;;
   vma <- area (It (base x)) ;;
   UpdatePageTableForVMA vma ;;;
   MergeAdjacent (It (base x))) (St (l1 ++ x :: l2) pt h c b k rc)
  = Ok (It (base (merged_area l1 (f x) l2)),
        St (merged_map l1 (f x) l2) (projection (f x) pt) h c b k rc).
Proof.
  intros Hc Eb Es. pose proof (chain_split _ _ _ _ _ Hc) as (_ & _ & _ & _ & Hlt & _).
  set (s := St (l1 ++ x :: l2) pt h c b k rc).
  rewrite (bind_Ok _ _ s tt _ (assign_at l1 x l2 _ s eq_refl Hlt)).
  set (s1 := with_vma_map s (l1 ++ f x :: l2)).
  rewrite <- Eb in Hlt |- *.
  rewrite (bind_Ok _ _ s1 (f x) s1) by (apply (area_at l1 (f x) l2 s1 eq_refl Hlt)).
  assert (Hc' : tiles (l1 ++ f x :: l2)) by (eapply chain_replace; eassumption).
  unfold s1, s. norm_state.
  rewrite (bind_Ok _ _ _ tt _ (UpdatePageTableForVMA_at (f x) _ pt h c b k rc
                                 (tiles_region _ _ _ Hc'))).
  apply (MergeAdjacent_at 0 l1 (f x) l2 address_space_end); [exact Hc' | lia | lia].
Qed.

Lemma remap_inv strict l1 x x' l2 pt :
  tiles (l1 ++ x :: l2) -> Forall (projected strict pt) (l1 ++ x :: l2) ->
  base x' = base x -> size x' = size x ->
  (strict = true -> type x' = VMAType.Mapped -> 0 < backing_memory x') ->
  (type x' = VMAType.Allocated -> vma_backing_addr x' = 0) ->
  tiles (merged_map l1 x' l2)
  /\ Forall (projected strict (projection x' pt)) (merged_map l1 x' l2).
Proof.
  intros Hc Hp Eb Es Hmem Hback.
  assert (Hc' : tiles (l1 ++ x' :: l2)) by (eapply chain_replace; eassumption).
  split.
  - destruct (merged_shape _ _ _ _ _ Hc') as (? & ? & _ & H & _). exact H.
  - eapply merged_projected; [exact Hc'|].
    apply (update_projected strict pt l1 x x' l2 Hc Eb Es Hp Hmem Hback).
Qed.

(** What a returning [CarveVMA] leaves: nothing found, or a map in which the
    iterator returned points to an area [x]. *)
Lemma CarveVMA_inv strict m pt h c b k rc base_ size_ it s1 :
  tiles m -> Forall (projected strict pt) m ->
  0 <= base_ -> 0 <= size_ < 2 ^ 64 ->
  CarveVMA base_ size_ (St m pt h c b k rc) = Ok (it, s1) ->
  it = ItNull
  \/ exists l1 x l2,
       s1 = St (l1 ++ x :: l2) pt h c b k rc /\ it = It (base x)
       /\ tiles (l1 ++ x :: l2) /\ Forall (projected strict pt) (l1 ++ x :: l2)
       /\ incl (keys (l1 ++ x :: l2)) (base_ :: base_ + size_ :: keys m)
       /\ base x <= base_ < base x + size x
       /\ (type x = VMAType.Mapped /\ l1 ++ x :: l2 = m
           \/ type x <> VMAType.Mapped /\ base x = base_ /\ size x = size_).
Proof.
  intros Hc Hp Hb Hn H.
  destruct (Z_le_dec address_space_end base_) as [Hout|Hin].
  { left. apply (CarveVMA_outside _ _ _ _ Hout) in H. congruence. }
  right. destruct (chain_locate 0 m address_space_end base_ Hc) as (l1 & v & l2 & -> & Hv);
    [lia|].
  pose proof (CarveVMA_aligned _ _ _ _ H) as [Hab Han].
  destruct (VMAType.eqb (type v) VMAType.Mapped) eqn:Ety.
  - assert (Hty : type v = VMAType.Mapped) by (destruct (type v); try discriminate; reflexivity).
    rewrite (CarveVMA_Mapped l1 v l2 pt h c b k rc base_ size_ Hc Hty Hab Han Hv) in H.
    inversion H; subst. exists l1, v, l2. repeat split; try assumption; try lia.
    + intros x Hx. right. right. exact Hx.
    + left. split; [exact Hty | reflexivity].
  - assert (Hty : type v <> VMAType.Mapped) by (intros E; rewrite E in Ety; discriminate).
    destruct (CarveVMA_returns l1 v l2 pt h c b k rc base_ size_ _ Hc Hty Hv Hn H)
      as (_ & _ & Hpos & Hhi).
    rewrite (CarveVMA_at l1 v l2 pt h c b k rc base_ size_ Hc Hty Hab Han) in H by lia.
    inversion H; subst. clear H.
    set (start := base_ - base v) in *.
    destruct (carve_mid_fields v start size_) as (Eb & Es & Et); try (unfold start; lia).
    pose proof (chain_split _ _ _ _ _ Hc) as (_ & _ & Hav & _).
    pose proof (chain_split _ _ _ _ _ Hc) as (Hc1 & _).
    pose proof (chain_aligned _ _ _ Hc1 eq_refl) as Hbv.
    exists (l1 ++ carve_left v start size_), (carve_mid v start size_),
      (carve_right v start size_ ++ l2).
    split; [reflexivity|]. split; [f_equal; rewrite Eb; unfold start; lia|].
    split; [|split; [|split; [|split]]].
    + apply carve_chain; try assumption; try (unfold start; lia).
      unfold start. rewrite Zminus_mod, Hab, Hbv. reflexivity.
    + apply carve_projected; try assumption; unfold start; lia.
    + intros y Hy. apply carve_keys in Hy; try (unfold start; lia).
      destruct Hy as [Hy | [Hy | Hy]].
      * left. unfold start in Hy. lia.
      * right. left. unfold start in Hy. lia.
      * right. right. exact Hy.
    + rewrite Eb, Es. unfold start. lia.
    + right. rewrite Et, Eb, Es. split; [exact Hty|]. unfold start. lia.
Qed.

Lemma AllocateMemory_Inv strict m pt h c b k rc target offset_ size_ r :
  tiles m -> Forall (projected strict pt) m ->
  0 <= target -> 0 <= size_ < 2 ^ 64 ->
  AllocateMemory target offset_ size_ (St m pt h c b k rc) = Ok r ->
  exists m' pt',
    snd r = St m' pt' h c b k rc /\ tiles m' /\ Forall (projected strict pt') m'.
Proof.
  intros Hc Hp Hb Hn H. unfold AllocateMemory in H.
  apply bind_inv in H. destruct H as (it & s1 & Hcarve & H).
  destruct (CarveVMA_inv strict m pt h c b k rc target size_ it s1 Hc Hp Hb Hn Hcarve)
    as [-> | (l1 & x & l2 & -> & -> & Hc1 & Hp1 & _ & _ & _)].
  { discriminate H. }
  pose proof (chain_split _ _ _ _ _ Hc1) as (_ & _ & _ & _ & Hlt & _).
  set (s1 := St (l1 ++ x :: l2) pt h c b k rc) in *.
  rewrite (bind_Ok _ _ _ x _ (area_at l1 x l2 s1 eq_refl Hlt)) in H.
  destruct (size x =? size_); [|discriminate H].
  rewrite bind_assert_true in H by reflexivity.
  rewrite (bind_Ok _ _ s1 tt _ (assign_at l1 x l2 _ s1 eq_refl Hlt)) in H.
  unfold s1 in H. norm_state_in H.
  set (x' := set_offset x offset_) in *.
  assert (Hc' : tiles (l1 ++ x' :: l2))
    by (eapply chain_replace; [exact Hc1 | reflexivity | reflexivity]).
  assert (Hp' : Forall (projected strict pt) (l1 ++ x' :: l2)).
  { eapply Forall_replace; [exact Hp1|].
    apply Forall_app in Hp1. destruct Hp1 as [_ Hx]. inversion Hx; subst.
    eapply projected_ext; [| | | |eassumption]; reflexivity. }
  change (base x) with (base x') in H.
  rewrite (Allocate_at l1 x' l2 pt h c b k rc Hc') in H. inversion H; subst. clear H.
  cbn [snd]. eexists. eexists. split; [reflexivity|].
  apply Allocate_inv; assumption.
Qed.

Lemma MapBackingMemory_Inv strict m pt h c b k rc target memory size_ backing r :
  tiles m -> Forall (projected strict pt) m ->
  0 <= target -> 0 <= size_ < 2 ^ 64 ->
  (strict = true -> 0 < memory) ->
  MapBackingMemory target memory size_ backing (St m pt h c b k rc) = Ok r ->
  exists m' pt',
    snd r = St m' pt' h c b k rc /\ tiles m' /\ Forall (projected strict pt') m'.
Proof.
  intros Hc Hp Hb Hn Hmem H. unfold MapBackingMemory in H.
  apply bind_inv in H. destruct H as (it & s1 & Hcarve & H).
  destruct (CarveVMA_inv strict m pt h c b k rc target size_ it s1 Hc Hp Hb Hn Hcarve)
    as [-> | (l1 & x & l2 & -> & -> & Hc1 & Hp1 & _ & _ & _)].
  { discriminate H. }
  pose proof (chain_split _ _ _ _ _ Hc1) as (_ & _ & _ & _ & Hlt & _).
  set (s1 := St (l1 ++ x :: l2) pt h c b k rc) in *.
  rewrite (bind_Ok _ _ _ x _ (area_at l1 x l2 s1 eq_refl Hlt)) in H.
  destruct (size x =? size_); [|discriminate H].
  rewrite bind_assert_true in H by reflexivity.
  unfold s1 in H.
  rewrite (remap_at l1 x l2 pt h c b k rc
             (fun v => set_mapping v VMAType.Mapped memory backing) Hc1 eq_refl eq_refl) in H.
  inversion H; subst. clear H. cbn [snd]. eexists. eexists. split; [reflexivity|].
  apply (remap_inv strict l1 x (set_mapping x VMAType.Mapped memory backing) l2 pt
           Hc1 Hp1 eq_refl eq_refl).
  - intros Hs _. cbn. apply Hmem, Hs.
  - intros Hty. discriminate Hty.
Qed.

(** ** UnmapRange *)

Lemma UnmapRange_loop_null fuel target_end s :
  UnmapRange_loop fuel ItNull target_end s = Undefined.
Proof. destruct fuel; reflexivity. Qed.

Lemma UnmapRange_loop_end fuel target_end s :
  UnmapRange_loop fuel ItEnd target_end s = Ok (tt, s).
Proof. destruct fuel; reflexivity. Qed.

Lemma UnmapRange_loop_at fuel k target_end s :
  UnmapRange_loop fuel (It k) target_end s
  = (v <- area (It k) ;;
     if base v <? target_end then
       match fuel with
       | O => lift OutOfFuel
       | S fuel' =>
           allocated <- Allocate (It k) ;;
           m <- gets vma_map ;;
           next <- lift (iter_next m allocated) ;;
           UnmapRange_loop fuel' next target_end
       end
     else ret tt) s.
Proof. destruct fuel; reflexivity. Qed.

Lemma UnmapRange_loop_spec strict h c b k rc target target_end fuel :
  forall l1 rest pt,
    tiles (l1 ++ rest) -> Forall (projected strict pt) (l1 ++ rest) ->
    (forall a, target <= a < start_of rest -> in_allocated l1 a) ->
    (length rest <= fuel)%nat ->
    exists m' pt',
      UnmapRange_loop fuel (map_begin rest) target_end (St (l1 ++ rest) pt h c b k rc)
      = Ok (tt, St m' pt' h c b k rc)
      /\ tiles m' /\ Forall (projected strict pt') m'
      /\ incl (keys m') (keys (l1 ++ rest))
      /\ forall a, target <= a < target_end -> a < address_space_end -> in_allocated m' a.
Proof.
  induction fuel as [|fuel IH]; intros l1 rest pt Hc Hp Hcov Hfuel.
  - destruct rest as [|v l2]; [|cbn in Hfuel; lia].
    exists (l1 ++ []), pt. cbn [map_begin]. rewrite UnmapRange_loop_end.
    split; [reflexivity|]. split; [exact Hc|]. split; [exact Hp|].
    split; [apply incl_refl|]. intros a Ha Hend.
    destruct (Hcov a) as (u & Hu & Hin & Hty); [cbn [start_of]; lia|].
    exists u. split; [apply in_app_iff; left; exact Hu | split; assumption].
  - destruct rest as [|v l2].
    { exists (l1 ++ []), pt. cbn [map_begin]. rewrite UnmapRange_loop_end.
      split; [reflexivity|]. split; [exact Hc|]. split; [exact Hp|].
      split; [apply incl_refl|]. intros a Ha Hend.
      destruct (Hcov a) as (u & Hu & Hin & Hty); [cbn [start_of]; lia|].
      exists u. split; [apply in_app_iff; left; exact Hu | split; assumption]. }
    cbn [map_begin]. rewrite UnmapRange_loop_at.
    pose proof (chain_split _ _ _ _ _ Hc) as (_ & _ & _ & _ & Hlt & _).
    rewrite (bind_Ok _ _ _ v _ (area_at l1 v l2 (St (l1 ++ v :: l2) pt h c b k rc) eq_refl Hlt)).
    destruct (Z.ltb_spec (base v) target_end) as [Hin|Hout].
    2:{ exists (l1 ++ v :: l2), pt. split; [reflexivity|]. split; [exact Hc|].
        split; [exact Hp|]. split; [apply incl_refl|]. intros a Ha Hend.
        destruct (Hcov a) as (u & Hu & Hua & Hty); [cbn [start_of]; lia|].
        exists u. split; [apply in_app_iff; left; exact Hu | split; assumption]. }
    rewrite (bind_Ok _ _ _ _ _ (Allocate_at l1 v l2 pt h c b k rc Hc)).
    rewrite bind_gets. cbn [vma_map].
    assert (Hc' : tiles (l1 ++ allocated v :: l2))
      by (eapply chain_replace; [exact Hc | reflexivity | reflexivity]).
    destruct (merged_shape _ _ _ _ _ Hc')
      as (l1' & l2' & Emap & Hcm & Ety & Hle & Hge & Hl1 & Hl2 & Hkeys).
    change (base (allocated v)) with (base v) in Hle, Hge.
    change (size (allocated v)) with (size v) in Hge.
    change (type (allocated v)) with VMAType.Allocated in Ety.
    destruct (Allocate_inv strict l1 v l2 pt Hc Hp) as [_ Hpm].
    set (ma := merged_area l1 (allocated v) l2) in *.
    set (pt1 := projection (allocated v) pt) in *.
    rewrite Emap in *.
    rewrite (iter_next_at 0 l1' ma l2' address_space_end Hcm), bind_lift_Ok.
    replace (l1' ++ ma :: l2') with ((l1' ++ [ma]) ++ l2') in *
      by (rewrite <- app_assoc; reflexivity).
    destruct (IH (l1' ++ [ma]) l2' pt1 Hcm Hpm) as (m' & pt' & Erun & Hc2 & Hp2 & Hk2 & Hcov2).
    + intros a Ha.
      assert (Hstart : start_of l2' = base ma + size ma).
      { rewrite <- app_assoc in Hcm. cbn [app] in Hcm.
        pose proof (chain_split _ _ _ _ _ Hcm) as (_ & _ & _ & Hc2 & _).
        destruct l2' as [|n l2']; cbn [start_of chain] in *; [symmetry; exact Hc2|].
        destruct Hc2 as (Hb & _). exact Hb. }
      destruct (Z_lt_dec a (base ma)) as [Hlow|Hhigh].
      * destruct (Hcov a) as (u & Hu & Hua & Hty); [cbn [start_of]; lia|].
        exists u. split; [|split; assumption]. apply in_app_iff.
        destruct Hl1 as [-> | (p & -> & Ep)]; [left; exact Hu|].
        apply in_app_iff in Hu. destruct Hu as [Hu | [<- | []]]; [left; exact Hu|].
        exfalso. lia.
      * exists ma. split; [apply in_app_iff; right; left; reflexivity|].
        split; [lia | exact Ety].
    + destruct Hl2 as [-> | (n & ->)]; cbn [length] in *; lia.
    + exists m', pt'. split; [exact Erun|]. split; [exact Hc2|]. split; [exact Hp2|].
      split; [|exact Hcov2].
      intros y Hy. apply Hk2 in Hy. apply Hkeys in Hy.
      unfold keys in *. rewrite map_app in *. cbn [map] in *. exact Hy.
Qed.

Lemma any_of_end m last pred : any_of m ItEnd last pred = false.
Proof. induction m as [|v m IH]; [reflexivity|]. cbn [any_of iter_eqb]. exact IH. Qed.

Lemma split_keys l1 v l2 off :
  keys (l1 ++ set_size v off :: split_right v off :: l2)
  = keys l1 ++ base v :: (base v + off) :: keys l2.
Proof.
  unfold keys. rewrite map_app. cbn [map base set_size].
  destruct (split_right_fields v off) as (-> & _). reflexivity.
Qed.

Lemma keys_decompose m t :
  In t (keys m) -> exists l1 x l2, m = l1 ++ x :: l2 /\ base x = t.
Proof.
  unfold keys. intros H. apply in_map_iff in H. destruct H as (x & E & Hx).
  apply in_split in Hx. destruct Hx as (l1 & l2 & ->). exists l1, x, l2. auto.
Qed.

Lemma FindVMA_state t s it s1 : FindVMA t s = Ok (it, s1) -> s1 = s.
Proof.
  unfold FindVMA. rewrite bind_gets. destruct (address_space_end <=? t).
  - unfold ret. congruence.
  - unfold lift. destruct (iter_prev _ _); cbn [rbind]; congruence.
Qed.

Lemma area_state it s v s1 : area it s = Ok (v, s1) -> s1 = s.
Proof.
  unfold area. rewrite bind_gets. unfold lift.
  destruct (deref _ _); cbn [rbind]; congruence.
Qed.

(** What a returning [CarveVMARange] leaves: the refusal [ItNull], or a map
    with an area that starts at [target] and a boundary at the end of the
    range. *)
Lemma CarveVMARange_inv strict m pt h c b k rc target size_ it s1 :
  tiles m -> Forall (projected strict pt) m ->
  0 <= target -> 0 <= size_ < 2 ^ 64 ->
  CarveVMARange target size_ (St m pt h c b k rc) = Ok (it, s1) ->
  it = ItNull
  \/ exists m1,
       s1 = St m1 pt h c b k rc /\ it = It target
       /\ tiles m1 /\ Forall (projected strict pt) m1
       /\ In target (keys m1)
       /\ (target + size_ < address_space_end -> In (target + size_) (keys m1))
       /\ incl (keys m1) (target :: target + size_ :: keys m)
       /\ target mod 4096 = 0 /\ size_ mod 4096 = 0 /\ 0 < size_
       /\ target < address_space_end /\ target + size_ < 2 ^ 64.
Proof.
  intros Hc Hp Hb Hn H. pose proof pow64 as P. pose proof address_space_end_eq as Eend.
  unfold CarveVMARange in H. set (s := St m pt h c b k rc) in *.
  apply bind_inv in H. destruct H as (? & ? & H1 & H).
  apply assert_inv in H1. destruct H1 as [Han ->].
  apply bind_inv in H. destruct H as (? & ? & H1 & H).
  apply assert_inv in H1. destruct H1 as [Hab ->].
  apply bind_inv in H. destruct H as (? & ? & H1 & H).
  apply assert_inv in H1. destruct H1 as [Hwrap ->].
  apply bind_inv in H. destruct H as (? & ? & H1 & H).
  apply assert_inv in H1. destruct H1 as [Hpos ->].
  rewrite land_page_mask in Han, Hab. apply Z.eqb_eq in Han, Hab.
  apply Z.leb_le in Hwrap. apply Z.ltb_lt in Hpos.
  assert (Ete : add64 target size_ = target + size_ /\ target + size_ < 2 ^ 64).
  { destruct (Z_lt_dec (target + size_) (2 ^ 64)) as [Hs|Hl].
    - split; [apply add64_small; lia | exact Hs].
    - exfalso. unfold add64, wrap64 in Hwrap.
      assert (E : (target + size_) mod 2 ^ 64 = target + size_ - 2 ^ 64).
      { rewrite <- (Z.mod_small (target + size_ - 2 ^ 64) (2 ^ 64)).
        - rewrite <- (Z_mod_plus_full (target + size_ - 2 ^ 64) 1 (2 ^ 64)). f_equal. lia.
        - assert (0 <= target < 2 ^ 64); [|lia].
          split; [exact Hb|]. destruct (Z_lt_dec target (2 ^ 64)); [assumption|].
          exfalso. pose proof (Z.mod_pos_bound (target + size_) (2 ^ 64)). lia. }
      lia. }
  destruct Ete as [Ete Hnowrap]. rewrite Ete in H.
  set (te := target + size_) in *.
  destruct (Z_le_dec address_space_end target) as [Hout|Hin].
  { rewrite (bind_Ok _ _ _ _ _ (FindVMA_end s target Hout)) in H.
    unfold StripIterConstness in H. rewrite bind_ret, bind_gets, any_of_end in H.
    discriminate H. }
  destruct (chain_locate 0 m address_space_end target Hc) as (l1 & v & l2 & Em & Hv); [lia|].
  assert (Hms : vma_map s = l1 ++ v :: l2) by (unfold s; cbn [vma_map]; exact Em).
  rewrite Em in Hc, Hp.
  pose proof (chain_split _ _ _ _ _ Hc) as (Hc1 & Hs & Ha & Hc2 & Hlt & Hgt & Hge).
  rewrite (bind_Ok _ _ _ _ _ (FindVMA_at 0 l1 v l2 address_space_end s target
                                Hms Hc Hv ltac:(lia))) in H.
  unfold StripIterConstness in H. rewrite bind_ret, bind_gets in H.
  destruct (any_of _ _ _ _); [left; unfold ret in H; congruence|].
  right.
  rewrite (bind_Ok _ _ _ v _ (area_at l1 v l2 s Hms Hlt)) in H.
  apply bind_inv in H. destruct H as (begin_vma & sa & Hspl & H).
  (* the map once the start is split off *)
  assert (Hstart : exists m1,
    sa = St m1 pt h c b k rc /\ begin_vma = It target
    /\ tiles m1 /\ Forall (projected strict pt) m1
    /\ In target (keys m1) /\ incl (keys m1) (target :: keys m)).
  { destruct (Z.eqb_spec target (base v)) as [E|Hne]; cbn [negb] in Hspl.
    - exists (l1 ++ v :: l2). unfold ret in Hspl. inversion Hspl; subst sa begin_vma.
      unfold s. rewrite Em, E.
      split; [reflexivity|]. split; [reflexivity|]. split; [exact Hc|]. split; [exact Hp|].
      split.
      + unfold keys. rewrite map_app. apply in_app_iff. right. left. reflexivity.
      + intros y Hy. right. exact Hy.
    - exists (l1 ++ set_size v (target - base v) :: split_right v (target - base v) :: l2).
      pose proof (chain_le _ _ _ Hc1).
      rewrite sub64_small in Hspl by lia.
      rewrite (SplitVMA_at 0 l1 v l2 address_space_end s (target - base v)
                 Hms Hc ltac:(lia) ltac:(lia) ltac:(lia)) in Hspl.
      replace (base v + (target - base v)) with target in Hspl by lia.
      inversion Hspl; subst sa begin_vma.
      split; [reflexivity|]. split; [reflexivity|].
      assert (Hoa : (target - base v) mod 4096 = 0).
      { pose proof (chain_aligned _ _ _ Hc1 eq_refl) as Hbv.
        rewrite Zminus_mod, Hab, Hbv. reflexivity. }
      split; [apply chain_after_split; [exact Hc | lia | exact Hoa]|].
      split.
      { apply Forall_app in Hp. destruct Hp as [Hp1 Hp2]. inversion Hp2; subst.
        destruct (projected_split strict pt v (target - base v)) as [Hl Hr]; try lia;
          [assumption|].
        apply Forall_app. split; [exact Hp1|]. constructor; [exact Hl|].
        constructor; assumption. }
      rewrite split_keys. split.
      + apply in_app_iff. right. right. left. lia.
      + intros y Hy. apply in_app_iff in Hy. rewrite Em. unfold keys. rewrite map_app.
        cbn [map In]. rewrite in_app_iff. cbn [In].
        destruct Hy as [Hy | [Hy | [Hy | Hy]]]; [tauto | tauto | left; lia | tauto]. }
  destruct Hstart as (m1 & -> & -> & Hcm1 & Hpm1 & Hkey1 & Hincl1).
  set (s1' := St m1 pt h c b k rc) in *.
  assert (Hfin : exists m2,
    s1 = St m2 pt h c b k rc /\ it = It target
    /\ tiles m2 /\ Forall (projected strict pt) m2
    /\ In target (keys m2)
    /\ (te < address_space_end -> In te (keys m2))
    /\ incl (keys m2) (te :: keys m1)).
  { destruct (Z_le_dec address_space_end te) as [Hte|Hte].
    - rewrite (bind_Ok _ _ _ _ _ (FindVMA_end s1' te Hte)) in H.
      unfold StripIterConstness in H. rewrite !bind_ret in H. cbn [iter_eqb negb] in H.
      rewrite bind_ret in H. unfold ret in H. inversion H; subst it s1.
      exists m1. repeat split; try assumption; try lia.
      intros y Hy. right. exact Hy.
    - destruct (chain_locate 0 m1 address_space_end te Hcm1) as (j1 & w & j2 & Em1 & Hw);
        [unfold te; lia|].
      assert (Hms1 : vma_map s1' = j1 ++ w :: j2) by (unfold s1'; cbn [vma_map]; exact Em1).
      rewrite Em1 in Hcm1, Hpm1.
      pose proof (chain_split _ _ _ _ _ Hcm1) as (Hcj & Hsw & Haw & _ & Hltw & _).
      pose proof (chain_le _ _ _ Hcj).
      rewrite (bind_Ok _ _ _ _ _ (FindVMA_at 0 j1 w j2 address_space_end s1' te
                                    Hms1 Hcm1 Hw ltac:(lia))) in H.
      unfold StripIterConstness in H. rewrite !bind_ret in H. cbn [iter_eqb negb] in H.
      rewrite bind_bind in H.
      rewrite (bind_Ok _ _ _ w _ (area_at j1 w j2 s1' Hms1 Hltw)) in H.
      destruct (Z.eqb_spec te (base w)) as [E|Hne]; cbn [negb] in H.
      + rewrite !bind_ret in H. unfold ret in H. inversion H; subst it s1.
        exists m1. split; [reflexivity|]. split; [reflexivity|].
        rewrite Em1 in *. repeat split; try assumption.
        * intros _. unfold keys. rewrite map_app. apply in_app_iff. right. left.
          symmetry. exact E.
        * intros y Hy. right. exact Hy.
      + rewrite sub64_small in H by lia. rewrite bind_bind in H.
        rewrite (bind_Ok _ _ _ _ _ (SplitVMA_at 0 j1 w j2 address_space_end s1' (te - base w)
                                      Hms1 Hcm1 ltac:(lia) ltac:(lia) ltac:(lia))) in H.
        rewrite !bind_ret in H. unfold ret in H. inversion H; subst it s1. clear H.
        exists (j1 ++ set_size w (te - base w) :: split_right w (te - base w) :: j2).
        split; [reflexivity|]. split; [reflexivity|].
        assert (Hoa : (te - base w) mod 4096 = 0).
        { pose proof (chain_aligned _ _ _ Hcj eq_refl) as Hbw.
          assert (Hte4 : te mod 4096 = 0)
            by (unfold te; rewrite <- Zplus_mod_idemp_l, Hab, Z.add_0_l; exact Han).
          rewrite Zminus_mod, Hte4, Hbw. reflexivity. }
        split; [apply chain_after_split; [exact Hcm1 | lia | exact Hoa]|].
        split.
        { apply Forall_app in Hpm1. destruct Hpm1 as [Hp1 Hp2]. inversion Hp2; subst.
          destruct (projected_split strict pt w (te - base w)) as [Hl Hr]; try lia;
            [assumption|].
          apply Forall_app. split; [exact Hp1|]. constructor; [exact Hl|].
          constructor; assumption. }
        rewrite split_keys. rewrite Em1 in Hkey1, Hincl1.
        unfold keys in Hkey1. rewrite map_app in Hkey1. cbn [map] in Hkey1.
        split; [|split].
        * rewrite in_app_iff in *. cbn [In] in *. tauto.
        * intros _. apply in_app_iff. right. right. left. lia.
        * intros y Hy. rewrite Em1. unfold keys. rewrite map_app. cbn [map In].
          rewrite in_app_iff in *. cbn [In] in *.
          destruct Hy as [Hy | [Hy | [Hy | Hy]]]; [tauto | tauto | left; lia | tauto]. }
  destruct Hfin as (m2 & -> & -> & Hcm2 & Hpm2 & Hkey2 & Hkte & Hincl2).
  exists m2. split; [reflexivity|]. split; [reflexivity|].
  repeat split; try assumption; try lia.
  intros y Hy. apply Hincl2 in Hy. destruct Hy as [Hy | Hy].
  - right. left. exact Hy.
  - apply Hincl1 in Hy. destruct Hy as [Hy | Hy]; [left; exact Hy | right; right; exact Hy].
Qed.

Lemma UnmapRange_Inv strict m pt h c b k rc target size_ r :
  tiles m -> Forall (projected strict pt) m ->
  0 <= target -> 0 <= size_ < 2 ^ 64 ->
  UnmapRange target size_ (St m pt h c b k rc) = Ok r ->
  exists m' pt',
    r = (tt, St m' pt' h c b k rc)
    /\ tiles m' /\ Forall (projected strict pt') m'
    /\ incl (keys m') (target :: target + size_ :: keys m)
    /\ (forall a, target <= a < target + size_ -> a < address_space_end ->
        in_allocated m' a)
    /\ target mod 4096 = 0 /\ size_ mod 4096 = 0 /\ 0 < size_
    /\ target < address_space_end.
Proof.
  intros Hc Hp Hb Hn H. unfold UnmapRange in H.
  apply bind_inv in H. destruct H as (it & s1 & Hcarve & H).
  destruct (CarveVMARange_inv strict m pt h c b k rc target size_ it s1 Hc Hp Hb Hn Hcarve)
    as [-> | (m1 & -> & -> & Hc1 & Hp1 & Hkey & _ & Hincl & Hab & Han & Hpos & Hin & Hnw)].
  { rewrite bind_gets in H. apply bind_inv in H. destruct H as (? & ? & H & _).
    rewrite UnmapRange_loop_null in H. discriminate H. }
  destruct (keys_decompose m1 target Hkey) as (l1 & x & l2 & -> & Ex).
  rewrite bind_gets in H. cbn [vma_map] in H.
  rewrite add64_small in H by lia.
  destruct (UnmapRange_loop_spec strict h c b k rc target (target + size_)
              (length (l1 ++ x :: l2)) l1 (x :: l2) pt Hc1 Hp1)
    as (m' & pt' & Erun & Hc2 & Hp2 & Hk2 & Hcov).
  { intros a Ha. cbn [start_of] in Ha. lia. }
  { rewrite length_app. lia. }
  cbn [map_begin] in Erun. rewrite Ex in Erun.
  rewrite (bind_Ok _ _ _ _ _ Erun) in H.
  apply bind_inv in H. destruct H as (found & s2 & Hfind & H).
  apply FindVMA_state in Hfind. subst s2.
  apply bind_inv in H. destruct H as (v & s3 & Harea & H).
  apply area_state in Harea. subst s3.
  destruct r as [[] s4]. apply assert_inv in H. destruct H as [_ ->].
  exists m', pt'. split; [reflexivity|]. split; [exact Hc2|]. split; [exact Hp2|].
  split; [|repeat split; assumption].
  intros y Hy. apply Hincl, Hk2, Hy.
Qed.

(** ** The public interface keeps the invariant *)

Lemma AlignUp_u64 v sz : is_u64 (AlignUp v sz).
Proof. unfold AlignUp, add64, wrap64, is_u64. apply Z.mod_pos_bound. reflexivity. Qed.

Lemma FindFreeRegion_nonneg s size_ : 0 <= FindFreeRegion s address_space_base size_.
Proof.
  unfold FindFreeRegion. destruct (find_free _ _ _); [|lia].
  unfold address_space_base. lia.
Qed.

Lemma set_device_mapped_inv cpu_addr size_ dm s a s' :
  set_device_mapped cpu_addr size_ dm s = Ok (a, s') ->
  s' = with_callout s (SetMemoryAttribute cpu_addr size_ dm).
Proof.
  unfold set_device_mapped, call. rewrite bind_modify, bind_gets. intros H.
  apply assert_inv in H. destruct H as [_ ->]. reflexivity.
Qed.

Lemma AllocateSpace_Inv strict s size_ align r s' :
  Inv strict s -> is_u64 size_ ->
  AllocateSpace size_ align s = Ok (r, s') ->
  Inv strict s' /\ same_services s s'.
Proof.
  intros [Hc Hp] Hn H. destruct s as [m pt h c b k rc]. cbn [vma_map page_table] in *.
  unfold AllocateSpace in H. rewrite bind_gets in H.
  apply bind_inv in H. destruct H as (it & s1 & Halloc & H).
  destruct (AllocateMemory_Inv strict m pt h c b k rc _ 0 _ _ Hc Hp
              (FindFreeRegion_nonneg _ _) (AlignUp_u64 _ _) Halloc)
    as (m' & pt' & E & Hc' & Hp').
  cbn [snd] in E. subst s1. unfold ret in H. inversion H; subst.
  split; [split; assumption | repeat split].
Qed.

Lemma AllocateSpaceAt_Inv strict s gpu_addr size_ align r s' :
  Inv strict s -> is_u64 gpu_addr -> is_u64 size_ ->
  AllocateSpaceAt gpu_addr size_ align s = Ok (r, s') ->
  Inv strict s' /\ same_services s s'.
Proof.
  intros [Hc Hp] Hg Hn H. destruct s as [m pt h c b k rc]. cbn [vma_map page_table] in *.
  unfold AllocateSpaceAt in H.
  apply bind_inv in H. destruct H as (it & s1 & Halloc & H).
  destruct (AllocateMemory_Inv strict m pt h c b k rc _ 0 _ _ Hc Hp
              (proj1 Hg) (AlignUp_u64 _ _) Halloc)
    as (m' & pt' & E & Hc' & Hp').
  cbn [snd] in E. subst s1. unfold ret in H. inversion H; subst.
  split; [split; assumption | repeat split].
Qed.

Lemma MapBufferEx_Inv strict s cpu_addr size_ r s' :
  Inv strict s -> is_u64 cpu_addr -> is_u64 size_ ->
  (strict = true -> bus_backed s) ->
  MapBufferEx cpu_addr size_ s = Ok (r, s') ->
  Inv strict s' /\ same_services s s'.
Proof.
  intros [Hc Hp] Hcpu Hn Hbus H. destruct s as [m pt h c b k rc].
  cbn [vma_map page_table] in *.
  unfold MapBufferEx in H. rewrite bind_gets in H. cbn [Memory_GetPointer] in H.
  apply bind_inv in H. destruct H as (it & s1 & Hmap & H).
  destruct (MapBackingMemory_Inv strict m pt h c b k rc _ _ _ _ _ Hc Hp
              (FindFreeRegion_nonneg _ _) (AlignUp_u64 _ _)
              (fun Hs => Hbus Hs cpu_addr (proj1 Hcpu)) Hmap)
    as (m' & pt' & E & Hc' & Hp').
  cbn [snd] in E. subst s1.
  apply bind_inv in H. destruct H as (? & s2 & Hdev & H).
  apply set_device_mapped_inv in Hdev. subst s2.
  unfold ret in H. inversion H; subst.
  split; [split; assumption | repeat split].
Qed.

Lemma MapBufferExAt_Inv strict s cpu_addr gpu_addr size_ r s' :
  Inv strict s -> is_u64 cpu_addr -> is_u64 gpu_addr -> is_u64 size_ ->
  (strict = true -> bus_backed s) ->
  MapBufferExAt cpu_addr gpu_addr size_ s = Ok (r, s') ->
  Inv strict s' /\ same_services s s'.
Proof.
  intros [Hc Hp] Hcpu Hg Hn Hbus H. destruct s as [m pt h c b k rc].
  cbn [vma_map page_table] in *.
  unfold MapBufferExAt in H.
  apply bind_inv in H. destruct H as (? & s0 & Ha & H).
  apply assert_inv in Ha. destruct Ha as [_ ->].
  rewrite bind_gets in H. cbn [Memory_GetPointer] in H.
  apply bind_inv in H. destruct H as (it & s1 & Hmap & H).
  destruct (MapBackingMemory_Inv strict m pt h c b k rc _ _ _ _ _ Hc Hp
              (proj1 Hg) (AlignUp_u64 _ _)
              (fun Hs => Hbus Hs cpu_addr (proj1 Hcpu)) Hmap)
    as (m' & pt' & E & Hc' & Hp').
  cbn [snd] in E. subst s1.
  apply bind_inv in H. destruct H as (? & s2 & Hdev & H).
  apply set_device_mapped_inv in Hdev. subst s2.
  unfold ret in H. inversion H; subst.
  split; [split; assumption | repeat split].
Qed.

(** [UnmapBuffer] besides leaves every address of the range in an
    [Allocated] area. *)
Lemma UnmapBuffer_Inv strict s gpu_addr size_ r s' :
  Inv strict s -> is_u64 gpu_addr -> is_u64 size_ ->
  UnmapBuffer gpu_addr size_ s = Ok (r, s') ->
  Inv strict s' /\ same_services s s'
  /\ r = gpu_addr
  /\ (forall a, gpu_addr <= a < gpu_addr + AlignUp size_ page_size ->
        a < address_space_end -> in_allocated (vma_map s') a)
  /\ incl (keys (vma_map s'))
       (gpu_addr :: gpu_addr + AlignUp size_ page_size :: keys (vma_map s))
  /\ 0 < AlignUp size_ page_size.
Proof.
  intros [Hc Hp] Hg Hn H. destruct s as [m pt h c b k rc].
  cbn [vma_map page_table] in *.
  unfold UnmapBuffer in H.
  apply bind_inv in H. destruct H as (? & s0 & Ha & H).
  apply assert_inv in Ha. destruct Ha as [_ ->].
  rewrite bind_gets in H.
  destruct (GpuToCpuAddress _ _) as [cpu_addr|]; [|discriminate H].
  rewrite (bind_Ok _ _ _ _ _ (GPU_FlushAndInvalidateRegion_Ok _ _ _)) in H.
  norm_state_in H.
  apply bind_inv in H. destruct H as (u & s1 & Hun & H).
  destruct (UnmapRange_Inv strict m pt _ _ b k _ _ _ _ Hc Hp (proj1 Hg) (AlignUp_u64 _ _) Hun)
    as (m' & pt' & E & Hc' & Hp' & Hincl & Hcov & _ & _ & Hpos & _).
  inversion E; subst u s1. clear E.
  apply bind_inv in H. destruct H as (? & s2 & Hdev & H).
  apply set_device_mapped_inv in Hdev. subst s2.
  unfold ret in H. inversion H; subst.
  split; [split; assumption|]. split; [repeat split|]. split; [reflexivity|].
  split; [exact Hcov | split; [exact Hincl | exact Hpos]].
Qed.

(** *** The accessors leave the map and the page table alone *)

Lemma same_tables_refl s : same_tables s s.
Proof. repeat split. Qed.

Lemma same_tables_trans s1 s2 s3 :
  same_tables s1 s2 -> same_tables s2 s3 -> same_tables s1 s3.
Proof. intros (A & B & C) (A' & B' & C'). repeat split; congruence. Qed.

Lemma at_page_inv {A : Type} (v : Z -> A) i s a s' :
  at_page v i s = Ok (a, s') -> s' = s.
Proof.
  unfold at_page. destruct ((0 <=? i) && (i <? pointers_size)); [|discriminate].
  unfold ret. congruence.
Qed.

Lemma memcpy_from_inv p off n s l s' : memcpy_from p off n s = Ok (l, s') -> s' = s.
Proof.
  unfold memcpy_from. destruct (p =? nullptr); [discriminate|].
  rewrite bind_gets. unfold ret. congruence.
Qed.

Lemma memcpy_to_inv p off l s a s' :
  memcpy_to p off l s = Ok (a, s') -> same_tables s s'.
Proof.
  unfold memcpy_to. destruct (p =? nullptr); [discriminate|].
  unfold modify. intros H. inversion H; subst. repeat split.
Qed.

Lemma Write_tables sizeof_T addr data s a s' :
  Write sizeof_T addr data s = Ok (a, s') -> same_tables s s'.
Proof.
  unfold Write. destruct (negb (IsAddressValid addr)).
  - unfold ret. intros H. inversion H; subst. apply same_tables_refl.
  - rewrite bind_gets. destruct (negb _).
    + unfold modify. intros H. inversion H; subst. repeat split.
    + destruct (attributes _ _); [|discriminate].
      unfold ret. intros H. inversion H; subst. apply same_tables_refl.
Qed.

Lemma ReadBlock_loop_tables fuel :
  forall rem page_index page_offset dest s r s',
    ReadBlock_loop fuel rem page_index page_offset dest s = Ok (r, s') ->
    same_tables s s'.
Proof.
  induction fuel as [|fuel IH]; intros rem page_index page_offset dest s r s' H;
    cbn [ReadBlock_loop] in H; destruct (0 <? rem);
    try (unfold ret in H; inversion H; subst; apply same_tables_refl);
    try discriminate H.
  rewrite bind_gets in H.
  apply bind_inv in H. destruct H as (attr & s1 & Hat & H).
  apply at_page_inv in Hat. subst s1.
  destruct attr; [discriminate H|].
  rewrite (bind_Ok _ _ _ _ _ (Rasterizer_FlushRegion_Ok _ _ _)) in H.
  apply bind_inv in H. destruct H as (bytes & s2 & Hcp & H).
  apply memcpy_from_inv in Hcp. subst s2.
  apply IH in H. destruct H as (A & B & C). repeat split; assumption.
Qed.

Lemma WriteBlock_loop_tables fuel :
  forall rem page_index page_offset src s r s',
    WriteBlock_loop fuel rem page_index page_offset src s = Ok (r, s') ->
    same_tables s s'.
Proof.
  induction fuel as [|fuel IH]; intros rem page_index page_offset src s r s' H;
    cbn [WriteBlock_loop] in H; destruct (0 <? rem);
    try (unfold ret in H; inversion H; subst; apply same_tables_refl);
    try discriminate H.
  rewrite bind_gets in H.
  apply bind_inv in H. destruct H as (attr & s1 & Hat & H).
  apply at_page_inv in Hat. subst s1.
  destruct attr; [discriminate H|].
  rewrite (bind_Ok _ _ _ _ _ (Rasterizer_InvalidateRegion_Ok _ _ _)) in H.
  apply bind_inv in H. destruct H as (? & s2 & Hcp & H).
  apply memcpy_to_inv in Hcp.
  apply IH in H. eapply same_tables_trans; [|exact H].
  destruct Hcp as (A & B & C). repeat split; assumption.
Qed.

Lemma Inv_same_tables strict s s' : same_tables s s' -> Inv strict s -> Inv strict s'.
Proof. intros (A & B & _) [Hc Hp]. unfold Inv. rewrite A, B. split; assumption. Qed.

(** *** The constructor *)

Lemma MemoryManager_new_Inv strict h bus kernel rc s :
  MemoryManager_new h bus kernel rc = Ok s ->
  Inv strict s /\ Memory_GetPointer s = bus.
Proof.
  unfold MemoryManager_new. cbn [map_emplace].
  set (initial_vma := set_size default_vma address_space_end).
  assert (Hc : tiles ([] ++ initial_vma :: [])).
  { cbn [app]. unfold tiles. cbn [chain base size initial_vma set_size default_vma].
    repeat split; try reflexivity. }
  rewrite (UpdatePageTableForVMA_at initial_vma [initial_vma] _ h [] bus kernel rc
             (tiles_region [] initial_vma [] Hc)).
  cbn [rbind snd]. intros H. inversion H; subst. clear H.
  split; [|reflexivity]. split; [exact Hc|]. cbn [vma_map page_table].
  constructor; [|constructor].
  apply projection_inside.
  - exact (tiles_region [] initial_vma [] Hc).
  - intros _ Hty. discriminate Hty.
  - intros Hty. discriminate Hty.
Qed.

(** *** Every reachable manager satisfies the invariant *)

Lemma reachable_Inv_weak s : reachable s -> Inv false s.
Proof.
  assert (Hno : forall s0, false = true -> bus_backed s0) by (intros ? E; discriminate E).
  intros Hr. induction Hr as
    [h bus kernel rc s Hnew
    | s size_ align r s' Hr IH Hn H
    | s gpu_addr size_ align r s' Hr IH Hg Hn H
    | s cpu_addr size_ r s' Hr IH Hcpu Hn H
    | s cpu_addr gpu_addr size_ r s' Hr IH Hcpu Hg Hn H
    | s gpu_addr size_ r s' Hr IH Hg Hn H
    | s sizeof_T addr data s' Hr IH H
    | s src_addr size_ dest s' Hr IH H
    | s dest_addr src_buffer size_ s' Hr IH H
    | s h cache Hr IH].
  - apply (MemoryManager_new_Inv false) in Hnew. apply Hnew.
  - exact (proj1 (AllocateSpace_Inv false s _ _ _ _ IH Hn H)).
  - exact (proj1 (AllocateSpaceAt_Inv false s _ _ _ _ _ IH Hg Hn H)).
  - exact (proj1 (MapBufferEx_Inv false s _ _ _ _ IH Hcpu Hn (Hno s) H)).
  - exact (proj1 (MapBufferExAt_Inv false s _ _ _ _ _ IH Hcpu Hg Hn (Hno s) H)).
  - exact (proj1 (UnmapBuffer_Inv false s _ _ _ _ IH Hg Hn H)).
  - eapply Inv_same_tables; [eapply Write_tables, H | exact IH].
  - eapply Inv_same_tables; [eapply ReadBlock_loop_tables, H | exact IH].
  - unfold WriteBlock in H. destruct (_ <? _); [discriminate H|].
    eapply Inv_same_tables; [eapply WriteBlock_loop_tables, H | exact IH].
  - exact IH.
Qed.

Lemma reachable_Inv s : reachable s -> bus_backed s -> Inv true s.
Proof.
  intros Hr. induction Hr as
    [h bus kernel rc s Hnew
    | s size_ align r s' Hr IH Hn H
    | s gpu_addr size_ align r s' Hr IH Hg Hn H
    | s cpu_addr size_ r s' Hr IH Hcpu Hn H
    | s cpu_addr gpu_addr size_ r s' Hr IH Hcpu Hg Hn H
    | s gpu_addr size_ r s' Hr IH Hg Hn H
    | s sizeof_T addr data s' Hr IH H
    | s src_addr size_ dest s' Hr IH H
    | s dest_addr src_buffer size_ s' Hr IH H
    | s h cache Hr IH]; intros Hbus;
    try pose proof (reachable_Inv_weak s Hr) as Hweak.
  - apply (MemoryManager_new_Inv true) in Hnew. apply Hnew.
  - destruct (AllocateSpace_Inv false s _ _ _ _ Hweak Hn H) as (_ & Eb & _).
    unfold bus_backed in *. rewrite Eb in Hbus.
    exact (proj1 (AllocateSpace_Inv true s _ _ _ _ (IH Hbus) Hn H)).
  - destruct (AllocateSpaceAt_Inv false s _ _ _ _ _ Hweak Hg Hn H) as (_ & Eb & _).
    unfold bus_backed in *. rewrite Eb in Hbus.
    exact (proj1 (AllocateSpaceAt_Inv true s _ _ _ _ _ (IH Hbus) Hg Hn H)).
  - destruct (MapBufferEx_Inv false s _ _ _ _ Hweak Hcpu Hn
                ltac:(intros E; discriminate E) H) as (_ & Eb & _).
    unfold bus_backed in *. rewrite Eb in Hbus.
    exact (proj1 (MapBufferEx_Inv true s _ _ _ _ (IH Hbus) Hcpu Hn (fun _ => Hbus) H)).
  - destruct (MapBufferExAt_Inv false s _ _ _ _ _ Hweak Hcpu Hg Hn
                ltac:(intros E; discriminate E) H) as (_ & Eb & _).
    unfold bus_backed in *. rewrite Eb in Hbus.
    exact (proj1 (MapBufferExAt_Inv true s _ _ _ _ _ (IH Hbus) Hcpu Hg Hn
                    (fun _ => Hbus) H)).
  - destruct (UnmapBuffer_Inv false s _ _ _ _ Hweak Hg Hn H) as (_ & (Eb & _) & _).
    unfold bus_backed in *. rewrite Eb in Hbus.
    exact (proj1 (UnmapBuffer_Inv true s _ _ _ _ (IH Hbus) Hg Hn H)).
  - pose proof (Write_tables _ _ _ _ _ _ H) as Ht.
    eapply Inv_same_tables; [exact Ht|]. apply IH.
    destruct Ht as (_ & _ & Eb). unfold bus_backed in *. rewrite Eb in Hbus. exact Hbus.
  - pose proof (ReadBlock_loop_tables _ _ _ _ _ _ _ _ H) as Ht.
    eapply Inv_same_tables; [exact Ht|]. apply IH.
    destruct Ht as (_ & _ & Eb). unfold bus_backed in *. rewrite Eb in Hbus. exact Hbus.
  - unfold WriteBlock in H. destruct (_ <? _); [discriminate H|].
    pose proof (WriteBlock_loop_tables _ _ _ _ _ _ _ _ H) as Ht.
    eapply Inv_same_tables; [exact Ht|]. apply IH.
    destruct Ht as (_ & _ & Eb). unfold bus_backed in *. rewrite Eb in Hbus. exact Hbus.
  - exact (IH Hbus).
Qed.

Lemma chain_In_aligned lo m hi v :
  chain lo m hi -> lo mod 4096 = 0 -> In v m -> base v mod 4096 = 0.
Proof.
  intros Hc Hlo Hv. apply in_split in Hv. destruct Hv as (l1 & l2 & ->).
  pose proof (chain_split _ _ _ _ _ Hc) as (Hc1 & _).
  exact (chain_aligned _ _ _ Hc1 Hlo).
Qed.

Lemma tiles_In m v :
  tiles m -> In v m ->
  0 <= base v /\ 0 < size v /\ base v mod 4096 = 0 /\ size v mod 4096 = 0
  /\ base v + size v <= address_space_end.
Proof.
  intros Hc Hv. destruct (chain_In _ _ _ _ Hc Hv) as (H1 & H2 & H3 & H4).
  pose proof (chain_In_aligned _ _ _ _ Hc eq_refl Hv). repeat split; assumption.
Qed.

(** The page of an address inside an area is one of the pages of the area. *)
Lemma page_in_area m v a :
  tiles m -> In v m -> base v <= a < base v + size v ->
  0 <= a / 4096 /\ base v <= a / 4096 * 4096 < base v + size v
  /\ a / 4096 < pointers_size.
Proof.
  intros Hc Hv Ha. destruct (tiles_In m v Hc Hv) as (Hb & Hs & Hab & Has & He).
  rewrite address_space_end_eq in He. rewrite pointers_size_eq.
  assert (base v = 4096 * (base v / 4096))
    by (rewrite (Z.div_mod (base v) 4096) at 1 by lia; lia).
  pose proof (Z.div_mod a 4096 ltac:(lia)). pose proof (Z.mod_pos_bound a 4096 ltac:(lia)).
  repeat split; lia.
Qed.

(** ** UnmapBuffer clears the translation *)

Lemma AlignUp_ge size_ :
  is_u64 size_ -> 0 < AlignUp size_ page_size -> size_ <= AlignUp size_ page_size.
Proof.
  unfold is_u64, AlignUp, add64, wrap64. rewrite page_size_eq. intros Hn Hpos.
  pose proof pow64 as P.
  set (pad := (4096 - size_ mod 4096) mod 4096) in *.
  assert (Hpad : 0 <= pad < 4096) by (apply Z.mod_pos_bound; lia).
  destruct (Z_lt_dec (size_ + pad) (2 ^ 64)) as [Hs|Hl].
  - rewrite Z.mod_small by lia. lia.
  - exfalso.
    assert (Hm : (size_ + pad) mod 4096 = 0).
    { unfold pad. rewrite Zplus_mod_idemp_r.
      replace (size_ + (4096 - size_ mod 4096)) with (size_ - size_ mod 4096 + 1 * 4096) by lia.
      rewrite Z_mod_plus_full. rewrite Zminus_mod_idemp_r, Z.sub_diag. reflexivity. }
    assert (E : size_ + pad = 2 ^ 64).
    { assert (H64 : 2 ^ 64 = 4096 * 4503599627370496) by reflexivity.
      pose proof (Z.div_mod (size_ + pad) 4096 ltac:(lia)) as Hdm. rewrite Hm in Hdm. lia. }
    rewrite E, Z.mod_same in Hpos by lia. lia.
Qed.

(** ** The round trip over reachable managers *)

Lemma projected_mapped_pages pt v :
  type v = VMAType.Mapped -> projected true pt v ->
  0 < backing_memory v /\ mapped_pages pt (base v) (size v) (backing_memory v).
Proof.
  intros Hty (Hmem & Hv). split; [apply Hmem; [reflexivity | exact Hty]|].
  intros p Hp. specialize (Hv p Hp). rewrite Hty in Hv. destruct Hv as (Ha & Hptr).
  split; [exact Ha | apply Hptr; reflexivity].
Qed.

(** ** Unmapping keeps the addresses reserved *)

Lemma AlignUp_aligned size_ :
  is_u64 size_ -> size_ mod 4096 = 0 -> AlignUp size_ page_size = size_.
Proof.
  intros Hn Ha. unfold AlignUp. rewrite page_size_eq, Ha.
  change ((4096 - 0) mod 4096) with 0.
  unfold add64. rewrite Z.add_0_r. apply wrap64_small. exact Hn.
Qed.

Lemma tiles_distinct m u w :
  tiles m -> In u m -> In w m ->
  u = w \/ base u + size u <= base w \/ base w + size w <= base u.
Proof.
  intros Hc Hu Hw. apply in_split in Hu. destruct Hu as (l1 & l2 & ->).
  apply in_app_iff in Hw. destruct Hw as [Hw | [Hw | Hw]].
  - right. right. destruct (tiles_disjoint l1 u l2 w Hc) as [H|H].
    + apply in_app_iff. left. exact Hw.
    + exact H.
    + pose proof (chain_split _ _ _ _ _ Hc) as (Hc1 & Hs & _).
      destruct (chain_In _ _ _ _ Hc1 Hw) as (_ & Hsw & _ & Hle). lia.
  - left. exact Hw.
  - right. left. destruct (tiles_disjoint l1 u l2 w Hc) as [H|H].
    + apply in_app_iff. right. exact Hw.
    + pose proof (chain_split _ _ _ _ _ Hc) as (_ & Hs & _ & Hc2 & _).
      destruct (chain_In _ _ _ _ Hc2 Hw) as (Hge & Hsw & _). lia.
    + exact H.
Qed.

Lemma MapBackingMemory_at l1 u l2 pt h c b k rc target memory size_ backing :
  tiles (l1 ++ u :: l2) -> type u <> VMAType.Mapped ->
  target mod 4096 = 0 -> size_ mod 4096 = 0 -> 0 < size_ ->
  base u <= target -> target + size_ <= base u + size u ->
  exists it m' pt',
    MapBackingMemory target memory size_ backing (St (l1 ++ u :: l2) pt h c b k rc)
    = Ok (it, St m' pt' h c b k rc).
Proof.
  intros Hc Hty Hat Han Hpos Hlo Hhi.
  pose proof (chain_split _ _ _ _ _ Hc) as (Hc1 & _).
  pose proof (chain_aligned _ _ _ Hc1 eq_refl) as Hbu.
  set (start := target - base u).
  assert (Hst : 0 <= start) by (unfold start; lia).
  assert (Hsa : start mod 4096 = 0) by (unfold start; rewrite Zminus_mod, Hat, Hbu; reflexivity).
  destruct (carve_mid_fields u start size_) as (Eb & Es & Et); try (unfold start; lia).
  assert (Hcc : tiles ((l1 ++ carve_left u start size_)
                       ++ carve_mid u start size_ :: carve_right u start size_ ++ l2))
    by (apply carve_chain; try assumption; unfold start; lia).
  pose proof (chain_split _ _ _ _ _ Hcc) as (_ & _ & _ & _ & Hlt & _).
  unfold MapBackingMemory.
  rewrite (bind_Ok _ _ _ _ _ (CarveVMA_at l1 u l2 pt h c b k rc target size_
                                Hc Hty Hat Han Hlo Hpos Hhi)).
  fold start. cbv beta.
  assert (Etx : It target = It (base (carve_mid u start size_)))
    by (rewrite Eb; unfold start; f_equal; lia).
  rewrite Etx.
  set (s1 := St ((l1 ++ carve_left u start size_)
                 ++ carve_mid u start size_ :: carve_right u start size_ ++ l2) pt h c b k rc).
  rewrite (bind_Ok _ _ _ _ _ (area_at _ (carve_mid u start size_) _ s1 eq_refl Hlt)).
  rewrite bind_assert_true by (apply Z.eqb_eq; exact Es).
  unfold s1.
  rewrite (remap_at _ (carve_mid u start size_) _ pt h c b k rc
             (fun v => set_mapping v VMAType.Mapped memory backing) Hcc eq_refl eq_refl).
  eexists. eexists. eexists. reflexivity.
Qed.


(** ** Concrete managers *)

Lemma run_Ok {A : Type} (c : M A) (s : MemoryManager) :
  succeeds (c s) = true -> exists r, c s = Ok (r, run c s).
Proof.
  unfold run. destruct (c s) as [[r s']| | |]; try discriminate. intros _. exists r. reflexivity.
Qed.

Lemma fresh_new :
  MemoryManager_new (fun _ => 0) example_bus example_kernel example_rasterizer = Ok fresh.
Proof. reflexivity. Qed.

Lemma fresh_reachable : reachable fresh.
Proof. exact (reachable_new _ _ _ _ _ fresh_new). Qed.

Lemma mapped_reachable : reachable mapped.
Proof.
  destruct (run_Ok (MapBufferEx 0x100000 0x2000) fresh) as [r E]; [vm_compute; reflexivity|].
  apply (reachable_MapBufferEx fresh 0x100000 0x2000 r mapped fresh_reachable); [| | exact E];
    unfold is_u64; lia.
Qed.

Lemma reserved_reachable : reachable reserved.
Proof.
  destruct (run_Ok (AllocateSpace 0x3000 1) fresh) as [r E]; [vm_compute; reflexivity|].
  apply (reachable_AllocateSpace fresh 0x3000 1 r reserved fresh_reachable); [| exact E];
    unfold is_u64; lia.
Qed.

Lemma mapped_bus : bus_backed mapped.
Proof. intros cpu H. change (0 < example_bus cpu). unfold example_bus. lia. Qed.

Lemma free_area_In : In free_area (vma_map fresh).
Proof. vm_compute. left. reflexivity. Qed.

Lemma mapped_area_In : In mapped_area (vma_map mapped).
Proof. vm_compute. left. reflexivity. Qed.

Lemma reserved_area_In : In reserved_area (vma_map reserved).
Proof. vm_compute. left. reflexivity. Qed.


(** * The claims of the specification *)

(** C1, as the code has it. For every area of type [Allocated] whose range is
    page-aligned and inside the address space, [UpdatePageTableForVMA]
    returns, leaves the map alone and sets, for each page [p] of the area,
    the attribute to [Memory] (not to [Unmapped]), the pointer to null and
    the backing address to that of the area. *)
Theorem UpdatePageTableForVMA_Allocated (s : MemoryManager) (vma : VirtualMemoryArea) :
  type vma = VMAType.Allocated ->
  region_ok (base vma) (size vma) ->
  exists s',
    UpdatePageTableForVMA vma s = Ok (tt, s')
    /\ vma_map s' = vma_map s
    /\ forall p,
         Z.shiftr (base vma) page_bits <= p < Z.shiftr (base vma + size vma) page_bits ->
         attributes (page_table s') p = PageType.Memory
         /\ pointers (page_table s') p = nullptr
         /\ backing_addr (page_table s') p = vma_backing_addr vma.
Proof.
  intros Hty Hr. eexists. split; [|split].
  - unfold UpdatePageTableForVMA. rewrite Hty. apply MapMemoryRegion_Ok, Hr.
  - reflexivity.
  - intros p Hp. rewrite !shiftr_page_bits in Hp. cbn [page_table with_page_table].
    pose proof (region_pages _ _ Hr) as (E & Hle & Eb).
    rewrite MapPages_table_attributes, MapPages_table_null_pointers,
      MapPages_table_null_backing.
    assert (T : ((base vma / page_size <=? p)
                 && (p <? add64 (base vma / page_size) (size vma / page_size))) = true).
    { rewrite E, Eb. apply andb_true_iff. split; [apply Z.leb_le | apply Z.ltb_lt]; lia. }
    rewrite T. auto.
Qed.

(** The theorem at the three pages reserved at address 0, on the members of
    a manager under construction. *)
Lemma UpdatePageTableForVMA_Allocated_witness :
  type reserved_area = VMAType.Allocated
  /\ region_ok (base reserved_area) (size reserved_area)
  /\ exists s',
       UpdatePageTableForVMA reserved_area blank = Ok (tt, s')
       /\ vma_map s' = vma_map blank
       /\ forall p,
            Z.shiftr (base reserved_area) page_bits <= p
            < Z.shiftr (base reserved_area + size reserved_area) page_bits ->
            attributes (page_table s') p = PageType.Memory
            /\ pointers (page_table s') p = nullptr
            /\ backing_addr (page_table s') p = vma_backing_addr reserved_area.
Proof.
  assert (R : region_ok (base reserved_area) (size reserved_area)).
  { unfold region_ok, reserved_area. cbn [base size]. rewrite address_space_end_eq.
    repeat split; try lia; reflexivity. }
  split; [reflexivity | split; [exact R|]].
  exact (UpdatePageTableForVMA_Allocated blank reserved_area eq_refl R).
Defined.

(** On a new manager, [AllocateSpace(0x3000)] leaves the map
    [{0, 0x3000, Allocated}, {0x3000, .., Unmapped}] and the page table
    entries 0 to 2 with the attribute [Memory] and a null pointer; so does
    [UpdatePageTableForVMA] alone on such an area. *)
Lemma AllocateSpace_projects_Memory :
  let s := after [AllocateSpace 0x3000 1] new_manager in
  observe s (fun s => map extent (vma_map s))
  = Ok [(0, 0x3000, VMAType.Allocated, 0);
        (0x3000, address_space_end - 0x3000, VMAType.Unmapped, 0)]
  /\ observe s (fun s => map (attributes (page_table s)) [0; 1; 2])
     = Ok [PageType.Memory; PageType.Memory; PageType.Memory]
  /\ observe s (fun s => map (pointers (page_table s)) [0; 1; 2])
     = Ok [nullptr; nullptr; nullptr]
  /\ observe (next (UpdatePageTableForVMA reserved_area) (Ok blank))
       (fun s => map (attributes (page_table s)) [0; 1; 2])
     = Ok [PageType.Memory; PageType.Memory; PageType.Memory].
Proof. repeat split; vm_compute; reflexivity. Qed.

(** C2, as the code has it. On a manager that the constructor and the public
    calls produce, at an address [addr] without host memory behind it: where
    [addr] is out of range or lies in an [Unmapped] area, [Read<T>] returns
    zero and [Write<T>] returns with the whole state unchanged; where [addr]
    lies in an [Allocated] area, both halt on the assertion
    (Mapped memory page without a pointer). *)
Theorem Read_Write_without_memory
    (s : MemoryManager) (sizeof_T addr data : Z) :
  reachable s -> 0 <= addr ->
  ((IsAddressValid addr = false
    \/ exists vma, In vma (vma_map s) /\ type vma = VMAType.Unmapped
                   /\ base vma <= addr < base vma + size vma) ->
   Read sizeof_T s addr = Ok 0 /\ Write sizeof_T addr data s = Ok (tt, s))
  /\ ((exists vma, In vma (vma_map s) /\ type vma = VMAType.Allocated
                   /\ base vma <= addr < base vma + size vma) ->
      Read sizeof_T s addr = AssertFail /\ Write sizeof_T addr data s = AssertFail).
Proof.
  intros Hr Haddr. destruct (reachable_Inv_weak s Hr) as [Hc Hp].
  rewrite Forall_forall in Hp. split.
  - intros [Hinv | (vma & Hin & Hty & Ha)].
    + unfold Read, Write. rewrite Hinv. split; reflexivity.
    + destruct (page_in_area _ _ _ Hc Hin Ha) as (Hp0 & Hpage & Hsz).
      destruct (Hp vma Hin) as (_ & Hproj). specialize (Hproj _ Hpage).
      rewrite Hty in Hproj. destruct Hproj as (Hattr & Hptr & _).
      unfold Read, Write. rewrite shiftr_page_bits.
      destruct (negb (IsAddressValid addr)); [split; reflexivity|].
      rewrite bind_gets, Hptr, Hattr. cbn [negb]. rewrite Z.eqb_refl. split; reflexivity.
  - intros (vma & Hin & Hty & Ha).
    destruct (page_in_area _ _ _ Hc Hin Ha) as (Hp0 & Hpage & Hsz).
    destruct (Hp vma Hin) as (_ & Hproj). specialize (Hproj _ Hpage).
    rewrite Hty in Hproj. destruct Hproj as (Hattr & Hptr & _).
    unfold Read, Write.
    unfold IsAddressValid. rewrite shiftr_page_bits.
    replace (addr / 4096 <? pointers_size) with true by (symmetry; apply Z.ltb_lt; exact Hsz).
    cbn [negb]. rewrite bind_gets, Hptr, Hattr. rewrite Z.eqb_refl. split; reflexivity.
Qed.

(** The theorem on the new manager, inside its free area and past the end of
    the address space, and on a manager with three pages reserved, inside
    the reservation. *)
Lemma Read_Write_without_memory_witness :
  (Read 4 fresh 0x5000 = Ok 0 /\ Write 4 0x5000 7 fresh = Ok (tt, fresh))
  /\ (Read 4 fresh address_space_end = Ok 0
      /\ Write 4 address_space_end 7 fresh = Ok (tt, fresh))
  /\ (Read 4 reserved 0x1000 = AssertFail /\ Write 4 0x1000 7 reserved = AssertFail).
Proof.
  split; [|split].
  - apply (Read_Write_without_memory fresh 4 0x5000 7 fresh_reachable); [lia|].
    right. exists free_area. split; [exact free_area_In|]. split; [reflexivity|].
    cbn [base size free_area]. lia.
  - apply (Read_Write_without_memory fresh 4 address_space_end 7 fresh_reachable).
    + rewrite address_space_end_eq. lia.
    + left. reflexivity.
  - apply (Read_Write_without_memory reserved 4 0x1000 7 reserved_reachable); [lia|].
    exists reserved_area. split; [exact reserved_area_In|]. split; [reflexivity|].
    cbn [base size reserved_area]. lia.
Defined.

(** After [AllocateSpace(0x3000)] on a new manager, address 0 lies in an
    [Allocated] area; [Read<u32>(0)] and [Write<u32>(0, 7)] halt on the
    assertion: the read yields no zero and the write is not dropped. *)
Lemma Read_Write_Allocated_halt :
  let s := after [AllocateSpace 0x3000 1] new_manager in
  observe s (fun s => map extent (vma_map s))
  = Ok [(0, 0x3000, VMAType.Allocated, 0);
        (0x3000, address_space_end - 0x3000, VMAType.Unmapped, 0)]
  /\ rbind s (fun s => Read 4 s 0) = AssertFail
  /\ outcome s (Write 4 0 7) = AssertFail.
Proof. repeat split; vm_compute; reflexivity. Qed.

(** C3, on a concrete manager. With [Allocated] areas at [0, 0x1000) and
    [0x2000, 0x3000), the only free areas are [0x1000, 0x2000) and
    [0x3000, end). For two pages [FindFreeRegion] answers 0x1000, where only
    one page is free (its test compares the end of the area with
    [region_start + size], not with the clamped start), and
    [AllocateSpace(0x2000)] halts on the assertion of [CarveVMA] instead of
    returning 0x3000. *)
Lemma FindFreeRegion_misfit :
  let s := after [AllocateSpaceAt 0 0x1000 1; AllocateSpaceAt 0x2000 0x1000 1] new_manager in
  observe s (fun s => map extent (vma_map s))
  = Ok [(0, 0x1000, VMAType.Allocated, 0); (0x1000, 0x1000, VMAType.Unmapped, 0);
        (0x2000, 0x1000, VMAType.Allocated, 0);
        (0x3000, address_space_end - 0x3000, VMAType.Unmapped, 0)]
  /\ observe s (fun s => FindFreeRegion s address_space_base 0x2000) = Ok 0x1000
  /\ outcome s (AllocateSpace 0x2000 1) = AssertFail.
Proof. repeat split; vm_compute; reflexivity. Qed.

(** C4, on a concrete manager. With one page mapped at 0 and the rest of the
    address space reserved, no [Unmapped] area is left. [AllocateSpace(0x1000)]
    returns 0 and has changed the manager: the [Mapped] area at 0 has become
    [Allocated] and the pointer of page 0 is null. On a new manager,
    [AllocateSpace] of more than the address space halts on an assertion. *)
Lemma AllocateSpace_exhausted :
  let s := after [MapBufferEx 0x100000 0x1000; AllocateSpace (address_space_end - 0x1000) 1]
             new_manager in
  let s' := after [AllocateSpace 0x1000 1] s in
  observe s (fun s => map extent (vma_map s))
  = Ok [(0, 0x1000, VMAType.Mapped, 0);
        (0x1000, address_space_end - 0x1000, VMAType.Allocated, 0)]
  /\ observe s (fun s => pointers (page_table s) 0) = Ok (example_bus 0x100000)
  /\ outcome s (AllocateSpace 0x1000 1) = Ok 0
  /\ observe s' (fun s => map extent (vma_map s))
     = Ok [(0, 0x1000, VMAType.Allocated, 0);
           (0x1000, address_space_end - 0x1000, VMAType.Allocated, 0)]
  /\ observe s' (fun s => pointers (page_table s) 0) = Ok nullptr
  /\ outcome new_manager (AllocateSpace (address_space_end + 0x1000) 1) = AssertFail.
Proof. repeat split; vm_compute; reflexivity. Qed.

(** C5, as the code has it. On a manager that satisfies the invariant, when
    [UnmapRange(target, size)] returns, every address of
    [target, target + size) inside the address space lies in an [Allocated]
    area (none in an [Unmapped] one); and when the range lay inside one area
    before the call and the kernel accepts the attribute change,
    [MapBufferEx(cpu_addr, target, size2)] returns [target], for every
    [size2] that rounds up to [size]. *)
Theorem UnmapRange_keeps_reserved
    (s : MemoryManager) (target size_ : Z) (s' : MemoryManager) :
  Inv false s -> is_u64 target -> is_u64 size_ ->
  UnmapRange target size_ s = Ok (tt, s') ->
  (forall a, target <= a < target + size_ -> a < address_space_end ->
     exists vma, In vma (vma_map s') /\ base vma <= a < base vma + size vma
                 /\ type vma = VMAType.Allocated)
  /\ (forall vma cpu_addr size2,
        In vma (vma_map s) ->
        base vma <= target -> target + size_ <= base vma + size vma ->
        AlignUp size2 page_size = size_ ->
        SetMemoryAttribute_IsSuccess s cpu_addr size2 true = true ->
        exists s'', MapBufferExAt cpu_addr target size2 s' = Ok (target, s'')).
Proof.
  intros [Hc Hp] Ht Hn H. destruct s as [m pt h c b k rc]. cbn [vma_map page_table] in *.
  destruct (UnmapRange_Inv false m pt h c b k rc target size_ _ Hc Hp (proj1 Ht) Hn H)
    as (m' & pt' & E & Hc' & Hp' & Hincl & Hcov & Hat & Han & Hpos & Hin).
  inversion E; subst s'. clear E. cbn [vma_map]. split; [exact Hcov|].
  intros vma cpu_addr size2 Hv Hlo Hhi Hal Hk. cbn [SetMemoryAttribute_IsSuccess] in Hk.
  destruct (Hcov target ltac:(lia) Hin) as (u & Hu & Hua & Hty).
  (* the allocated area at [target] reaches the end of the range *)
  assert (Hreach : target + size_ <= base u + size u).
  { destruct (Z_le_dec (target + size_) (base u + size u)) as [Hok|Hbad]; [exact Hok|].
    exfalso. apply in_split in Hu. destruct Hu as (l1 & l2 & ->).
    pose proof (chain_split _ _ _ _ _ Hc') as (_ & _ & _ & Hc2 & _).
    destruct (tiles_In m vma Hc Hv) as (_ & _ & _ & _ & Hve).
    destruct l2 as [|n l2]; cbn [chain] in Hc2; [lia|].
    destruct Hc2 as (Hbn & _).
    assert (Hkey : In (base n) (keys (l1 ++ u :: n :: l2))).
    { unfold keys. rewrite map_app. apply in_app_iff. right. right. left. reflexivity. }
    apply Hincl in Hkey. destruct Hkey as [Hk0 | [Hk0 | Hk0]]; [lia | lia |].
    unfold keys in Hk0. apply in_map_iff in Hk0. destruct Hk0 as (w & Ew & Hw).
    destruct (tiles_In m w Hc Hw) as (_ & Hsw & _).
    destruct (tiles_distinct m vma w Hc Hv Hw) as [-> | [Hd | Hd]]; lia. }
  apply in_split in Hu. destruct Hu as (l1 & l2 & ->).
  assert (Hnm : type u <> VMAType.Mapped) by (rewrite Hty; discriminate).
  unfold MapBufferExAt.
  rewrite bind_assert_true by (apply aligned_test; exact Hat).
  rewrite bind_gets. cbn [Memory_GetPointer].
  rewrite Hal.
  destruct (MapBackingMemory_at l1 u l2 pt' h c b k rc target (b cpu_addr) size_ cpu_addr
              Hc' Hnm Hat Han Hpos (proj1 Hua) Hreach) as (it & m2 & pt2 & Emap).
  rewrite (bind_Ok _ _ _ _ _ Emap).
  unfold set_device_mapped, call.
  rewrite bind_bind, bind_modify, bind_bind, bind_gets.
  norm_state. rewrite Hk. rewrite bind_assert_true by reflexivity.
  eexists. reflexivity.
Qed.

(** The theorem on a manager with two pages mapped at 0, unmapped and then
    mapped again at 0. *)
Lemma UnmapRange_keeps_reserved_witness :
  (exists vma, In vma (vma_map (run (UnmapRange 0 0x2000) mapped))
               /\ base vma <= 0x1234 < base vma + size vma
               /\ type vma = VMAType.Allocated)
  /\ exists s'',
       MapBufferExAt 0x200000 0 0x1800 (run (UnmapRange 0 0x2000) mapped) = Ok (0, s'').
Proof.
  destruct (run_Ok (UnmapRange 0 0x2000) mapped) as [[] E]; [vm_compute; reflexivity|].
  assert (U : forall x, 0 <= x < 0x10000000000 -> is_u64 x) by (unfold is_u64; lia).
  destruct (UnmapRange_keeps_reserved mapped 0 0x2000 _
              (reachable_Inv_weak mapped mapped_reachable)
              (U 0 ltac:(lia)) (U 0x2000 ltac:(lia)) E) as [H1 H2].
  split.
  - apply H1; [lia | rewrite address_space_end_eq; lia].
  - apply (H2 mapped_area 0x200000 0x1800 mapped_area_In).
    + cbn [base mapped_area]. lia.
    + cbn [base size mapped_area]. lia.
    + reflexivity.
    + reflexivity.
Defined.

(** A range over two areas. With [0, 0x1000) reserved, [0x1000, 0x2000) mapped
    inside the same reservation and [0x2000, 0x3000) mapped apart,
    [UnmapRange(0x1000, 0x2000)] returns and leaves the range in two
    [Allocated] areas, [0, 0x2000) and [0x2000, 0x3000); mapping two pages at
    0x1000 again halts on the assertion of [CarveVMA] and returns no
    address. So it does after [UnmapBuffer]. *)
Lemma UnmapBuffer_then_remap_halts :
  let s := after [AllocateSpaceAt 0 0x2000 1; MapBufferExAt 0x100000 0x1000 0x1000;
                  MapBufferExAt 0x300000 0x2000 0x1000] new_manager in
  let s' := next (UnmapRange 0x1000 0x2000) s in
  observe s (fun s => map extent (vma_map s))
  = Ok [(0, 0x1000, VMAType.Allocated, 0); (0x1000, 0x1000, VMAType.Mapped, 0x1000);
        (0x2000, 0x1000, VMAType.Mapped, 0);
        (0x3000, address_space_end - 0x3000, VMAType.Unmapped, 0)]
  /\ outcome s (UnmapRange 0x1000 0x2000) = Ok tt
  /\ observe s' (fun s => map extent (vma_map s))
     = Ok [(0, 0x2000, VMAType.Allocated, 0); (0x2000, 0x1000, VMAType.Allocated, 0);
           (0x3000, address_space_end - 0x3000, VMAType.Unmapped, 0)]
  /\ outcome s' (MapBufferExAt 0x500000 0x1000 0x2000) = AssertFail
  /\ outcome (after [UnmapBuffer 0x1000 0x2000] s) (MapBufferExAt 0x500000 0x1000 0x2000)
     = AssertFail.
Proof. repeat split; vm_compute; reflexivity. Qed.




(** C7, on a concrete manager. After [AllocateSpace(0x3000)],
    [MapBufferEx(0x100000, 0, 0x1000)] and [UnmapBuffer(0, 0x2000)], the map
    holds the adjacent areas [{0, 0x2000, Allocated, offset 0}] and
    [{0x2000, 0x1000, Allocated, offset 0x2000}], which [CanBeMergedWith]
    accepts: [MergeAdjacent] absorbs one successor and does not look at the
    next. *)
Lemma UnmapBuffer_leaves_mergeable :
  let s := after [AllocateSpace 0x3000 1; MapBufferExAt 0x100000 0 0x1000;
                  UnmapBuffer 0 0x2000] new_manager in
  observe s (fun s => map extent (vma_map s))
  = Ok [(0, 0x2000, VMAType.Allocated, 0); (0x2000, 0x1000, VMAType.Allocated, 0x2000);
        (0x3000, address_space_end - 0x3000, VMAType.Unmapped, 0)]
  /\ rbind s (fun s => CanBeMergedWith (nth 0 (vma_map s) default_vma)
                                      (nth 1 (vma_map s) default_vma))
     = Ok true.
Proof. repeat split; vm_compute; reflexivity. Qed.

(** C8. For a range inside the address space, [ReadBlockUnsafe] returns [size]
    bytes: the byte at address [src_addr + i] is the byte of host memory at
    the page's pointer plus the offset in the page where the pointer slot is
    not null, and zero where it is null. The manager it returns is the one
    it was called on, so the list of callouts has not grown. *)
Theorem ReadBlockUnsafe_spec (s : MemoryManager) (src_addr size_ : Z) :
  0 <= src_addr -> 0 <= size_ -> src_addr + size_ <= address_space_end ->
  exists dest,
    ReadBlockUnsafe src_addr size_ s = Ok (dest, s)
    /\ length dest = Z.to_nat size_
    /\ forall i, 0 <= i < size_ ->
         nth (Z.to_nat i) dest 0
         = let page_pointer := pointers (page_table s) (Z.shiftr (src_addr + i) page_bits) in
           if page_pointer =? nullptr then 0
           else host_memory s (page_pointer + Z.land (src_addr + i) page_mask).
Proof.
  intros Ha Hn Hend.
  exists (map (unsafe_byte s) (zrange src_addr size_)). split; [|split].
  - unfold ReadBlockUnsafe.
    rewrite shiftr_page_bits, land_page_mask.
    rewrite ReadBlockUnsafe_loop_spec.
    + cbn [app]. rewrite Z.mul_comm, <- Z.div_mod by lia. reflexivity.
    + apply Z.div_pos; lia.
    + apply Z.mod_pos_bound. lia.
    + exact Hn.
    + rewrite Z.mul_comm, <- Z.div_mod by lia. exact Hend.
    + lia.
  - rewrite length_map, zrange_length. reflexivity.
  - intros i Hi.
    rewrite (nth_indep _ 0 (unsafe_byte s 0)) by (rewrite length_map, zrange_length; lia).
    rewrite map_nth, nth_zrange by lia. rewrite Z2Nat.id by lia. reflexivity.
Qed.

(** The theorem for 32 bytes across the end of the two pages mapped at 0, the
    second half of which has no page pointer. *)
Lemma ReadBlockUnsafe_spec_witness :
  exists dest,
    ReadBlockUnsafe 0x1ff0 0x20 mapped = Ok (dest, mapped)
    /\ length dest = Z.to_nat 0x20
    /\ forall i, 0 <= i < 0x20 ->
         nth (Z.to_nat i) dest 0
         = let page_pointer :=
             pointers (page_table mapped) (Z.shiftr (0x1ff0 + i) page_bits) in
           if page_pointer =? nullptr then 0
           else host_memory mapped (page_pointer + Z.land (0x1ff0 + i) page_mask).
Proof.
  apply (ReadBlockUnsafe_spec mapped 0x1ff0 0x20); [lia | lia |].
  rewrite address_space_end_eq. lia.
Defined.

(** C9, on a concrete manager. After [AllocateSpace(0x3000)] page 0 has the
    attribute [Memory] and a null pointer. [ReadBlock(0, dst, 1)] and
    [WriteBlock(0, src, 1)] take the [Memory] case and copy through the null
    pointer: no assertion halts them. [Read<u8>] and [Write<u8>] at the same
    address halt on their assertion. *)
Lemma Block_copy_through_null :
  let s := after [AllocateSpace 0x3000 1] new_manager in
  observe s (fun s => (attributes (page_table s) 0, pointers (page_table s) 0))
  = Ok (PageType.Memory, nullptr)
  /\ outcome s (ReadBlock 0 1) = Undefined
  /\ outcome s (WriteBlock 0 [1] 1) = Undefined
  /\ rbind s (fun s => Read 1 s 0) = AssertFail
  /\ outcome s (Write 1 0 1) = AssertFail.
Proof. repeat split; vm_compute; reflexivity. Qed.

(** C10. On a manager that the constructor and the public calls produce, when
    [UnmapBuffer(gpu_addr, size)] returns, [GpuToCpuAddress(a)] is empty for
    every address [a] of [gpu_addr, gpu_addr + size). *)
Theorem UnmapBuffer_clears_translation
    (s : MemoryManager) (gpu_addr size_ r : Z) (s' : MemoryManager) :
  reachable s -> is_u64 gpu_addr -> is_u64 size_ ->
  UnmapBuffer gpu_addr size_ s = Ok (r, s') ->
  forall a, gpu_addr <= a < gpu_addr + size_ -> GpuToCpuAddress s' a = None.
Proof.
  intros Hr Hg Hn H a Ha.
  destruct (UnmapBuffer_Inv false s gpu_addr size_ r s' (reachable_Inv_weak s Hr) Hg Hn H)
    as ([Hc Hp] & _ & _ & Hcov & _ & Hpos).
  pose proof (AlignUp_ge size_ Hn Hpos) as Hge.
  unfold GpuToCpuAddress, IsAddressValid. rewrite shiftr_page_bits.
  destruct (Z.ltb_spec (a / 4096) pointers_size) as [Hvalid|Hinvalid]; [|reflexivity].
  cbn [negb].
  assert (Hend : a < address_space_end).
  { rewrite address_space_end_eq. rewrite pointers_size_eq in Hvalid.
    pose proof (Z.div_mod a 4096 ltac:(lia)). pose proof (Z.mod_pos_bound a 4096 ltac:(lia)).
    lia. }
  destruct (Hcov a ltac:(lia) Hend) as (u & Hu & Hua & Hty).
  destruct (page_in_area _ _ _ Hc Hu Hua) as (_ & Hpage & _).
  rewrite Forall_forall in Hp. destruct (Hp u Hu) as (_ & Hproj).
  specialize (Hproj _ Hpage). rewrite Hty in Hproj. destruct Hproj as (_ & _ & Hback).
  rewrite Hback. reflexivity.
Qed.

(** The theorem at an address in the two pages mapped at 0 and then
    unmapped. *)
Lemma UnmapBuffer_clears_translation_witness :
  GpuToCpuAddress (run (UnmapBuffer 0 0x2000) mapped) 0x1234 = None.
Proof.
  destruct (run_Ok (UnmapBuffer 0 0x2000) mapped) as [r E]; [vm_compute; reflexivity|].
  assert (U : forall x, 0 <= x < 0x10000000000 -> is_u64 x) by (unfold is_u64; lia).
  apply (UnmapBuffer_clears_translation mapped 0 0x2000 r _ mapped_reachable
           (U 0 ltac:(lia)) (U 0x2000 ltac:(lia)) E).
  lia.
Defined.


(** * Further properties of the code *)

(** ** Lookups on a reachable manager *)

Lemma IsAddressValid_lt a : 0 <= a -> IsAddressValid a = true <-> a < address_space_end.
Proof.
  intros Ha. unfold IsAddressValid. rewrite shiftr_page_bits, pointers_size_eq,
    address_space_end_eq, Z.ltb_lt.
  pose proof (Z.div_mod a 4096 ltac:(lia)). pose proof (Z.mod_pos_bound a 4096 ltac:(lia)).
  lia.
Qed.

Lemma tiles_cover m a :
  tiles m -> 0 <= a < address_space_end ->
  exists vma, In vma m /\ base vma <= a < base vma + size vma
              /\ forall w, In w m -> base w <= a < base w + size w -> w = vma.
Proof.
  intros Hc Ha. destruct (chain_locate _ _ _ _ Hc Ha) as (l1 & v & l2 & E & Hv).
  exists v. assert (Hin : In v m) by (rewrite E; apply in_app_iff; right; left; reflexivity).
  split; [exact Hin|]. split; [exact Hv|].
  intros w Hw Hwa. destruct (tiles_distinct m w v Hc Hw Hin) as [E'|[H|H]]; [exact E'|lia|lia].
Qed.

(** What the page table holds for an address inside an area of the map. *)
Lemma entry_of_address strict s vma a :
  Inv strict s -> In vma (vma_map s) -> base vma <= a < base vma + size vma ->
  IsAddressValid a = true
  /\ (type vma = VMAType.Unmapped ->
      attributes (page_table s) (a / 4096) = PageType.Unmapped
      /\ pointers (page_table s) (a / 4096) = nullptr
      /\ backing_addr (page_table s) (a / 4096) = 0)
  /\ (type vma = VMAType.Allocated ->
      attributes (page_table s) (a / 4096) = PageType.Memory
      /\ pointers (page_table s) (a / 4096) = nullptr
      /\ backing_addr (page_table s) (a / 4096) = 0)
  /\ (type vma = VMAType.Mapped ->
      attributes (page_table s) (a / 4096) = PageType.Memory
      /\ (strict = true ->
          0 < backing_memory vma
          /\ pointers (page_table s) (a / 4096)
             = backing_memory vma + (a / 4096 * 4096 - base vma))).
Proof.
  intros [Hc Hp] Hin Ha.
  destruct (page_in_area _ _ _ Hc Hin Ha) as (Hp0 & Hpage & Hsz).
  rewrite Forall_forall in Hp. destruct (Hp vma Hin) as (Hmem & Hproj).
  specialize (Hproj _ Hpage).
  split; [unfold IsAddressValid; rewrite shiftr_page_bits; apply Z.ltb_lt; exact Hsz|].
  split; [|split]; intros Hty; rewrite Hty in Hproj.
  - exact Hproj.
  - exact Hproj.
  - destruct Hproj as (Hattr & Hptr). split; [exact Hattr|].
    intros Hs. split; [apply Hmem; assumption | apply Hptr; exact Hs].
Qed.

(** ** The map and the page table of a reachable manager *)

(** X1. After the constructor and any sequence of the public calls that
    return, the areas of the map tile the address space: they start at 0,
    each starts where its predecessor ends, each has a positive page-aligned
    size, and the last ends at [address_space_end]; so every address of the
    space lies in exactly one area. *)
Theorem reachable_map_tiles (s : MemoryManager) :
  reachable s ->
  tiles (vma_map s)
  /\ forall a, 0 <= a < address_space_end ->
       exists vma, In vma (vma_map s) /\ base vma <= a < base vma + size vma
                   /\ forall w, In w (vma_map s) -> base w <= a < base w + size w -> w = vma.
Proof.
  intros Hr. destruct (reachable_Inv_weak s Hr) as [Hc _].
  split; [exact Hc|]. intros a Ha. apply tiles_cover; assumption.
Qed.

(** The theorem on the manager with two pages mapped at 0. *)
Lemma reachable_map_tiles_witness :
  tiles (vma_map mapped)
  /\ forall a, 0 <= a < address_space_end ->
       exists vma, In vma (vma_map mapped) /\ base vma <= a < base vma + size vma
                   /\ forall w, In w (vma_map mapped) ->
                        base w <= a < base w + size w -> w = vma.
Proof. exact (reachable_map_tiles mapped mapped_reachable). Defined.

(** X2. On a manager that the constructor and the public calls produce, the
    page table is the projection of the map: on every page of an [Unmapped]
    area the attribute is [Unmapped], the pointer null and the backing
    address 0; on every page of an [Allocated] area the attribute is
    [Memory], the pointer null and the backing address 0; on every page of a
    [Mapped] area the attribute is [Memory] and, when the memory bus backs
    guest addresses by host memory, the pointer is the area's
    [backing_memory] plus the offset of the page in the area, and not
    null. *)
Theorem reachable_page_table
    (s : MemoryManager) (vma : VirtualMemoryArea) (p : Z) :
  reachable s -> In vma (vma_map s) ->
  base vma <= p * 4096 < base vma + size vma ->
  match type vma with
  | VMAType.Unmapped =>
      attributes (page_table s) p = PageType.Unmapped
      /\ pointers (page_table s) p = nullptr /\ backing_addr (page_table s) p = 0
  | VMAType.Allocated =>
      attributes (page_table s) p = PageType.Memory
      /\ pointers (page_table s) p = nullptr /\ backing_addr (page_table s) p = 0
  | VMAType.Mapped =>
      attributes (page_table s) p = PageType.Memory
      /\ (bus_backed s ->
          pointers (page_table s) p = backing_memory vma + (p * 4096 - base vma)
          /\ pointers (page_table s) p <> nullptr)
  end.
Proof.
  intros Hr Hin Hp.
  destruct (reachable_Inv_weak s Hr) as [Hc Hw]. rewrite Forall_forall in Hw.
  destruct (Hw vma Hin) as (_ & Hproj). specialize (Hproj p Hp).
  destruct (type vma) eqn:Hty; try exact Hproj.
  destruct Hproj as (Hattr & _). split; [exact Hattr|]. intros Hbus.
  destruct (reachable_Inv s Hr Hbus) as [_ Hs]. rewrite Forall_forall in Hs.
  destruct (Hs vma Hin) as (Hmem & Hproj). specialize (Hproj p Hp). rewrite Hty in Hproj.
  destruct Hproj as (_ & Hptr). specialize (Hptr eq_refl). specialize (Hmem eq_refl Hty).
  split; [exact Hptr|]. rewrite Hptr. unfold nullptr. lia.
Qed.

(** The theorem at the second of the two pages mapped at 0. *)
Lemma reachable_page_table_witness :
  attributes (page_table mapped) 1 = PageType.Memory
  /\ pointers (page_table mapped) 1 = backing_memory mapped_area + (1 * 4096 - base mapped_area)
  /\ pointers (page_table mapped) 1 <> nullptr.
Proof.
  destruct (reachable_page_table mapped mapped_area 1 mapped_reachable mapped_area_In)
    as [H1 H2]; [cbn [base size mapped_area]; lia|].
  split; [exact H1 | exact (H2 mapped_bus)].
Defined.

(** X3. On a manager that the constructor and the public calls produce,
    [GetPointer] returns null and [GpuToCpuAddress] the empty optional for
    every address at or past the end of the address space and for every
    address inside an area that is not [Mapped]. *)
Theorem translation_absent_outside_mapped (s : MemoryManager) (a : Z) :
  reachable s -> 0 <= a ->
  (address_space_end <= a
   \/ exists vma, In vma (vma_map s) /\ type vma <> VMAType.Mapped
                  /\ base vma <= a < base vma + size vma) ->
  GetPointer s a = nullptr /\ GpuToCpuAddress s a = None.
Proof.
  intros Hr Ha [Hout | (vma & Hin & Hty & Hva)].
  - assert (E : IsAddressValid a = false).
    { destruct (IsAddressValid a) eqn:E; [|reflexivity].
      apply IsAddressValid_lt in E; [lia | exact Ha]. }
    unfold GetPointer, GpuToCpuAddress. rewrite E. split; reflexivity.
  - destruct (entry_of_address false s vma a (reachable_Inv_weak s Hr) Hin Hva)
      as (Hvalid & HU & HA & _).
    assert (E : pointers (page_table s) (a / 4096) = nullptr
                /\ backing_addr (page_table s) (a / 4096) = 0).
    { destruct (type vma) eqn:Et.
      - destruct (HU eq_refl) as (_ & H1 & H2). split; assumption.
      - destruct (HA eq_refl) as (_ & H1 & H2). split; assumption.
      - exfalso. apply Hty. reflexivity. }
    destruct E as [E1 E2].
    unfold GetPointer, GpuToCpuAddress. rewrite Hvalid, shiftr_page_bits, E1, E2.
    split; reflexivity.
Qed.

(** The theorem inside the three reserved pages and at the end of the address space. *)
Lemma translation_absent_outside_mapped_witness :
  (GetPointer reserved 0x1234 = nullptr /\ GpuToCpuAddress reserved 0x1234 = None)
  /\ (GetPointer reserved address_space_end = nullptr
      /\ GpuToCpuAddress reserved address_space_end = None).
Proof.
  split.
  - apply (translation_absent_outside_mapped reserved 0x1234 reserved_reachable); [lia|].
    right. exists reserved_area. split; [exact reserved_area_In|].
    split; [discriminate|]. cbn [base size reserved_area]. lia.
  - apply (translation_absent_outside_mapped reserved address_space_end reserved_reachable).
    + rewrite address_space_end_eq. lia.
    + left. lia.
Defined.

Lemma GetPointer_mapped_area s vma a :
  Inv true s -> In vma (vma_map s) -> type vma = VMAType.Mapped ->
  base vma <= a < base vma + size vma ->
  GetPointer s a = backing_memory vma + (a - base vma) /\ 0 < backing_memory vma.
Proof.
  intros HI Hin Hty Ha.
  destruct (entry_of_address true s vma a HI Hin Ha) as (Hvalid & _ & _ & HM).
  destruct (HM Hty) as (_ & Hptr). destruct (Hptr eq_refl) as (Hmem & Ep).
  destruct (tiles_In _ _ (proj1 HI) Hin) as (Hb & _ & Hal & _).
  pose proof (Z.div_mod a 4096 ltac:(lia)) as Hdm.
  pose proof (Z.mod_pos_bound a 4096 ltac:(lia)) as Hmod.
  assert (Hpg : base vma <= a / 4096 * 4096).
  { assert (base vma / 4096 <= a / 4096) by (apply Z.div_le_mono; lia).
    pose proof (Z.div_mod (base vma) 4096 ltac:(lia)). lia. }
  split; [|exact Hmem].
  unfold GetPointer. rewrite Hvalid, shiftr_page_bits, land_page_mask, Ep. cbn [negb].
  destruct (Z.eqb_spec (backing_memory vma + (a / 4096 * 4096 - base vma)) nullptr) as [E|_].
  - unfold nullptr in E. lia.
  - cbn [negb]. lia.
Qed.

Lemma GetPointer_null_outside strict s a :
  Inv strict s -> 0 <= a ->
  (address_space_end <= a
   \/ exists vma, In vma (vma_map s) /\ type vma <> VMAType.Mapped
                  /\ base vma <= a < base vma + size vma) ->
  GetPointer s a = nullptr.
Proof.
  intros HI Ha [Hout | (vma & Hin & Hty & Hva)].
  - assert (E : IsAddressValid a = false).
    { destruct (IsAddressValid a) eqn:E; [|reflexivity].
      apply IsAddressValid_lt in E; [lia | exact Ha]. }
    unfold GetPointer. rewrite E. reflexivity.
  - destruct (entry_of_address strict s vma a HI Hin Hva) as (Hvalid & HU & HA & _).
    assert (E : pointers (page_table s) (a / 4096) = nullptr).
    { destruct (type vma) eqn:Et.
      - apply (HU eq_refl).
      - apply (HA eq_refl).
      - exfalso. apply Hty. reflexivity. }
    unfold GetPointer. rewrite Hvalid, shiftr_page_bits, E. reflexivity.
Qed.

(** X4. On a manager that the constructor and the public calls produce, with a
    memory bus that backs guest addresses by host memory, [GetPointer] of an
    address inside a [Mapped] area is the area's [backing_memory] plus the
    offset of the address in the area, and is not null. *)
Theorem GetPointer_in_mapped (s : MemoryManager) (vma : VirtualMemoryArea) (a : Z) :
  reachable s -> bus_backed s ->
  In vma (vma_map s) -> type vma = VMAType.Mapped ->
  base vma <= a < base vma + size vma ->
  GetPointer s a = backing_memory vma + (a - base vma)
  /\ GetPointer s a <> nullptr.
Proof.
  intros Hr Hbus Hin Hty Ha.
  destruct (GetPointer_mapped_area s vma a (reachable_Inv s Hr Hbus) Hin Hty Ha) as [E Hmem].
  split; [exact E|]. rewrite E. unfold nullptr. lia.
Qed.

(** The theorem at an address in the second of the two pages mapped at 0. *)
Lemma GetPointer_in_mapped_witness :
  GetPointer mapped 0x1234 = backing_memory mapped_area + (0x1234 - base mapped_area)
  /\ GetPointer mapped 0x1234 <> nullptr.
Proof.
  apply (GetPointer_in_mapped mapped mapped_area 0x1234 mapped_reachable mapped_bus
           mapped_area_In eq_refl).
  cbn [base size mapped_area]. lia.
Defined.

(** X5. On a manager that the constructor and the public calls produce,
    [FindVMA(target)] returns an iterator to the area that contains
    [target] when [target] is inside the address space, and the
    past-the-end iterator when it is not; it changes nothing. *)
Theorem FindVMA_finds (s : MemoryManager) (target : Z) :
  reachable s -> 0 <= target ->
  (target < address_space_end ->
   exists vma, In vma (vma_map s) /\ base vma <= target < base vma + size vma
               /\ FindVMA target s = Ok (It (base vma), s))
  /\ (address_space_end <= target -> FindVMA target s = Ok (ItEnd, s)).
Proof.
  intros Hr Ht. destruct (reachable_Inv_weak s Hr) as [Hc _]. split.
  - intros Hlt. destruct (chain_locate _ _ _ _ Hc (conj Ht Hlt)) as (l1 & v & l2 & E & Hv).
    exists v. split; [rewrite E; apply in_app_iff; right; left; reflexivity|].
    split; [exact Hv|]. unfold tiles in Hc. rewrite E in Hc.
    exact (FindVMA_at _ _ _ _ _ s target E Hc Hv Hlt).
  - apply FindVMA_end.
Qed.

(** The theorem at an address inside the mapping and at the end of the address space. *)
Lemma FindVMA_finds_witness :
  (exists vma, In vma (vma_map mapped) /\ base vma <= 0x1234 < base vma + size vma
               /\ FindVMA 0x1234 mapped = Ok (It (base vma), mapped))
  /\ FindVMA address_space_end mapped = Ok (ItEnd, mapped).
Proof.
  destruct (FindVMA_finds mapped 0x1234 mapped_reachable ltac:(lia)) as [H1 _].
  destruct (FindVMA_finds mapped address_space_end mapped_reachable
              ltac:(rewrite address_space_end_eq; lia)) as [_ H2].
  split; [apply H1; rewrite address_space_end_eq; lia | apply H2; lia].
Defined.

(** ** Typed accesses *)

Lemma le_split_length n v : length (le_split n v) = n.
Proof. revert v. induction n as [|n IH]; intros v; cbn; [reflexivity | rewrite IH; reflexivity]. Qed.

Lemma le_combine_split n v : le_combine (le_split n v) = v mod 256 ^ Z.of_nat n.
Proof.
  revert v. induction n as [|n IH]; intros v.
  - cbn [le_split le_combine]. change (256 ^ Z.of_nat 0) with 1. rewrite Z.mod_1_r. reflexivity.
  - cbn [le_split le_combine]. rewrite IH.
    rewrite Nat2Z.inj_succ, Z.pow_succ_r by lia.
    rewrite Z.rem_mul_r by lia. reflexivity.
Qed.

Lemma read_bytes_written h p l :
  read_bytes (write_bytes h p l) p (Z.of_nat (length l)) = l.
Proof.
  unfold read_bytes. rewrite Nat2Z.id.
  set (f := fun i : nat => write_bytes h p l (p + Z.of_nat i)).
  apply nth_ext with (d := f 0%nat) (d' := 0).
  - rewrite length_map, length_seq. reflexivity.
  - intros i Hi. rewrite length_map, length_seq in Hi.
    rewrite map_nth, seq_nth by exact Hi. cbn [Nat.add]. unfold f.
    rewrite write_bytes_read by lia. rewrite Nat2Z.id. reflexivity.
Qed.

(** X6. At a valid address whose page has a pointer, [Write<T>(addr, data)]
    returns and [Read<T>(addr)] after it returns [data] reduced to the
    [sizeof(T)] bytes written; the write changes neither the map nor the page
    table and calls nothing. *)
Theorem Write_Read_roundtrip (s : MemoryManager) (sizeof_T addr data : Z) :
  IsAddressValid addr = true ->
  pointers (page_table s) (Z.shiftr addr page_bits) <> nullptr ->
  0 <= sizeof_T ->
  exists s',
    Write sizeof_T addr data s = Ok (tt, s')
    /\ Read sizeof_T s' addr = Ok (data mod 256 ^ sizeof_T)
    /\ vma_map s' = vma_map s /\ page_table s' = page_table s
    /\ callouts s' = callouts s.
Proof.
  intros Hv Hp Hn.
  apply Z.eqb_neq in Hp.
  exists (with_host_memory s
            (write_bytes (host_memory s)
               (pointers (page_table s) (Z.shiftr addr page_bits) + Z.land addr page_mask)
               (le_split (Z.to_nat sizeof_T) data))).
  split; [|split; [|repeat split]].
  - unfold Write. rewrite Hv. cbn [negb]. rewrite bind_gets, Hp. cbn [negb]. reflexivity.
  - unfold Read. rewrite Hv. cbn [negb]. norm_state. rewrite Hp. cbn [negb].
    f_equal.
    replace sizeof_T with (Z.of_nat (length (le_split (Z.to_nat sizeof_T) data))) at 2
      by (rewrite le_split_length; apply Z2Nat.id; exact Hn).
    rewrite read_bytes_written, le_combine_split, Z2Nat.id by exact Hn. reflexivity.
Qed.

(** The theorem for a 32-bit access near the end of the two mapped pages, with a value of more than 32 bits. *)
Lemma Write_Read_roundtrip_witness :
  exists s',
    Write 4 0x1ffe 0x123456789 mapped = Ok (tt, s')
    /\ Read 4 s' 0x1ffe = Ok (0x123456789 mod 256 ^ 4)
    /\ vma_map s' = vma_map mapped /\ page_table s' = page_table mapped
    /\ callouts s' = callouts mapped.
Proof.
  apply (Write_Read_roundtrip mapped 4 0x1ffe 0x123456789); [reflexivity | | lia].
  vm_compute. discriminate.
Defined.

(** ** Halting and undefined calls *)

Lemma AlignUp_mod v : AlignUp v page_size mod 4096 = 0.
Proof.
  unfold AlignUp, add64, wrap64. rewrite page_size_eq.
  assert (D : (4096 | 2 ^ 64)) by (exists (2 ^ 52); reflexivity).
  rewrite <- (Z.mod_mod_divide _ (2 ^ 64) 4096) by (try lia; exact D).
  rewrite Z.mod_mod by lia.
  rewrite (Z.mod_mod_divide _ (2 ^ 64) 4096) by (try lia; exact D).
  pose proof (Z.mod_pos_bound v 4096 ltac:(lia)) as Hr.
  pose proof (Z.div_mod v 4096 ltac:(lia)) as Hv.
  destruct (Z.eq_dec (v mod 4096) 0) as [E|E].
  - rewrite E. change ((4096 - 0) mod 4096) with 0. rewrite Z.add_0_r. exact E.
  - rewrite (Z.mod_small (4096 - v mod 4096)) by lia.
    replace (v + (4096 - v mod 4096)) with ((v / 4096 + 1) * 4096) by lia.
    apply Z.mod_mul. lia.
Qed.

(** No translation outside the [Mapped] areas. *)
Lemma Inv_no_translation strict s a :
  Inv strict s -> 0 <= a ->
  (address_space_end <= a
   \/ exists vma, In vma (vma_map s) /\ type vma <> VMAType.Mapped
                  /\ base vma <= a < base vma + size vma) ->
  GpuToCpuAddress s a = None.
Proof.
  intros HI Ha [Hout | (vma & Hin & Hty & Hva)].
  - assert (E : IsAddressValid a = false).
    { destruct (IsAddressValid a) eqn:E; [|reflexivity].
      apply IsAddressValid_lt in E; [lia | exact Ha]. }
    unfold GpuToCpuAddress. rewrite E. reflexivity.
  - destruct (entry_of_address strict s vma a HI Hin Hva) as (Hvalid & HU & HA & _).
    assert (E : backing_addr (page_table s) (a / 4096) = 0).
    { destruct (type vma) eqn:Et.
      - apply (HU eq_refl).
      - apply (HA eq_refl).
      - exfalso. apply Hty. reflexivity. }
    unfold GpuToCpuAddress. rewrite Hvalid, shiftr_page_bits, E. reflexivity.
Qed.

(** X7. On a manager that the constructor and the public calls produce,
    [UnmapBuffer(gpu_addr, size)] halts on an assertion, for every [size],
    when [gpu_addr] is at or past the end of the address space or inside an
    area that is not [Mapped]: the first page has no CPU address. *)
Theorem UnmapBuffer_without_mapping_halts (s : MemoryManager) (gpu_addr size_ : Z) :
  reachable s -> 0 <= gpu_addr ->
  (address_space_end <= gpu_addr
   \/ exists vma, In vma (vma_map s) /\ type vma <> VMAType.Mapped
                  /\ base vma <= gpu_addr < base vma + size vma) ->
  UnmapBuffer gpu_addr size_ s = AssertFail.
Proof.
  intros Hr Ha H. unfold UnmapBuffer.
  destruct (Z.land gpu_addr page_mask =? 0) eqn:E.
  - rewrite bind_assert_true by reflexivity. rewrite bind_gets.
    rewrite (Inv_no_translation false s gpu_addr (reachable_Inv_weak s Hr) Ha H).
    reflexivity.
  - apply bind_assert_false. reflexivity.
Qed.

(** The theorem at the start of the three reserved pages, and at the end of the address space. *)
Lemma UnmapBuffer_without_mapping_halts_witness :
  UnmapBuffer 0 0x1000 reserved = AssertFail
  /\ UnmapBuffer address_space_end 0x1000 mapped = AssertFail.
Proof.
  split.
  - apply (UnmapBuffer_without_mapping_halts reserved 0 0x1000 reserved_reachable); [lia|].
    right. exists reserved_area. split; [exact reserved_area_In|].
    split; [discriminate|]. cbn [base size reserved_area]. lia.
  - apply (UnmapBuffer_without_mapping_halts mapped address_space_end 0x1000
             mapped_reachable).
    + rewrite address_space_end_eq. lia.
    + left. lia.
Defined.

(** ** Block accesses that halt *)

(** X8. On a manager that the constructor and the public calls produce,
    [ReadBlock] and [WriteBlock] of at least one byte that start inside an
    [Unmapped] area halt on the assertion of their [default] case
    ([WriteBlock] on a buffer that holds the bytes to write). *)
Theorem block_access_Unmapped_halts
    (s : MemoryManager) (vma : VirtualMemoryArea) (a n : Z) (buf : list Z) :
  reachable s -> In vma (vma_map s) -> type vma = VMAType.Unmapped ->
  base vma <= a < base vma + size vma -> 0 < n ->
  ReadBlock a n s = AssertFail
  /\ (n <= Z.of_nat (length buf) -> WriteBlock a buf n s = AssertFail).
Proof.
  intros Hr Hin Hty Ha Hn.
  destruct (entry_of_address false s vma a (reachable_Inv_weak s Hr) Hin Ha)
    as (Hvalid & HU & _). destruct (HU Hty) as (Hattr & _).
  destruct (page_in_area _ _ _ (proj1 (reachable_Inv_weak s Hr)) Hin Ha) as (Hp0 & _ & Hsz).
  assert (Hfuel : exists k, Z.to_nat n = S k).
  { destruct (Z.to_nat n) eqn:E; [lia | eexists; reflexivity]. }
  destruct Hfuel as (k & Ek).
  assert (Hpos : (0 <? n) = true) by (apply Z.ltb_lt; exact Hn).
  split.
  - unfold ReadBlock. rewrite Ek. cbn [ReadBlock_loop]. rewrite Hpos.
    rewrite bind_gets, shiftr_page_bits.
    rewrite (bind_Ok _ _ _ _ _ (at_page_Ok _ _ s (conj Hp0 Hsz))).
    rewrite Hattr. reflexivity.
  - intros Hlen. unfold WriteBlock.
    replace (Z.of_nat (length buf) <? n) with false by (symmetry; apply Z.ltb_ge; exact Hlen).
    rewrite Ek. cbn [WriteBlock_loop]. rewrite Hpos.
    rewrite bind_gets, shiftr_page_bits.
    rewrite (bind_Ok _ _ _ _ _ (at_page_Ok _ _ s (conj Hp0 Hsz))).
    rewrite Hattr. reflexivity.
Qed.

(** The theorem inside the free area of the new manager. *)
Lemma block_access_Unmapped_halts_witness :
  ReadBlock 0x5000 16 fresh = AssertFail
  /\ WriteBlock 0x5000 [1; 2; 3] 3 fresh = AssertFail.
Proof.
  destruct (block_access_Unmapped_halts fresh free_area 0x5000 16 [] fresh_reachable
              free_area_In eq_refl) as [H1 _];
    [cbn [base size free_area]; lia | lia |].
  destruct (block_access_Unmapped_halts fresh free_area 0x5000 3 [1; 2; 3] fresh_reachable
              free_area_In eq_refl) as [_ H2];
    [cbn [base size free_area]; lia | lia |].
  split; [exact H1 | apply H2; cbn [length]; lia].
Defined.

(** ** Carving outside the address space, and over a mapping *)

Lemma CarveVMA_past_the_end base_ size_ s :
  address_space_end <= base_ -> base_ mod 4096 = 0 -> size_ mod 4096 = 0 ->
  CarveVMA base_ size_ s = Ok (ItNull, s).
Proof.
  intros Hb Hab Has. unfold CarveVMA.
  rewrite bind_assert_true by (apply aligned_test; exact Has).
  rewrite bind_assert_true by (apply aligned_test; exact Hab).
  rewrite (bind_Ok _ _ _ _ _ (FindVMA_end s base_ Hb)).
  unfold StripIterConstness. rewrite bind_ret. reflexivity.
Qed.

(** X9. For a page-aligned [gpu_addr] at or past the end of the address
    space, on any manager, [AllocateSpace(gpu_addr, size, align)] and
    [MapBufferEx(cpu_addr, gpu_addr, size)] dereference the value-initialised
    iterator that [CarveVMA] returns: the call is undefined, no assertion
    halts it. *)
Theorem carve_past_the_end_undefined
    (s : MemoryManager) (cpu_addr gpu_addr size_ align : Z) :
  address_space_end <= gpu_addr -> gpu_addr mod 4096 = 0 ->
  AllocateSpaceAt gpu_addr size_ align s = Undefined
  /\ MapBufferExAt cpu_addr gpu_addr size_ s = Undefined.
Proof.
  intros Hb Hab.
  pose proof (CarveVMA_past_the_end gpu_addr (AlignUp size_ page_size) s Hb Hab
                (AlignUp_mod size_)) as Hc.
  split.
  - unfold AllocateSpaceAt, AllocateMemory. rewrite !bind_bind.
    rewrite (bind_Ok _ _ _ _ _ Hc). reflexivity.
  - unfold MapBufferExAt.
    rewrite bind_assert_true by (apply aligned_test; exact Hab).
    rewrite bind_gets. unfold MapBackingMemory. rewrite !bind_bind.
    rewrite (bind_Ok _ _ _ _ _ Hc). reflexivity.
Qed.

(** The theorem at the end of the address space, on the new manager. *)
Lemma carve_past_the_end_undefined_witness :
  AllocateSpaceAt address_space_end 0x1000 1 fresh = Undefined
  /\ MapBufferExAt 0x100000 address_space_end 0x1000 fresh = Undefined.
Proof.
  apply (carve_past_the_end_undefined fresh 0x100000 address_space_end 0x1000 1); [lia|].
  reflexivity.
Defined.

(** X10. On a manager that the constructor and the public calls produce,
    [AllocateSpace(gpu_addr, size, align)] and
    [MapBufferEx(cpu_addr, gpu_addr, size)] halt on an assertion when
    [gpu_addr] lies in a [Mapped] area whose size is not the page-aligned
    [size]. *)
Theorem carve_over_Mapped_halts
    (s : MemoryManager) (vma : VirtualMemoryArea) (cpu_addr gpu_addr size_ align : Z) :
  reachable s -> In vma (vma_map s) -> type vma = VMAType.Mapped ->
  base vma <= gpu_addr < base vma + size vma ->
  AlignUp size_ page_size <> size vma ->
  AllocateSpaceAt gpu_addr size_ align s = AssertFail
  /\ MapBufferExAt cpu_addr gpu_addr size_ s = AssertFail.
Proof.
  intros Hr Hin Hty Ha Hne.
  destruct (reachable_Inv_weak s Hr) as [Hc _].
  destruct s as [m pt h c b k rc]. cbn [vma_map] in *.
  apply in_split in Hin. destruct Hin as (l1 & l2 & ->).
  pose proof (chain_split _ _ _ _ _ Hc) as (_ & _ & _ & _ & Hlt & _).
  assert (Hsz : (size vma =? AlignUp size_ page_size) = false)
    by (apply Z.eqb_neq; congruence).
  destruct (Z.eq_dec (gpu_addr mod 4096) 0) as [Hal | Hal].
  - pose proof (CarveVMA_Mapped l1 vma l2 pt h c b k rc gpu_addr (AlignUp size_ page_size)
                  Hc Hty Hal (AlignUp_mod size_) Ha) as Hcarve.
    set (s0 := St (l1 ++ vma :: l2) pt h c b k rc) in *.
    split.
    + unfold AllocateSpaceAt, AllocateMemory. rewrite !bind_bind.
      rewrite (bind_Ok _ _ _ _ _ Hcarve). cbv beta. rewrite !bind_bind.
      rewrite (bind_Ok _ _ _ _ _ (area_at l1 vma l2 s0 eq_refl Hlt)). cbv beta.
      rewrite ?bind_bind. apply bind_assert_false. exact Hsz.
    + unfold MapBufferExAt.
      rewrite bind_assert_true by (apply aligned_test; exact Hal).
      rewrite bind_gets. unfold MapBackingMemory. rewrite !bind_bind.
      rewrite (bind_Ok _ _ _ _ _ Hcarve). cbv beta. rewrite !bind_bind.
      rewrite (bind_Ok _ _ _ _ _ (area_at l1 vma l2 s0 eq_refl Hlt)). cbv beta.
      rewrite ?bind_bind. apply bind_assert_false. exact Hsz.
  - assert (Hb : (Z.land gpu_addr page_mask =? 0) = false)
      by (rewrite land_page_mask; apply Z.eqb_neq; exact Hal).
    split.
    + unfold AllocateSpaceAt, AllocateMemory, CarveVMA. rewrite !bind_bind.
      rewrite bind_assert_true by (apply aligned_test; apply AlignUp_mod).
      rewrite !bind_bind. apply bind_assert_false. exact Hb.
    + unfold MapBufferExAt. apply bind_assert_false. exact Hb.
Qed.

(** The theorem for one page inside the two pages mapped at 0. *)
Lemma carve_over_Mapped_halts_witness :
  AllocateSpaceAt 0x1000 0x1000 1 mapped = AssertFail
  /\ MapBufferExAt 0x300000 0x1000 0x1000 mapped = AssertFail.
Proof.
  apply (carve_over_Mapped_halts mapped mapped_area 0x300000 0x1000 0x1000 1
           mapped_reachable mapped_area_In eq_refl).
  - cbn [base size mapped_area]. lia.
  - vm_compute. discriminate.
Defined.

(** ** What the block transfers leave alone, and what they call out *)

Lemma read_bytes_length h p n : length (read_bytes h p n) = Z.to_nat n.
Proof. unfold read_bytes. rewrite length_map, length_seq. reflexivity. Qed.

Lemma copy_amount_bounds rem page_offset :
  0 < rem -> 0 <= page_offset < 4096 ->
  0 < Z.min (page_size - page_offset) rem <= rem.
Proof. intros. rewrite page_size_eq. lia. Qed.

Lemma ReadBlock_loop_frame fuel :
  forall rem page_index page_offset dest s r s',
    0 <= rem < 2 ^ 64 -> 0 <= page_offset < 4096 ->
    ReadBlock_loop fuel rem page_index page_offset dest s = Ok (r, s') ->
    let cs := chunks fuel rem page_index page_offset in
    let now := retired (host_memory s) (rasterizer_cache s) in
    vma_map s' = vma_map s /\ page_table s' = page_table s
    /\ rasterizer_cache s' = rasterizer_cache s
    /\ (forall x, retired (host_memory s') (rasterizer_cache s) x = now x)
    /\ (forall x, host_memory s' x = host_memory s x
                  \/ rasterizer_cache s x = Some (host_memory s' x))
    /\ r = dest ++ flat_map (chunk_bytes now (page_table s)) cs
    /\ length r = (length dest + Z.to_nat rem)%nat
    /\ callouts s' = callouts s ++ map (chunk_flush (page_table s)) cs
    /\ covers flushed (map (chunk_flush (page_table s)) cs) rem.
Proof.
  induction fuel as [|fuel IH]; intros rem page_index page_offset dest s r s' Hrem Hpo H;
    cbn [ReadBlock_loop chunks] in *; destruct (Z.ltb_spec 0 rem) as [Hpos|Hzero];
    try discriminate H.
  - unfold ret in H. inversion H; subst. cbn [flat_map map covers].
    rewrite !app_nil_r. repeat split; try lia; intros x; left; reflexivity.
  - rewrite bind_gets in H.
    apply bind_inv in H. destruct H as (attr & s1 & Hat & H).
    apply at_page_inv in Hat. subst s1.
    destruct attr; [discriminate H|].
    rewrite (bind_Ok _ _ _ _ _ (Rasterizer_FlushRegion_Ok _ _ _)) in H.
    apply bind_inv in H. destruct H as (bytes & s2 & Hcp & H).
    pose proof (copy_amount_bounds rem page_offset Hpos Hpo) as Hca.
    set (copy_amount := Z.min (page_size - page_offset) rem) in *.
    set (src_ptr := pointers (page_table s) page_index + page_offset) in *.
    set (h1 := flush_region (host_memory s) (rasterizer_cache s)
                 (ToCacheAddr src_ptr) copy_amount) in *.
    assert (Hbytes : s2 = with_host_memory (with_callout s (FlushRegion (ToCacheAddr src_ptr)
                                                              copy_amount)) h1
                     /\ bytes = read_bytes h1 src_ptr copy_amount).
    { unfold memcpy_from in Hcp. destruct (_ =? nullptr); [discriminate Hcp|].
      rewrite bind_gets in Hcp. unfold ret in Hcp. inversion Hcp; subst.
      split; reflexivity. }
    destruct Hbytes as [-> ->].
    replace (sub64 rem copy_amount) with (rem - copy_amount) in *
      by (symmetry; apply sub64_small; lia).
    apply IH in H; [|lia|lia].
    cbv zeta in H. destruct H as (A & B & C & R & D & E & F & G & K).
    norm_state_in A. norm_state_in B. norm_state_in C. norm_state_in R.
    norm_state_in D. norm_state_in E. norm_state_in G. norm_state_in K.
    cbv zeta.
    assert (Hnow : forall x, retired h1 (rasterizer_cache s) x
                             = retired (host_memory s) (rasterizer_cache s) x)
      by (intros x; apply retired_flush).
    split; [exact A|]. split; [exact B|]. split; [exact C|].
    split; [intros x; rewrite R; apply Hnow|].
    split.
    { intros x. destruct (D x) as [Dx | Dx]; [|right; exact Dx].
      rewrite Dx. unfold h1, flush_region.
      destruct (in_region _ _ x); [|left; reflexivity].
      destruct (rasterizer_cache s x) eqn:Ec; [right; reflexivity | left; reflexivity]. }
    split.
    { rewrite E, <- app_assoc. f_equal. cbn [flat_map]. f_equal.
      - unfold chunk_bytes, chunk_pointer. cbn [fst snd]. fold src_ptr.
        unfold read_bytes. apply map_ext_in. intros i Hi. apply in_seq in Hi.
        unfold h1, ToCacheAddr. rewrite flush_region_in; [reflexivity|].
        apply in_region_true. lia.
      - apply flat_map_ext. intros ch. unfold chunk_bytes, read_bytes.
        apply map_ext. intros i. apply Hnow. }
    split; [rewrite F, length_app, read_bytes_length; lia|].
    split; [rewrite G, <- app_assoc; reflexivity|].
    cbn [map covers]. exists copy_amount.
    split; [reflexivity|]. split; [lia | exact K].
  - unfold ret in H. inversion H; subst. cbn [flat_map map covers].
    rewrite !app_nil_r. repeat split; try lia; intros x; left; reflexivity.
Qed.

(** X11. When [ReadBlock(src_addr, dest, size)] returns, the map, the page
    table and what the rasterizer holds are as before. The calls it made are
    one [FlushRegion] for each piece of the range, in order, at the host
    address of the piece and of its length; their sizes are positive and add
    up to [size]. [dest] holds [size] bytes: for each piece the bytes at its
    host address, a byte that the rasterizer held a cached write for being
    that write and any other byte being host memory, so each piece is copied
    after its flush. Every byte of host memory is afterwards as it was or is
    the write the rasterizer held for it. *)
Theorem ReadBlock_frame
    (s : MemoryManager) (src_addr size_ : Z) (dest : list Z) (s' : MemoryManager) :
  is_u64 size_ ->
  ReadBlock src_addr size_ s = Ok (dest, s') ->
  let now := retired (host_memory s) (rasterizer_cache s) in
  let l := map (chunk_flush (page_table s)) (block_chunks src_addr size_) in
  vma_map s' = vma_map s /\ page_table s' = page_table s
  /\ rasterizer_cache s' = rasterizer_cache s
  /\ (forall x, host_memory s' x = host_memory s x
                \/ rasterizer_cache s x = Some (host_memory s' x))
  /\ dest = flat_map (chunk_bytes now (page_table s)) (block_chunks src_addr size_)
  /\ length dest = Z.to_nat size_
  /\ callouts s' = callouts s ++ l /\ covers flushed l size_.
Proof.
  intros Hn H. unfold ReadBlock in H.
  apply ReadBlock_loop_frame in H.
  - cbv zeta in *. destruct H as (A & B & C & _ & D & E & F & G & K).
    unfold block_chunks. repeat split; assumption.
  - exact Hn.
  - rewrite land_page_mask. apply Z.mod_pos_bound. lia.
Qed.

(** The theorem for four bytes across the boundary of the two mapped pages, where the rasterizer holds cached writes. *)
Lemma ReadBlock_frame_witness :
  exists dest,
    ReadBlock 0xffe 4 mapped = Ok (dest, run (ReadBlock 0xffe 4) mapped)
    /\ let now := retired (host_memory mapped) (rasterizer_cache mapped) in
       let l := map (chunk_flush (page_table mapped)) (block_chunks 0xffe 4) in
       vma_map (run (ReadBlock 0xffe 4) mapped) = vma_map mapped
       /\ page_table (run (ReadBlock 0xffe 4) mapped) = page_table mapped
       /\ rasterizer_cache (run (ReadBlock 0xffe 4) mapped) = rasterizer_cache mapped
       /\ (forall x, host_memory (run (ReadBlock 0xffe 4) mapped) x = host_memory mapped x
                     \/ rasterizer_cache mapped x
                        = Some (host_memory (run (ReadBlock 0xffe 4) mapped) x))
       /\ dest = flat_map (chunk_bytes now (page_table mapped)) (block_chunks 0xffe 4)
       /\ length dest = Z.to_nat 4
       /\ callouts (run (ReadBlock 0xffe 4) mapped) = callouts mapped ++ l
       /\ covers flushed l 4.
Proof.
  destruct (run_Ok (ReadBlock 0xffe 4) mapped) as [dest E]; [vm_compute; reflexivity|].
  exists dest. split; [exact E|].
  apply (ReadBlock_frame mapped 0xffe 4 dest _); [unfold is_u64; lia | exact E].
Defined.

Lemma WriteBlock_loop_frame fuel :
  forall rem page_index page_offset src s r s',
    0 <= rem < 2 ^ 64 -> 0 <= page_offset < 4096 ->
    WriteBlock_loop fuel rem page_index page_offset src s = Ok (r, s') ->
    vma_map s' = vma_map s /\ page_table s' = page_table s
    /\ exists l, callouts s' = callouts s ++ l /\ covers invalidated l rem.
Proof.
  induction fuel as [|fuel IH]; intros rem page_index page_offset src s r s' Hrem Hpo H;
    cbn [WriteBlock_loop] in H; destruct (Z.ltb_spec 0 rem) as [Hpos|Hzero];
    try discriminate H.
  - unfold ret in H. inversion H; subst.
    repeat split. exists []. rewrite app_nil_r. split; [reflexivity|cbn; lia].
  - rewrite bind_gets in H.
    apply bind_inv in H. destruct H as (attr & s1 & Hat & H).
    apply at_page_inv in Hat. subst s1.
    destruct attr; [discriminate H|].
    rewrite (bind_Ok _ _ _ _ _ (Rasterizer_InvalidateRegion_Ok _ _ _)) in H.
    apply bind_inv in H. destruct H as (u & s2 & Hcp & H).
    pose proof (copy_amount_bounds rem page_offset Hpos Hpo) as Hca.
    set (copy_amount := Z.min (page_size - page_offset) rem) in *.
    set (c := InvalidateRegion
                (ToCacheAddr (pointers (page_table s) page_index + page_offset))
                copy_amount) in *.
    assert (Hs2 : vma_map s2 = vma_map s /\ page_table s2 = page_table s
                  /\ callouts s2 = callouts s ++ [c]).
    { unfold memcpy_to in Hcp. destruct (_ =? nullptr); [discriminate Hcp|].
      unfold modify in Hcp. inversion Hcp; subst. repeat split. }
    destruct Hs2 as (A2 & B2 & C2).
    replace (sub64 rem copy_amount) with (rem - copy_amount) in H
      by (symmetry; apply sub64_small; lia).
    apply IH in H; [|lia|lia].
    destruct H as (A & B & l & E & F).
    repeat split; try congruence.
    eexists. split; [rewrite E, C2, <- app_assoc; reflexivity|].
    cbn [covers app]. exists copy_amount. repeat split; try lia. exact F.
  - unfold ret in H. inversion H; subst.
    repeat split. exists []. rewrite app_nil_r. split; [reflexivity|cbn; lia].
Qed.

(** X12. When [WriteBlock(dest_addr, src, size)] returns, the map and the page
    table are as before, and the calls it made are [InvalidateRegion] calls
    only, of positive sizes that add up to [size]. *)
Theorem WriteBlock_frame
    (s : MemoryManager) (dest_addr size_ : Z) (src_buffer : list Z) (s' : MemoryManager) :
  is_u64 size_ ->
  WriteBlock dest_addr src_buffer size_ s = Ok (tt, s') ->
  vma_map s' = vma_map s /\ page_table s' = page_table s
  /\ exists l, callouts s' = callouts s ++ l /\ covers invalidated l size_.
Proof.
  intros Hn H. unfold WriteBlock in H.
  destruct (Z.of_nat (length src_buffer) <? size_); [discriminate H|].
  apply WriteBlock_loop_frame in H.
  - exact H.
  - exact Hn.
  - rewrite land_page_mask. apply Z.mod_pos_bound. lia.
Qed.

(** The theorem for four bytes across the boundary of the two mapped pages. *)
Lemma WriteBlock_frame_witness :
  vma_map (run (WriteBlock 0xffe [1; 2; 3; 4] 4) mapped) = vma_map mapped
  /\ page_table (run (WriteBlock 0xffe [1; 2; 3; 4] 4) mapped) = page_table mapped
  /\ exists l, callouts (run (WriteBlock 0xffe [1; 2; 3; 4] 4) mapped) = callouts mapped ++ l
               /\ covers invalidated l 4.
Proof.
  destruct (run_Ok (WriteBlock 0xffe [1; 2; 3; 4] 4) mapped) as [[] E];
    [vm_compute; reflexivity|].
  apply (WriteBlock_frame mapped 0xffe 4 [1; 2; 3; 4] _); [unfold is_u64; lia | exact E].
Defined.

(** ** The unchecked block transfers *)

Lemma WriteBlockUnsafe_loop_mapped base_ size_ memory fuel :
  base_ mod 4096 = 0 -> 0 <= base_ -> base_ + size_ <= address_space_end -> 0 < memory ->
  forall rem page_index page_offset src s,
    mapped_pages (page_table s) base_ size_ memory ->
    0 <= page_index -> 0 <= page_offset < 4096 -> 0 <= rem ->
    (0 < rem -> base_ <= page_index * 4096 + page_offset
                /\ page_index * 4096 + page_offset + rem <= base_ + size_) ->
    (Z.to_nat rem <= fuel)%nat ->
    rem <= Z.of_nat (length src) ->
    exists s',
      WriteBlockUnsafe_loop fuel rem page_index page_offset src s = Ok (tt, s')
      /\ page_table s' = page_table s
      /\ vma_map s' = vma_map s
      /\ callouts s' = callouts s
      /\ forall x,
           host_memory s' x
           = write_bytes (host_memory s)
               (memory + (page_index * 4096 + page_offset - base_))
               (firstn (Z.to_nat rem) src) x.
Proof.
  intros Hal Hb Hend Hmem.
  induction fuel as [|fuel IH];
    intros rem page_index page_offset src s Hmap Hpi Hpo Hrem Hin Hfuel Hlen.
  - assert (rem = 0) by lia. subst rem. exists s. cbn [WriteBlockUnsafe_loop Z.ltb Z.compare].
    repeat split. intros x. cbn [Z.to_nat firstn]. rewrite write_bytes_nil. reflexivity.
  - cbn [WriteBlockUnsafe_loop]. destruct (0 <? rem) eqn:Hpos.
    2:{ apply Z.ltb_ge in Hpos. exists s. repeat split. intros x.
        replace (Z.to_nat rem) with O by lia. cbn [firstn].
        rewrite write_bytes_nil. reflexivity. }
    apply Z.ltb_lt in Hpos. destruct (Hin Hpos) as [Hlo Hhi].
    assert (Hend' : page_index * 4096 + page_offset + rem <= address_space_end) by lia.
    pose proof (block_round rem page_index page_offset Hpi Hpo Hpos Hend')
      as (Hc & Hc' & Hpage & Esub & Eadd & _ & Enext).
    set (copy_amount := Z.min (page_size - page_offset) rem) in *.
    assert (Htouch : base_ <= page_index * 4096 < base_ + size_)
      by (eapply touched_page; eassumption).
    destruct (Hmap page_index Htouch) as (Hattr & Hptr).
    rewrite bind_gets.
    rewrite (bind_Ok _ _ _ _ _ (at_page_Ok _ _ s Hpage)).
    replace (pointers (page_table s) page_index =? nullptr) with false
      by (symmetry; apply Z.eqb_neq; rewrite Hptr; unfold nullptr; lia).
    cbn [negb].
    replace (Z.of_nat (length src) <? copy_amount) with false
      by (symmetry; apply Z.ltb_ge; lia).
    unfold memcpy_to.
    replace (pointers (page_table s) page_index =? nullptr) with false
      by (symmetry; apply Z.eqb_neq; rewrite Hptr; unfold nullptr; lia).
    rewrite bind_modify.
    set (s2 := with_host_memory s _).
    rewrite Esub, Eadd.
    destruct (IH (rem - copy_amount) (page_index + 1) 0
                (skipn (Z.to_nat copy_amount) src) s2)
      as (s' & Erun & Ept & Evm & Eco & Ehost).
    + exact Hmap.
    + lia.
    + lia.
    + lia.
    + lia.
    + lia.
    + rewrite length_skipn. lia.
    + exists s'. split; [exact Erun|]. split; [exact Ept|]. split; [exact Evm|].
      split; [exact Eco|].
      intros x. rewrite Ehost.
      destruct (Z.eq_dec (rem - copy_amount) 0) as [E0|E0].
      * rewrite E0. cbn [Z.to_nat firstn]. rewrite write_bytes_nil.
        unfold s2. cbn [host_memory with_host_memory].
        rewrite Hptr. replace copy_amount with rem by lia.
        f_equal. lia.
      * assert (Elen : Z.of_nat (length (firstn (Z.to_nat copy_amount) src)) = copy_amount).
        { rewrite length_firstn. lia. }
        replace (memory + ((page_index + 1) * 4096 + 0 - base_))
          with (memory + (page_index * 4096 + page_offset - base_)
                + Z.of_nat (length (firstn (Z.to_nat copy_amount) src))) by lia.
        unfold s2. cbn [host_memory with_host_memory].
        rewrite Hptr.
        replace (memory + (page_index * 4096 - base_) + page_offset)
          with (memory + (page_index * 4096 + page_offset - base_)) by lia.
        rewrite write_bytes_app. f_equal.
        rewrite <- (firstn_skipn (Z.to_nat copy_amount) (firstn (Z.to_nat rem) src)).
        rewrite firstn_firstn, skipn_firstn_comm.
        replace (Nat.min (Z.to_nat copy_amount) (Z.to_nat rem)) with (Z.to_nat copy_amount) by lia.
        replace (Z.to_nat rem - Z.to_nat copy_amount)%nat with (Z.to_nat (rem - copy_amount)) by lia.
        reflexivity.
Qed.

Lemma WriteBlockUnsafe_loop_null fuel :
  forall rem page_index page_offset src s,
    0 <= page_index -> 0 <= page_offset < 4096 -> 0 <= rem ->
    page_index * 4096 + page_offset + rem <= address_space_end ->
    (forall p, page_index <= p -> p * 4096 < page_index * 4096 + page_offset + rem ->
       pointers (page_table s) p = nullptr) ->
    (Z.to_nat rem <= fuel)%nat ->
    WriteBlockUnsafe_loop fuel rem page_index page_offset src s = Ok (tt, s).
Proof.
  induction fuel as [|fuel IH]; intros rem page_index page_offset src s Hpi Hpo Hrem Hend Hnull Hfuel.
  - assert (rem = 0) by lia. subst rem. reflexivity.
  - cbn [WriteBlockUnsafe_loop]. destruct (0 <? rem) eqn:Hpos; [|reflexivity].
    apply Z.ltb_lt in Hpos.
    pose proof (block_round rem page_index page_offset Hpi Hpo Hpos Hend)
      as (Hc & Hc' & Hpage & Esub & Eadd & Hend' & Enext).
    set (copy_amount := Z.min (page_size - page_offset) rem) in *.
    rewrite bind_gets.
    rewrite (bind_Ok _ _ _ _ _ (at_page_Ok _ _ s Hpage)).
    rewrite (Hnull page_index) by lia. cbn [negb Z.eqb nullptr]. rewrite bind_ret.
    rewrite Esub, Eadd. apply IH; try lia.
    intros p Hp Hlt. apply Hnull; [lia|].
    destruct (Z.eq_dec (rem - copy_amount) 0) as [E0|E0]; [lia|].
    specialize (Enext ltac:(lia)). lia.
Qed.

(** A write and a read through the pages of one mapped region. *)
Lemma unsafe_write_read s base_ size_ memory a n buf :
  base_ mod 4096 = 0 -> 0 <= base_ -> base_ + size_ <= address_space_end -> 0 < memory ->
  mapped_pages (page_table s) base_ size_ memory ->
  base_ <= a -> a + n <= base_ + size_ -> Z.of_nat (length buf) = n ->
  exists s1,
    WriteBlockUnsafe a buf n s = Ok (tt, s1)
    /\ ReadBlockUnsafe a n s1 = Ok (buf, s1)
    /\ callouts s1 = callouts s /\ vma_map s1 = vma_map s /\ page_table s1 = page_table s.
Proof.
  intros Hal Hb Hend Hmem Hmap Hlo Hhi Hlen.
  assert (Hn : 0 <= n) by lia.
  assert (Hq : 0 <= a / 4096) by (apply Z.div_pos; lia).
  assert (Hr : 0 <= a mod 4096 < 4096) by (apply Z.mod_pos_bound; lia).
  assert (Ea : a / 4096 * 4096 + a mod 4096 = a)
    by (rewrite Z.mul_comm, <- Z.div_mod by lia; reflexivity).
  destruct (WriteBlockUnsafe_loop_mapped base_ size_ memory (Z.to_nat n)
              Hal Hb Hend Hmem n (a / 4096) (a mod 4096) buf s)
    as (s1 & Ew & Ept & Evm & Eco & Ehost); try lia; try assumption.
  exists s1. split; [|split; [|repeat split; assumption]].
  - unfold WriteBlockUnsafe. rewrite shiftr_page_bits, land_page_mask. exact Ew.
  - unfold ReadBlockUnsafe. rewrite shiftr_page_bits, land_page_mask.
    rewrite ReadBlockUnsafe_loop_spec by lia.
    cbn [app]. rewrite Ea. f_equal. f_equal.
    apply (nth_ext _ _ 0 0).
    + rewrite length_map, zrange_length. lia.
    + intros i Hi. rewrite length_map, zrange_length in Hi.
      rewrite (nth_indep _ 0 (unsafe_byte s1 0)) by (rewrite length_map, zrange_length; lia).
      rewrite map_nth, nth_zrange by lia.
      set (x := a + Z.of_nat i).
      assert (Hx : base_ <= x < base_ + size_) by (unfold x; lia).
      pose proof (Z.div_mod x 4096 ltac:(lia)) as Hdm.
      pose proof (Z.mod_pos_bound x 4096 ltac:(lia)) as Hmod.
      assert (Hpg : base_ <= x / 4096 * 4096 < base_ + size_).
      { assert (base_ / 4096 <= x / 4096) by (apply Z.div_le_mono; lia).
        pose proof (Z.div_mod base_ 4096 ltac:(lia)). lia. }
      unfold unsafe_byte. rewrite shiftr_page_bits, land_page_mask, Ept.
      destruct (Hmap _ Hpg) as (_ & Hptr). rewrite Hptr. cbv zeta.
      replace (memory + (x / 4096 * 4096 - base_) =? nullptr) with false
        by (symmetry; apply Z.eqb_neq; unfold nullptr; lia).
      rewrite Ehost, Ea.
      replace (memory + (x / 4096 * 4096 - base_) + x mod 4096)
        with (memory + (a - base_) + Z.of_nat i) by (unfold x in *; lia).
      rewrite write_bytes_read by (rewrite length_firstn; lia).
      rewrite Nat2Z.id, firstn_all2 by lia. reflexivity.
Qed.

(** X13. On a manager that the constructor and the public calls produce,
    [WriteBlockUnsafe] into a range inside an area that is not [Mapped]
    returns and changes nothing: the pages have no pointer and are skipped,
    where [WriteBlock] halts or copies through the null pointer. *)
Theorem WriteBlockUnsafe_skips_unbacked
    (s : MemoryManager) (vma : VirtualMemoryArea) (a n : Z) (buf : list Z) :
  reachable s -> In vma (vma_map s) -> type vma <> VMAType.Mapped ->
  base vma <= a -> a + n <= base vma + size vma -> 0 <= n ->
  WriteBlockUnsafe a buf n s = Ok (tt, s).
Proof.
  intros Hr Hin Hty Hlo Hhi Hn.
  destruct (reachable_Inv_weak s Hr) as [Hc Hp]. rewrite Forall_forall in Hp.
  destruct (tiles_In _ _ Hc Hin) as (Hb & _ & Hal & _ & Hend).
  unfold WriteBlockUnsafe. rewrite shiftr_page_bits, land_page_mask.
  pose proof (Z.div_mod a 4096 ltac:(lia)) as Hdm.
  pose proof (Z.mod_pos_bound a 4096 ltac:(lia)) as Hmod.
  apply WriteBlockUnsafe_loop_null; try lia.
  intros p Hp1 Hp2.
  assert (Hpg : base vma <= p * 4096 < base vma + size vma).
  { assert (base vma / 4096 <= a / 4096) by (apply Z.div_le_mono; lia).
    pose proof (Z.div_mod (base vma) 4096 ltac:(lia)). lia. }
  destruct (Hp vma Hin) as (_ & Hproj). specialize (Hproj p Hpg).
  destruct (type vma); [apply Hproj | apply Hproj | exfalso; apply Hty; reflexivity].
Qed.

(** The theorem for four bytes inside the three reserved pages. *)
Lemma WriteBlockUnsafe_skips_unbacked_witness :
  WriteBlockUnsafe 0xffe [1; 2; 3; 4] 4 reserved = Ok (tt, reserved).
Proof.
  apply (WriteBlockUnsafe_skips_unbacked reserved reserved_area 0xffe 4 [1; 2; 3; 4]
           reserved_reachable reserved_area_In);
    [discriminate | cbn [base reserved_area]; lia | cbn [base size reserved_area]; lia | lia].
Defined.

(** X14. On a manager that the constructor and the public calls produce, with a
    memory bus that backs guest addresses by host memory: for a range wholly
    inside one [Mapped] area, [WriteBlockUnsafe(a, buf, n)] returns and
    [ReadBlockUnsafe(a, out, n)] after it yields [out = buf]; neither calls
    the rasterizer, and the map and the page table are as before. *)
Theorem WriteBlockUnsafe_ReadBlockUnsafe_roundtrip
    (s : MemoryManager) (vma : VirtualMemoryArea) (a n : Z) (buf : list Z) :
  reachable s -> bus_backed s ->
  In vma (vma_map s) -> type vma = VMAType.Mapped ->
  base vma <= a -> a + n <= base vma + size vma ->
  Z.of_nat (length buf) = n ->
  exists s1,
    WriteBlockUnsafe a buf n s = Ok (tt, s1)
    /\ ReadBlockUnsafe a n s1 = Ok (buf, s1)
    /\ callouts s1 = callouts s /\ vma_map s1 = vma_map s /\ page_table s1 = page_table s.
Proof.
  intros Hr Hbus Hv Hty Hlo Hhi Hlen.
  destruct (reachable_Inv s Hr Hbus) as [Hc Hp].
  rewrite Forall_forall in Hp.
  destruct (projected_mapped_pages _ _ Hty (Hp vma Hv)) as [Hmem Hpages].
  destruct (tiles_In _ _ Hc Hv) as (Hb & _ & Hal & _ & Hend).
  apply (unsafe_write_read s (base vma) (size vma) (backing_memory vma)); assumption.
Qed.

(** The theorem for four bytes across the boundary of the two mapped pages. *)
Lemma WriteBlockUnsafe_ReadBlockUnsafe_roundtrip_witness :
  exists s1,
    WriteBlockUnsafe 0xffe [1; 2; 3; 4] 4 mapped = Ok (tt, s1)
    /\ ReadBlockUnsafe 0xffe 4 s1 = Ok ([1; 2; 3; 4], s1)
    /\ callouts s1 = callouts mapped /\ vma_map s1 = vma_map mapped
    /\ page_table s1 = page_table mapped.
Proof.
  apply (WriteBlockUnsafe_ReadBlockUnsafe_roundtrip mapped mapped_area 0xffe 4 [1; 2; 3; 4]
           mapped_reachable mapped_bus mapped_area_In eq_refl).
  - cbn [base mapped_area]. lia.
  - cbn [base size mapped_area]. lia.
  - reflexivity.
Defined.

(** X15. On a manager that the constructor and the public calls produce, with a
    memory bus that backs guest addresses by host memory: for a destination
    range wholly inside one [Mapped] area and a source range inside the
    address space, [CopyBlockUnsafe(dest, src, n)] returns and the
    destination then reads as the source read before the call, also when
    the two ranges overlap; it calls nothing and leaves the map and the page
    table as they were. *)
Theorem CopyBlockUnsafe_copies
    (s : MemoryManager) (vma : VirtualMemoryArea) (dest_addr src_addr n : Z) :
  reachable s -> bus_backed s ->
  In vma (vma_map s) -> type vma = VMAType.Mapped ->
  base vma <= dest_addr -> dest_addr + n <= base vma + size vma ->
  0 <= src_addr -> 0 <= n -> src_addr + n <= address_space_end ->
  exists data s1,
    ReadBlockUnsafe src_addr n s = Ok (data, s)
    /\ CopyBlockUnsafe dest_addr src_addr n s = Ok (tt, s1)
    /\ ReadBlockUnsafe dest_addr n s1 = Ok (data, s1)
    /\ callouts s1 = callouts s /\ vma_map s1 = vma_map s /\ page_table s1 = page_table s.
Proof.
  intros Hr Hbus Hv Hty Hlo Hhi Hsrc Hn Hend.
  destruct (reachable_Inv s Hr Hbus) as [Hc Hp].
  rewrite Forall_forall in Hp.
  destruct (projected_mapped_pages _ _ Hty (Hp vma Hv)) as [Hmem Hpages].
  destruct (tiles_In _ _ Hc Hv) as (Hb & _ & Hal & _ & Hend').
  assert (Er : ReadBlockUnsafe src_addr n s
               = Ok (map (unsafe_byte s) (zrange src_addr n), s)).
  { unfold ReadBlockUnsafe. rewrite shiftr_page_bits, land_page_mask.
    pose proof (Z.div_mod src_addr 4096 ltac:(lia)).
    pose proof (Z.mod_pos_bound src_addr 4096 ltac:(lia)).
    rewrite ReadBlockUnsafe_loop_spec by lia.
    cbn [app]. rewrite Z.mul_comm, <- Z.div_mod by lia. reflexivity. }
  destruct (unsafe_write_read s (base vma) (size vma) (backing_memory vma) dest_addr n
              (map (unsafe_byte s) (zrange src_addr n)) Hal Hb Hend' Hmem Hpages Hlo Hhi)
    as (s1 & Ew & Erd & Hfr).
  { rewrite length_map, zrange_length. lia. }
  exists (map (unsafe_byte s) (zrange src_addr n)), s1.
  split; [exact Er|]. split; [|split; [exact Erd | exact Hfr]].
  unfold CopyBlockUnsafe. rewrite (bind_Ok _ _ _ _ _ Er). exact Ew.
Qed.

(** The theorem for 256 bytes copied from the end of the first mapped page into the second, the ranges overlapping. *)
Lemma CopyBlockUnsafe_copies_witness :
  exists data s1,
    ReadBlockUnsafe 0xff0 0x100 mapped = Ok (data, mapped)
    /\ CopyBlockUnsafe 0x1000 0xff0 0x100 mapped = Ok (tt, s1)
    /\ ReadBlockUnsafe 0x1000 0x100 s1 = Ok (data, s1)
    /\ callouts s1 = callouts mapped /\ vma_map s1 = vma_map mapped
    /\ page_table s1 = page_table mapped.
Proof.
  apply (CopyBlockUnsafe_copies mapped mapped_area 0x1000 0xff0 0x100
           mapped_reachable mapped_bus mapped_area_In eq_refl);
    try (cbn [base size mapped_area]; lia).
  rewrite address_space_end_eq. lia.
Defined.

(** ** The continuity test *)

Lemma block_ends start size_ :
  0 <= start -> 0 < size_ -> start + size_ <= 2 ^ 64 ->
  sub64 size_ 1 = size_ - 1 /\ add64 start (sub64 size_ 1) = start + size_ - 1.
Proof.
  intros Hs Hn Hend.
  assert (E : sub64 size_ 1 = size_ - 1) by (apply sub64_small; lia).
  split; [exact E|]. rewrite E. rewrite add64_small by lia. lia.
Qed.

(** X16. On a manager that the constructor and the public calls produce, with a
    memory bus that backs guest addresses by host memory,
    [IsBlockContinuous(start, size)] is true for every block of at least one
    byte that lies inside one [Mapped] area. *)
Theorem IsBlockContinuous_in_mapped
    (s : MemoryManager) (vma : VirtualMemoryArea) (start size_ : Z) :
  reachable s -> bus_backed s ->
  In vma (vma_map s) -> type vma = VMAType.Mapped ->
  base vma <= start -> start + size_ <= base vma + size vma -> 0 < size_ ->
  IsBlockContinuous s start size_ = true.
Proof.
  intros Hr Hbus Hin Hty Hlo Hhi Hn.
  pose proof (reachable_Inv s Hr Hbus) as HI.
  destruct (tiles_In _ _ (proj1 HI) Hin) as (Hb & _ & _ & _ & Hend).
  rewrite address_space_end_eq in Hend.
  destruct (block_ends start size_) as [E1 E2]; try lia.
  unfold IsBlockContinuous. cbv zeta. rewrite E2, E1.
  destruct (GetPointer_mapped_area s vma start HI Hin Hty ltac:(lia)) as [-> _].
  destruct (GetPointer_mapped_area s vma (start + size_ - 1) HI Hin Hty ltac:(lia)) as [-> _].
  apply Z.eqb_eq. unfold wrap64.
  replace (backing_memory vma + (start + size_ - 1 - base vma)
           - (backing_memory vma + (start - base vma))) with (size_ - 1) by lia.
  apply Z.mod_small. lia.
Qed.

(** The theorem for a page-sized block across the boundary of the two mapped pages. *)
Lemma IsBlockContinuous_in_mapped_witness :
  IsBlockContinuous mapped 0x800 0x1000 = true.
Proof.
  apply (IsBlockContinuous_in_mapped mapped mapped_area 0x800 0x1000
           mapped_reachable mapped_bus mapped_area_In eq_refl);
    cbn [base size mapped_area]; lia.
Defined.

(** X17. On a manager that the constructor and the public calls produce, for a
    block whose first and last byte both lie outside the [Mapped] areas,
    [IsBlockContinuous(start, size)] is true exactly when [size] is 1 (the
    block not passing [2^64]): both
    host pointers are null, and a single byte without memory counts as
    continuous. *)
Theorem IsBlockContinuous_unbacked (s : MemoryManager) (start size_ : Z) :
  reachable s -> 0 <= start -> 0 < size_ -> start + size_ <= 2 ^ 64 ->
  (address_space_end <= start
   \/ exists vma, In vma (vma_map s) /\ type vma <> VMAType.Mapped
                  /\ base vma <= start < base vma + size vma) ->
  (address_space_end <= start + size_ - 1
   \/ exists vma, In vma (vma_map s) /\ type vma <> VMAType.Mapped
                  /\ base vma <= start + size_ - 1 < base vma + size vma) ->
  IsBlockContinuous s start size_ = (size_ =? 1).
Proof.
  intros Hr Hs Hn Hend H1 H2.
  pose proof (reachable_Inv_weak s Hr) as HI.
  destruct (block_ends start size_) as [E1 E2]; try lia.
  unfold IsBlockContinuous. cbv zeta. rewrite E2, E1.
  rewrite (GetPointer_null_outside false s start HI Hs H1).
  rewrite (GetPointer_null_outside false s (start + size_ - 1) HI ltac:(lia) H2).
  unfold nullptr. change (wrap64 (0 - 0)) with 0.
  destruct (Z.eqb_spec size_ 1) as [->|Hne]; [reflexivity|].
  apply Z.eqb_neq. lia.
Qed.

(** The theorem inside the three reserved pages, for a page-sized block and for one byte. *)
Lemma IsBlockContinuous_unbacked_witness :
  IsBlockContinuous reserved 0x800 0x1000 = (0x1000 =? 1)
  /\ IsBlockContinuous reserved 0x800 1 = (1 =? 1).
Proof.
  assert (A : forall a, 0 <= a < 0x3000 ->
            exists vma, In vma (vma_map reserved) /\ type vma <> VMAType.Mapped
                        /\ base vma <= a < base vma + size vma).
  { intros a Ha. exists reserved_area. split; [exact reserved_area_In|].
    split; [discriminate|]. cbn [base size reserved_area]. lia. }
  split.
  - apply (IsBlockContinuous_unbacked reserved 0x800 0x1000 reserved_reachable);
      try lia; right; apply A; lia.
  - apply (IsBlockContinuous_unbacked reserved 0x800 1 reserved_reachable);
      try lia; right; apply A; lia.
Defined.

(** X18. On a manager that the constructor and the public calls produce, with a
    memory bus that backs guest addresses by host memory,
    [IsBlockContinuous(start, size)] is false for a block that starts inside
    a [Mapped] area and whose last byte lies outside the [Mapped] areas,
    provided neither [start + size] nor the host pointer of [start] plus
    [size] passes [2^64]. *)
Theorem IsBlockContinuous_leaving_mapped
    (s : MemoryManager) (vma : VirtualMemoryArea) (start size_ : Z) :
  reachable s -> bus_backed s ->
  In vma (vma_map s) -> type vma = VMAType.Mapped ->
  base vma <= start < base vma + size vma ->
  0 < size_ -> start + size_ <= 2 ^ 64 ->
  GetPointer s start + size_ <= 2 ^ 64 ->
  (address_space_end <= start + size_ - 1
   \/ exists w, In w (vma_map s) /\ type w <> VMAType.Mapped
                /\ base w <= start + size_ - 1 < base w + size w) ->
  IsBlockContinuous s start size_ = false.
Proof.
  intros Hr Hbus Hin Hty Ha Hn Hend Hhost H2.
  pose proof (reachable_Inv s Hr Hbus) as HI.
  destruct (tiles_In _ _ (proj1 HI) Hin) as (Hb & _ & _ & _ & _).
  destruct (block_ends start size_) as [E1 E2]; try lia.
  unfold IsBlockContinuous. cbv zeta. rewrite E2, E1.
  rewrite (GetPointer_null_outside true s (start + size_ - 1) HI ltac:(lia) H2).
  destruct (GetPointer_mapped_area s vma start HI Hin Hty Ha) as [E Hmem].
  rewrite E in *. unfold nullptr.
  set (p := backing_memory vma + (start - base vma)) in *.
  assert (Hp : 0 < p) by (unfold p; lia).
  apply Z.eqb_neq. unfold wrap64.
  replace (0 - p) with (2 ^ 64 - p + (-1) * 2 ^ 64) by lia.
  rewrite Z.mod_add by lia. rewrite Z.mod_small by lia. lia.
Qed.

(** The theorem for a page-sized block that starts in the second mapped page and ends in the free area. *)
Lemma IsBlockContinuous_leaving_mapped_witness :
  IsBlockContinuous mapped 0x1800 0x1000 = false.
Proof.
  apply (IsBlockContinuous_leaving_mapped mapped mapped_area 0x1800 0x1000
           mapped_reachable mapped_bus mapped_area_In eq_refl);
    try (cbn [base size mapped_area]; lia).
  - vm_compute. discriminate.
  - right. exists (mkVMA 0x2000 (0x10000000000 - 0x2000) VMAType.Unmapped 0 0 0).
    split; [vm_compute; right; left; reflexivity|].
    split; [discriminate | cbn [base size]; lia].
Defined.

(** ** What an allocation and a mapping leave *)

Lemma MapPages_loop_backing n b mem back pt p :
  0 <= b -> b + Z.of_nat n < 2 ^ 64 ->
  0 <= back < 2 ^ 64 -> back + Z.of_nat n * 4096 <= 2 ^ 64 ->
  b <= p < b + Z.of_nat n ->
  backing_addr (MapPages_loop n b mem back pt) p = back + (p - b) * 4096.
Proof.
  revert b mem back pt. induction n as [|n IH]; intros b mem back pt Hb Hn Hk Hw Hp; [lia|].
  cbn [MapPages_loop]. rewrite add64_small by lia.
  destruct (Z.eq_dec p b) as [->|Hne].
  - rewrite MapPages_loop_backing_outside by lia.
    cbn [backing_addr]. unfold store. rewrite Z.eqb_refl. lia.
  - assert (Hn1 : (1 <= n)%nat) by lia.
    rewrite page_size_eq.
    rewrite IH; try lia.
    + rewrite add64_small by lia. lia.
    + rewrite add64_small by lia. lia.
    + rewrite add64_small by lia. lia.
Qed.

Lemma projection_backing_mapped v pt p :
  region_ok (base v) (size v) -> type v = VMAType.Mapped -> 0 < backing_memory v ->
  0 <= vma_backing_addr v -> vma_backing_addr v + size v <= 2 ^ 64 ->
  base v <= p * 4096 < base v + size v ->
  backing_addr (projection v pt) p = vma_backing_addr v + (p * 4096 - base v).
Proof.
  intros Hr Hty Hmem Hback Hw Hp.
  pose proof (region_pages _ _ Hr) as (E & Hle & Eb).
  unfold projection. rewrite Hty. unfold MapPages_table.
  replace (backing_memory v =? nullptr) with false
    by (symmetry; apply Z.eqb_neq; unfold nullptr; lia).
  destruct Hr as (Hb & Hn & Hbm & Hnm & He).
  rewrite E, Eb in *. rewrite pointers_size_eq in Hle. pose proof pow64.
  assert (0 <= base v / 4096) by (apply Z.div_pos; lia).
  assert (base v / 4096 <= (base v + size v) / 4096) by (apply Z.div_le_mono; lia).
  assert (base v = 4096 * (base v / 4096))
    by (rewrite (Z.div_mod (base v) 4096) at 1 by lia; lia).
  assert (base v + size v = 4096 * ((base v + size v) / 4096)).
  { rewrite (Z.div_mod (base v + size v) 4096) at 1 by lia.
    rewrite Z.add_mod, Hbm, Hnm by lia. cbn. lia. }
  rewrite MapPages_loop_backing; rewrite ?Z2Nat.id; try lia.
Qed.

(** What a returning [MapBackingMemory] leaves: the area [x] it rewrote, the
    page table with that area projected, and a [Mapped] area of the map
    around it. *)
Lemma MapBackingMemory_result m pt h c b k rc target memory size_ backing it s1 :
  tiles m -> Forall (projected false pt) m ->
  0 <= target -> 0 <= size_ < 2 ^ 64 ->
  MapBackingMemory target memory size_ backing (St m pt h c b k rc) = Ok (it, s1) ->
  exists x m',
    s1 = St m' (projection (set_mapping x VMAType.Mapped memory backing) pt) h c b k rc
    /\ tiles m'
    /\ base x <= target < base x + size x /\ size x = size_ /\ 0 < size x
    /\ region_ok (base x) (size x)
    /\ (base x = target \/ In x m /\ type x = VMAType.Mapped)
    /\ exists u, In u m' /\ type u = VMAType.Mapped
                 /\ base u <= base x /\ base x + size x <= base u + size u.
Proof.
  intros Hc Hp Hb Hn H. unfold MapBackingMemory in H.
  apply bind_inv in H. destruct H as (it0 & s0 & Hcarve & H).
  destruct (CarveVMA_inv false m pt h c b k rc target size_ it0 s0 Hc Hp Hb Hn Hcarve)
    as [-> | (l1 & x & l2 & -> & -> & Hc1 & Hp1 & _ & Hin & Hcase)].
  { discriminate H. }
  pose proof (chain_split _ _ _ _ _ Hc1) as (_ & _ & _ & _ & Hlt & _).
  set (s0 := St (l1 ++ x :: l2) pt h c b k rc) in *.
  rewrite (bind_Ok _ _ _ x _ (area_at l1 x l2 s0 eq_refl Hlt)) in H.
  destruct (Z.eqb_spec (size x) size_) as [Es|]; [|discriminate H].
  rewrite bind_assert_true in H by reflexivity.
  unfold s0 in H.
  rewrite (remap_at l1 x l2 pt h c b k rc
             (fun v => set_mapping v VMAType.Mapped memory backing) Hc1 eq_refl eq_refl) in H.
  inversion H; subst it s1. clear H.
  set (x' := set_mapping x VMAType.Mapped memory backing).
  assert (Hx : In x (l1 ++ x :: l2)) by (apply in_app_iff; right; left; reflexivity).
  destruct (tiles_In _ _ Hc1 Hx) as (Hxb & Hxs & Hxa & Hxsa & Hxe).
  assert (Hc' : tiles (l1 ++ x' :: l2))
    by (eapply chain_replace; [exact Hc1 | reflexivity | reflexivity]).
  destruct (merged_shape _ _ _ _ _ Hc') as (l1' & l2' & Em & Hcm & Hty & Hlo & Hhi & _).
  exists x, (merged_map l1 x' l2).
  split; [reflexivity|]. split; [exact Hcm|]. split; [exact Hin|]. split; [exact Es|]. split; [exact Hxs|].
  split; [unfold region_ok; repeat split; try assumption; lia|].
  split.
  - destruct Hcase as [[Hm Em'] | (_ & E & _)];
      [right; split; [rewrite <- Em'; exact Hx | exact Hm] | left; exact E].
  - exists (merged_area l1 x' l2). split; [rewrite Em; apply in_app_iff; right; left; reflexivity|].
    split; [exact Hty|]. split; [exact Hlo | exact Hhi].
Qed.

Lemma AllocateMemory_result m pt h c b k rc target offset_ size_ it s1 :
  tiles m -> Forall (projected false pt) m ->
  0 <= target -> 0 <= size_ < 2 ^ 64 ->
  AllocateMemory target offset_ size_ (St m pt h c b k rc) = Ok (it, s1) ->
  exists x m' pt',
    s1 = St m' pt' h c b k rc
    /\ tiles m'
    /\ base x <= target < base x + size x /\ size x = size_ /\ 0 < size x
    /\ region_ok (base x) (size x)
    /\ (base x = target \/ In x m /\ type x = VMAType.Mapped)
    /\ exists u, In u m' /\ type u = VMAType.Allocated
                 /\ base u <= base x /\ base x + size x <= base u + size u.
Proof.
  intros Hc Hp Hb Hn H. unfold AllocateMemory in H.
  apply bind_inv in H. destruct H as (it0 & s0 & Hcarve & H).
  destruct (CarveVMA_inv false m pt h c b k rc target size_ it0 s0 Hc Hp Hb Hn Hcarve)
    as [-> | (l1 & x & l2 & -> & -> & Hc1 & Hp1 & _ & Hin & Hcase)].
  { discriminate H. }
  pose proof (chain_split _ _ _ _ _ Hc1) as (_ & _ & _ & _ & Hlt & _).
  set (s0 := St (l1 ++ x :: l2) pt h c b k rc) in *.
  rewrite (bind_Ok _ _ _ x _ (area_at l1 x l2 s0 eq_refl Hlt)) in H.
  destruct (Z.eqb_spec (size x) size_) as [Es|]; [|discriminate H].
  rewrite bind_assert_true in H by reflexivity.
  rewrite (bind_Ok _ _ s0 tt _ (assign_at l1 x l2 _ s0 eq_refl Hlt)) in H.
  unfold s0 in H. norm_state_in H.
  set (x' := set_offset x offset_) in *.
  assert (Hc' : tiles (l1 ++ x' :: l2))
    by (eapply chain_replace; [exact Hc1 | reflexivity | reflexivity]).
  change (base x) with (base x') in H.
  rewrite (Allocate_at l1 x' l2 pt h c b k rc Hc') in H. inversion H; subst it s1. clear H.
  assert (Hx : In x (l1 ++ x :: l2)) by (apply in_app_iff; right; left; reflexivity).
  destruct (tiles_In _ _ Hc1 Hx) as (Hxb & Hxs & Hxa & Hxsa & Hxe).
  assert (Hc'' : tiles (l1 ++ allocated x' :: l2))
    by (eapply chain_replace; [exact Hc' | reflexivity | reflexivity]).
  destruct (merged_shape _ _ _ _ _ Hc'') as (l1' & l2' & Em & Hcm & Hty & Hlo & Hhi & _).
  exists x, (merged_map l1 (allocated x') l2). eexists.
  split; [reflexivity|]. split; [exact Hcm|]. split; [exact Hin|]. split; [exact Es|]. split; [exact Hxs|].
  split; [unfold region_ok; repeat split; try assumption; lia|].
  split.
  - destruct Hcase as [[Hm Em'] | (_ & E & _)];
      [right; split; [rewrite <- Em'; exact Hx | exact Hm] | left; exact E].
  - exists (merged_area l1 (allocated x') l2).
    split; [rewrite Em; apply in_app_iff; right; left; reflexivity|].
    split; [exact Hty|]. split; [exact Hlo | exact Hhi].
Qed.

(** [find_free] finds an [Unmapped] area of the map. *)
Lemma find_free_In m region_start size_ v :
  find_free m region_start size_ = Some v -> In v m /\ type v = VMAType.Unmapped.
Proof.
  induction m as [|u m IH]; cbn [find_free]; [discriminate|].
  destruct (VMAType.eqb (type u) VMAType.Unmapped) eqn:Et; cbn [negb].
  - destruct (_ && _).
    + intros H. inversion H; subst. split; [left; reflexivity|].
      destruct (type v); try discriminate Et. reflexivity.
    + intros H. destruct (IH H). split; [right; assumption | assumption].
  - intros H. destruct (IH H). split; [right; assumption | assumption].
Qed.

(** The address [FindFreeRegion] answers is the base of the area it lies in,
    whenever that area is [Mapped]. *)
Lemma FindFreeRegion_base s size_ x :
  tiles (vma_map s) -> In x (vma_map s) -> type x = VMAType.Mapped ->
  base x <= FindFreeRegion s address_space_base size_ < base x + size x ->
  base x = FindFreeRegion s address_space_base size_.
Proof.
  intros Hc Hx Hty. unfold FindFreeRegion, address_space_base.
  destruct (tiles_In _ _ Hc Hx) as (Hxb & _).
  destruct (find_free _ _ _) as [v|] eqn:E.
  - destruct (find_free_In _ _ _ _ E) as [Hv Hvt].
    destruct (tiles_In _ _ Hc Hv) as (Hvb & Hvs & _).
    rewrite Z.max_r by lia. intros Hin.
    destruct (tiles_distinct _ x v Hc Hx Hv) as [-> | [H|H]]; [|lia|lia].
    rewrite Hty in Hvt. discriminate Hvt.
  - lia.
Qed.

(** ** The public calls that return *)

Lemma MapBufferEx_result m pt h c b k rc cpu_addr size_ gpu_addr s' :
  tiles m -> Forall (projected false pt) m ->
  is_u64 cpu_addr -> is_u64 size_ ->
  MapBufferEx cpu_addr size_ (St m pt h c b k rc) = Ok (gpu_addr, s') ->
  exists x m',
    s' = St m' (projection (set_mapping x VMAType.Mapped (b cpu_addr) cpu_addr) pt) h
           (c ++ [SetMemoryAttribute cpu_addr size_ true]) b k rc
    /\ tiles m'
    /\ base x = gpu_addr /\ size x = AlignUp size_ page_size /\ 0 < size x
    /\ region_ok (base x) (size x)
    /\ exists u, In u m' /\ type u = VMAType.Mapped
                 /\ base u <= base x /\ base x + size x <= base u + size u.
Proof.
  intros Hc Hp Hcpu Hn H. unfold MapBufferEx in H. rewrite bind_gets in H.
  cbn [Memory_GetPointer] in H.
  apply bind_inv in H. destruct H as (it & s1 & Hmap & H).
  set (s := St m pt h c b k rc) in *.
  destruct (MapBackingMemory_result m pt h c b k rc _ _ _ _ it s1 Hc Hp
              (FindFreeRegion_nonneg s _) (AlignUp_u64 _ _) Hmap)
    as (x & m' & -> & Hc' & Hin & Es & Hpos & Hreg & Hcase & Hu).
  apply bind_inv in H. destruct H as (? & s2 & Hdev & H).
  apply set_device_mapped_inv in Hdev. subst s2.
  unfold ret in H. inversion H; subst gpu_addr s'. clear H.
  exists x, m'. split; [reflexivity|]. split; [exact Hc'|].
  split; [|split; [exact Es | split; [exact Hpos | split; [exact Hreg | exact Hu]]]].
  destruct Hcase as [E | [Hx Hty]]; [exact E|].
  apply (FindFreeRegion_base s _ x Hc Hx Hty Hin).
Qed.

(** The entries of the page table for an address of a freshly projected
    [Mapped] area. *)
Lemma mapped_entry x pt a :
  region_ok (base x) (size x) -> type x = VMAType.Mapped -> 0 < backing_memory x ->
  base x <= a < base x + size x ->
  IsAddressValid a = true
  /\ base x <= a / 4096 * 4096 < base x + size x
  /\ pointers (projection x pt) (a / 4096)
     = backing_memory x + (a / 4096 * 4096 - base x).
Proof.
  intros Hreg Hty Hmem Ha.
  pose proof Hreg as (Hb & Hn & Hbm & Hnm & He).
  pose proof (Z.div_mod a 4096 ltac:(lia)) as Hdm.
  pose proof (Z.mod_pos_bound a 4096 ltac:(lia)) as Hmod.
  assert (Hpg : base x <= a / 4096 * 4096 < base x + size x).
  { assert (base x / 4096 <= a / 4096) by (apply Z.div_le_mono; lia).
    pose proof (Z.div_mod (base x) 4096 ltac:(lia)). lia. }
  split; [apply IsAddressValid_lt; lia|]. split; [exact Hpg|].
  destruct (projection_inside true x pt Hreg) as (_ & Hproj).
  - intros _ _. exact Hmem.
  - intros E. rewrite Hty in E. discriminate E.
  - specialize (Hproj _ Hpg). rewrite Hty in Hproj. apply Hproj. reflexivity.
Qed.

(** X19. On a manager that the constructor and the public calls produce, when
    [MapBufferEx(cpu_addr, size)] returns [gpu_addr] and the memory bus gave
    a pointer that is not null: the page-aligned size is positive,
    [gpu_addr] is page-aligned and the range ends inside the address space;
    the only call made is [SetMemoryAttribute(cpu_addr, size, DeviceMapped)]
    and host memory is as before; and for every offset [i] into the aligned
    range [GetPointer(gpu_addr + i)] is the bus pointer plus [i] and, for a
    [cpu_addr] that is not 0 and does not wrap, [GpuToCpuAddress(gpu_addr + i)]
    is [cpu_addr + i]. *)
Theorem MapBufferEx_translates
    (s : MemoryManager) (cpu_addr size_ gpu_addr : Z) (s' : MemoryManager) :
  reachable s -> is_u64 cpu_addr -> is_u64 size_ ->
  0 < Memory_GetPointer s cpu_addr ->
  MapBufferEx cpu_addr size_ s = Ok (gpu_addr, s') ->
  0 < AlignUp size_ page_size
  /\ gpu_addr mod 4096 = 0
  /\ gpu_addr + AlignUp size_ page_size <= address_space_end
  /\ callouts s' = callouts s ++ [SetMemoryAttribute cpu_addr size_ true]
  /\ host_memory s' = host_memory s
  /\ forall i, 0 <= i < AlignUp size_ page_size ->
       GetPointer s' (gpu_addr + i) = Memory_GetPointer s cpu_addr + i
       /\ (0 < cpu_addr -> cpu_addr + AlignUp size_ page_size <= 2 ^ 64 ->
           GpuToCpuAddress s' (gpu_addr + i) = Some (cpu_addr + i)).
Proof.
  intros Hr Hcpu Hn Hmem H.
  destruct (reachable_Inv_weak s Hr) as [Hc Hp].
  destruct s as [m pt h c b k rc]. cbn [vma_map page_table Memory_GetPointer callouts
                                      host_memory] in *.
  destruct (MapBufferEx_result m pt h c b k rc cpu_addr size_ gpu_addr s' Hc Hp Hcpu Hn H)
    as (x & m' & -> & Hc' & Eb & Es & Hpos & Hreg & _).
  set (x' := set_mapping x VMAType.Mapped (b cpu_addr) cpu_addr).
  assert (Hreg' : region_ok (base x') (size x')) by exact Hreg.
  pose proof Hreg as (Hb0 & Hn0 & Hbm & Hnm & He).
  rewrite <- Es, <- Eb.
  split; [exact Hpos|]. split; [exact Hbm|]. split; [exact He|].
  split; [reflexivity|]. split; [reflexivity|].
  intros i Hi.
  destruct (mapped_entry x' pt (base x + i) Hreg' eq_refl Hmem)
    as (Hvalid & Hpg & Hptr); [cbn [base size x' set_mapping]; lia|].
  cbn [base size backing_memory x' set_mapping] in Hpg, Hptr.
  pose proof (Z.div_mod (base x + i) 4096 ltac:(lia)) as Hdm.
  pose proof (Z.mod_pos_bound (base x + i) 4096 ltac:(lia)) as Hmod.
  split.
  - unfold GetPointer. rewrite Hvalid, shiftr_page_bits, land_page_mask. cbn [negb page_table].
    fold x'. rewrite Hptr.
    replace (b cpu_addr + ((base x + i) / 4096 * 4096 - base x) =? nullptr) with false
      by (symmetry; apply Z.eqb_neq; unfold nullptr; lia).
    cbn [negb]. lia.
  - intros Hc0 Hw.
    unfold GpuToCpuAddress. rewrite Hvalid, shiftr_page_bits, land_page_mask.
    cbn [negb page_table]. fold x'.
    rewrite (projection_backing_mapped x' pt ((base x + i) / 4096) Hreg' eq_refl Hmem);
      cbn [base size vma_backing_addr x' set_mapping]; try lia.
    replace (cpu_addr + ((base x + i) / 4096 * 4096 - base x) =? 0) with false
      by (symmetry; apply Z.eqb_neq; lia).
    cbn [negb]. rewrite add64_small by lia. f_equal. lia.
Qed.

(** The theorem for the mapping of two pages made on the new manager. *)
Lemma MapBufferEx_translates_witness :
  GetPointer mapped 0x1234 = Memory_GetPointer fresh 0x100000 + 0x1234
  /\ GpuToCpuAddress mapped 0x1234 = Some (0x100000 + 0x1234).
Proof.
  destruct (run_Ok (MapBufferEx 0x100000 0x2000) fresh) as [gpu E]; [vm_compute; reflexivity|].
  assert (Eg : gpu = 0).
  { assert (Ev : rbind (MapBufferEx 0x100000 0x2000 fresh) (fun r => Ok (fst r)) = Ok 0)
      by (vm_compute; reflexivity).
    rewrite E in Ev. cbn in Ev. congruence. }
  subst gpu.
  assert (U : forall x, 0 <= x < 0x10000000000 -> is_u64 x) by (unfold is_u64; lia).
  destruct (MapBufferEx_translates fresh 0x100000 0x2000 0 _ fresh_reachable
              (U 0x100000 ltac:(lia)) (U 0x2000 ltac:(lia)) ltac:(vm_compute; reflexivity) E)
    as (_ & _ & _ & _ & _ & Hi).
  change (AlignUp 0x2000 page_size) with 0x2000 in Hi.
  destruct (Hi 0x1234 ltac:(lia)) as [H1 H2].
  split; [exact H1 | apply H2; lia].
Defined.

Lemma AllocateSpace_result m pt h c b k rc size_ align gpu_addr s' :
  tiles m -> Forall (projected false pt) m -> is_u64 size_ ->
  AllocateSpace size_ align (St m pt h c b k rc) = Ok (gpu_addr, s') ->
  exists m' pt',
    s' = St m' pt' h c b k rc
    /\ tiles m'
    /\ 0 < AlignUp size_ page_size
    /\ region_ok gpu_addr (AlignUp size_ page_size)
    /\ exists u, In u m' /\ type u = VMAType.Allocated
                 /\ base u <= gpu_addr
                 /\ gpu_addr + AlignUp size_ page_size <= base u + size u.
Proof.
  intros Hc Hp Hn H. unfold AllocateSpace in H. rewrite bind_gets in H.
  apply bind_inv in H. destruct H as (it & s1 & Halloc & H).
  set (s := St m pt h c b k rc) in *.
  destruct (AllocateMemory_result m pt h c b k rc _ 0 _ it s1 Hc Hp
              (FindFreeRegion_nonneg s _) (AlignUp_u64 _ _) Halloc)
    as (x & m' & pt' & -> & Hc' & Hin & Es & Hpos & Hreg & Hcase & Hu).
  unfold ret in H. inversion H; subst gpu_addr s'. clear H.
  assert (Eb : base x = FindFreeRegion s address_space_base (AlignUp size_ page_size)).
  { destruct Hcase as [E | [Hx Hty]]; [exact E|].
    apply (FindFreeRegion_base s _ x Hc Hx Hty Hin). }
  rewrite <- Eb, <- Es.
  exists m', pt'. split; [reflexivity|]. split; [exact Hc'|]. split; [exact Hpos|].
  split; [exact Hreg | exact Hu].
Qed.

(** X20. On a manager that the constructor and the public calls produce, when
    [AllocateSpace(size, align)] returns [gpu_addr]: the page-aligned size
    is positive, [gpu_addr] is page-aligned, the range
    [gpu_addr, gpu_addr + aligned size) lies inside the address space and
    inside one [Allocated] area of the map; no call is made and host memory
    is as before. *)
Theorem AllocateSpace_reserves
    (s : MemoryManager) (size_ align gpu_addr : Z) (s' : MemoryManager) :
  reachable s -> is_u64 size_ ->
  AllocateSpace size_ align s = Ok (gpu_addr, s') ->
  0 < AlignUp size_ page_size
  /\ gpu_addr mod 4096 = 0
  /\ 0 <= gpu_addr /\ gpu_addr + AlignUp size_ page_size <= address_space_end
  /\ callouts s' = callouts s /\ host_memory s' = host_memory s
  /\ exists vma, In vma (vma_map s') /\ type vma = VMAType.Allocated
                 /\ base vma <= gpu_addr
                 /\ gpu_addr + AlignUp size_ page_size <= base vma + size vma.
Proof.
  intros Hr Hn H.
  destruct (reachable_Inv_weak s Hr) as [Hc Hp].
  destruct s as [m pt h c b k rc]. cbn [vma_map page_table callouts host_memory] in *.
  destruct (AllocateSpace_result m pt h c b k rc size_ align gpu_addr s' Hc Hp Hn H)
    as (m' & pt' & -> & _ & Hpos & (Hb & _ & Hbm & _ & He) & Hu).
  cbn [vma_map callouts host_memory]. repeat split; assumption.
Qed.

(** The theorem for the reservation of three pages made on the new manager. *)
Lemma AllocateSpace_reserves_witness :
  exists vma, In vma (vma_map reserved) /\ type vma = VMAType.Allocated
              /\ base vma <= 0 /\ 0 + AlignUp 0x3000 page_size <= base vma + size vma.
Proof.
  destruct (run_Ok (AllocateSpace 0x3000 1) fresh) as [gpu E]; [vm_compute; reflexivity|].
  assert (Eg : gpu = 0).
  { assert (Ev : rbind (AllocateSpace 0x3000 1 fresh) (fun r => Ok (fst r)) = Ok 0)
      by (vm_compute; reflexivity).
    rewrite E in Ev. cbn in Ev. congruence. }
  subst gpu.
  assert (U : is_u64 0x3000) by (unfold is_u64; lia).
  destruct (AllocateSpace_reserves fresh 0x3000 1 0 _ fresh_reachable U E)
    as (_ & _ & _ & _ & _ & _ & H).
  exact H.
Defined.

(** A mapping into an area that is not [Mapped] and holds the range
    succeeds. *)
Lemma MapBufferExAt_succeeds m pt h c b k rc u cpu_addr gpu_addr size_ :
  tiles m -> In u m -> type u <> VMAType.Mapped ->
  gpu_addr mod 4096 = 0 -> 0 < AlignUp size_ page_size ->
  base u <= gpu_addr -> gpu_addr + AlignUp size_ page_size <= base u + size u ->
  k cpu_addr size_ true = true ->
  exists s'', MapBufferExAt cpu_addr gpu_addr size_ (St m pt h c b k rc) = Ok (gpu_addr, s'').
Proof.
  intros Hc Hu Hty Hal Hpos Hlo Hhi Hk.
  apply in_split in Hu. destruct Hu as (l1 & l2 & ->).
  unfold MapBufferExAt.
  rewrite bind_assert_true by (apply aligned_test; exact Hal).
  rewrite bind_gets. cbn [Memory_GetPointer].
  destruct (MapBackingMemory_at l1 u l2 pt h c b k rc gpu_addr (b cpu_addr)
              (AlignUp size_ page_size) cpu_addr
              Hc Hty Hal (AlignUp_mod size_) Hpos Hlo Hhi) as (it & m2 & pt2 & Emap).
  rewrite (bind_Ok _ _ _ _ _ Emap).
  unfold set_device_mapped, call.
  rewrite bind_bind, bind_modify, bind_bind, bind_gets.
  norm_state. rewrite Hk. rewrite bind_assert_true by reflexivity.
  eexists. reflexivity.
Qed.

(** X21. On a manager that the constructor and the public calls produce, after
    [AllocateSpace(size, align)] has returned [gpu_addr],
    [MapBufferEx(cpu_addr, target, size2)] returns [target] for every
    page-aligned [target] and positive aligned [size2] whose range lies
    inside the reserved range, when the kernel accepts the attribute
    change. *)
Theorem AllocateSpace_then_MapBufferEx
    (s : MemoryManager) (size_ align gpu_addr : Z) (s' : MemoryManager)
    (cpu_addr target size2 : Z) :
  reachable s -> is_u64 size_ ->
  AllocateSpace size_ align s = Ok (gpu_addr, s') ->
  gpu_addr <= target -> target mod 4096 = 0 ->
  0 < AlignUp size2 page_size ->
  target + AlignUp size2 page_size <= gpu_addr + AlignUp size_ page_size ->
  SetMemoryAttribute_IsSuccess s cpu_addr size2 true = true ->
  exists s'', MapBufferExAt cpu_addr target size2 s' = Ok (target, s'').
Proof.
  intros Hr Hn H Hlo Hal Hpos Hhi Hk.
  destruct (reachable_Inv_weak s Hr) as [Hc Hp].
  destruct s as [m pt h c b k rc]. cbn [vma_map page_table SetMemoryAttribute_IsSuccess] in *.
  destruct (AllocateSpace_result m pt h c b k rc size_ align gpu_addr s' Hc Hp Hn H)
    as (m' & pt' & -> & Hc' & _ & _ & u & Hu & Hty & Hub & Hue).
  apply (MapBufferExAt_succeeds m' pt' h c b k rc u); try assumption; try lia.
  rewrite Hty. discriminate.
Qed.

(** The theorem for two pages mapped at the second of the three reserved pages. *)
Lemma AllocateSpace_then_MapBufferEx_witness :
  exists s'', MapBufferExAt 0x100000 0x1000 0x1800 reserved = Ok (0x1000, s'').
Proof.
  destruct (run_Ok (AllocateSpace 0x3000 1) fresh) as [gpu E]; [vm_compute; reflexivity|].
  assert (Eg : gpu = 0).
  { assert (Ev : rbind (AllocateSpace 0x3000 1 fresh) (fun r => Ok (fst r)) = Ok 0)
      by (vm_compute; reflexivity).
    rewrite E in Ev. cbn in Ev. congruence. }
  subst gpu.
  assert (U : is_u64 0x3000) by (unfold is_u64; lia).
  apply (AllocateSpace_then_MapBufferEx fresh 0x3000 1 0 _ 0x100000 0x1000 0x1800
           fresh_reachable U E); try lia; try reflexivity.
Defined.



(** ** Copies inside the GPU address space *)





Lemma flush_region_ext h h' cache cache' a n x :
  (forall y, h y = h' y) -> (forall y, cache y = cache' y) ->
  flush_region h cache a n x = flush_region h' cache' a n x.
Proof. intros Hh Hc. unfold flush_region. rewrite Hh, Hc. reflexivity. Qed.







(** ** Unmapping returns *)

Lemma any_of_from_begin l2 pred : any_of_from l2 (map_begin l2) pred = false.
Proof.
  destruct l2 as [|n l2]; [reflexivity|].
  cbn [any_of_from map_begin iter_eqb]. rewrite Z.eqb_refl. reflexivity.
Qed.

Lemma any_of_single l1 v l2 pred :
  keys_lt (base v) l1 -> keys_gt (base v) l2 ->
  any_of (l1 ++ v :: l2) (It (base v)) (map_begin l2) pred = pred v.
Proof.
  intros Hlt Hgt. induction l1 as [|u l1 IH]; cbn [app any_of iter_eqb].
  - rewrite Z.eqb_refl. cbn [any_of_from].
    replace (iter_eqb (It (base v)) (map_begin l2)) with false.
    + rewrite any_of_from_begin. apply orb_false_r.
    + destruct l2 as [|n l2]; [reflexivity|]. cbn [map_begin iter_eqb].
      inversion Hgt; subst. symmetry. apply Z.eqb_neq. lia.
  - inversion Hlt; subst.
    replace (base u =? base v) with false by (symmetry; apply Z.eqb_neq; lia).
    apply IH. assumption.
Qed.

(** [CarveVMARange] returns the area that starts at [target] when no area of
    the range is free. *)
Lemma CarveVMARange_returns l1 v l2 pt h c b k rc target size_ :
  tiles (l1 ++ v :: l2) ->
  base v <= target < base v + size v ->
  target mod 4096 = 0 -> size_ mod 4096 = 0 -> 0 < size_ -> target + size_ < 2 ^ 64 ->
  any_of (l1 ++ v :: l2) (It (base v)) (lower_bound (l1 ++ v :: l2) (target + size_))
    (fun entry => VMAType.eqb (type entry) VMAType.Unmapped) = false ->
  exists m1,
    CarveVMARange target size_ (St (l1 ++ v :: l2) pt h c b k rc)
    = Ok (It target, St m1 pt h c b k rc).
Proof.
  intros Hc Hv Hat Han Hpos Hnowrap Hany.
  pose proof pow64 as P. pose proof address_space_end_eq as Eend.
  pose proof (chain_split _ _ _ _ _ Hc) as (Hc1 & Hs & Ha & Hc2 & Hlt & Hgt & Hge).
  pose proof (chain_le _ _ _ Hc1) as Hle1. pose proof (chain_le _ _ _ Hc2) as Hle2.
  set (m := l1 ++ v :: l2) in *. set (s := St m pt h c b k rc).
  assert (Hms : vma_map s = l1 ++ v :: l2) by reflexivity.
  unfold CarveVMARange.
  rewrite bind_assert_true by (apply aligned_test; exact Han).
  rewrite bind_assert_true by (apply aligned_test; exact Hat).
  rewrite add64_small by lia.
  rewrite bind_assert_true by (apply Z.leb_le; lia).
  rewrite bind_assert_true by (apply Z.ltb_lt; lia).
  rewrite (bind_Ok _ _ _ _ _ (FindVMA_at 0 l1 v l2 address_space_end s target
                                Hms Hc Hv ltac:(lia))).
  unfold StripIterConstness. rewrite bind_ret, bind_gets.
  change (vma_map s) with m. rewrite Hany.
  rewrite (bind_Ok _ _ _ v _ (area_at l1 v l2 s Hms Hlt)).
  set (te := target + size_) in *.
  assert (Hte4 : te mod 4096 = 0)
    by (unfold te; rewrite <- Zplus_mod_idemp_l, Hat, Z.add_0_l; exact Han).
  (* the end of the range is split off a map that tiles *)
  assert (Hend : forall m1 (it : VMAIter), tiles m1 ->
    exists m2,
      ((found <- FindVMA te ;;
        end_vma <- ret found ;;
        (if negb (iter_eqb end_vma ItEnd) then
           last <- area end_vma ;;
           if negb (te =? base last)
           then SplitVMA end_vma (sub64 te (base last)) ;;; ret tt
           else ret tt
         else ret tt) ;;;
        ret it) (St m1 pt h c b k rc))
      = Ok (it, St m2 pt h c b k rc)).
  { intros m1 it Hcm1. set (s1 := St m1 pt h c b k rc).
    destruct (Z_le_dec address_space_end te) as [Hte|Hte].
    - rewrite (bind_Ok _ _ _ _ _ (FindVMA_end s1 te Hte)).
      rewrite !bind_ret. cbn [iter_eqb negb]. rewrite bind_ret.
      exists m1. reflexivity.
    - destruct (chain_locate 0 m1 address_space_end te Hcm1) as (j1 & w & j2 & Em1 & Hw);
        [unfold te; lia|].
      assert (Hms1 : vma_map s1 = j1 ++ w :: j2) by (unfold s1; cbn [vma_map]; exact Em1).
      rewrite Em1 in Hcm1.
      pose proof (chain_split _ _ _ _ _ Hcm1) as (Hcj & Hsw & Haw & _ & Hltw & _).
      pose proof (chain_le _ _ _ Hcj).
      rewrite (bind_Ok _ _ _ _ _ (FindVMA_at 0 j1 w j2 address_space_end s1 te
                                    Hms1 Hcm1 Hw ltac:(lia))).
      rewrite !bind_ret. cbn [iter_eqb negb]. rewrite bind_bind.
      rewrite (bind_Ok _ _ _ w _ (area_at j1 w j2 s1 Hms1 Hltw)).
      destruct (Z.eqb_spec te (base w)) as [E|Hne]; cbn [negb].
      + rewrite !bind_ret. exists m1. reflexivity.
      + rewrite sub64_small by lia. rewrite bind_bind.
        rewrite (bind_Ok _ _ _ _ _ (SplitVMA_at 0 j1 w j2 address_space_end s1 (te - base w)
                                      Hms1 Hcm1 ltac:(lia) ltac:(lia) ltac:(lia))).
        rewrite !bind_ret.
        exists (j1 ++ set_size w (te - base w) :: split_right w (te - base w) :: j2).
        reflexivity. }
  destruct (Z.eqb_spec target (base v)) as [E|Hne]; cbn [negb].
  - rewrite bind_ret. rewrite <- E.
    exact (Hend m (It target) Hc).
  - rewrite sub64_small by lia.
    rewrite (bind_Ok _ _ _ _ _ (SplitVMA_at 0 l1 v l2 address_space_end s (target - base v)
                                  Hms Hc ltac:(lia) ltac:(lia) ltac:(lia))).
    replace (base v + (target - base v)) with target by lia.
    assert (Hoa : (target - base v) mod 4096 = 0).
    { pose proof (chain_aligned _ _ _ Hc1 eq_refl) as Hbv.
      rewrite Zminus_mod, Hat, Hbv. reflexivity. }
    apply (Hend _ (It target)).
    apply chain_after_split; [exact Hc | lia | exact Hoa].
Qed.

(** [UnmapRange] returns on a range inside one area that is not free. *)
Lemma UnmapRange_inside strict l1 v l2 pt h c b k rc target size_ :
  tiles (l1 ++ v :: l2) -> Forall (projected strict pt) (l1 ++ v :: l2) ->
  type v <> VMAType.Unmapped ->
  base v <= target -> target + size_ <= base v + size v ->
  target mod 4096 = 0 -> size_ mod 4096 = 0 -> 0 < size_ ->
  exists m' pt',
    UnmapRange target size_ (St (l1 ++ v :: l2) pt h c b k rc) = Ok (tt, St m' pt' h c b k rc).
Proof.
  intros Hc Hp Hty Hlo Hhi Hat Han Hpos.
  pose proof pow64 as P. pose proof address_space_end_eq as Eend.
  pose proof (chain_split _ _ _ _ _ Hc) as (Hc1 & Hs & Ha & Hc2 & Hlt & Hgt & Hge).
  pose proof (chain_le _ _ _ Hc1) as Hle1. pose proof (chain_le _ _ _ Hc2) as Hle2.
  set (te := target + size_) in *.
  assert (Hany : any_of (l1 ++ v :: l2) (It (base v)) (lower_bound (l1 ++ v :: l2) te)
                   (fun entry => VMAType.eqb (type entry) VMAType.Unmapped) = false).
  { replace (lower_bound (l1 ++ v :: l2) te) with (map_begin l2).
    - rewrite any_of_single by assumption. destruct (type v); try reflexivity.
      contradiction Hty; reflexivity.
    - symmetry. replace (l1 ++ v :: l2) with ((l1 ++ [v]) ++ l2)
        by (rewrite <- app_assoc; reflexivity).
      apply lower_bound_at.
      + apply Forall_app. split.
        * revert Hlt. apply Forall_impl. intros u. lia.
        * constructor; [lia | constructor].
      + revert Hge. apply Forall_impl. intros u. lia. }
  destruct (CarveVMARange_returns l1 v l2 pt h c b k rc target size_ Hc ltac:(lia) Hat Han Hpos
              ltac:(unfold te in *; lia) Hany) as (m1 & Hcarve).
  destruct (CarveVMARange_inv strict _ pt h c b k rc target size_ _ _ Hc Hp ltac:(lia)
              ltac:(unfold te in *; lia) Hcarve)
    as [Hnull | (m1' & E & _ & Hcm1 & Hpm1 & Hk & _ & Hincl & _)]; [discriminate Hnull|].
  injection E as E. subst m1'.
  destruct (keys_decompose m1 target Hk) as (j1 & x & j2 & Em1 & Ex).
  unfold UnmapRange. rewrite (bind_Ok _ _ _ _ _ Hcarve).
  rewrite add64_small by (unfold te in *; lia). fold te.
  rewrite bind_gets. cbn [vma_map]. subst m1.
  destruct (UnmapRange_loop_spec strict h c b k rc target te (length (j1 ++ x :: j2))
              j1 (x :: j2) pt Hcm1 Hpm1) as (m' & pt' & Hloop & Hcm' & Hpm' & Hincl' & _).
  { intros a Hr. cbn [start_of] in Hr. lia. }
  { rewrite length_app. lia. }
  cbn [map_begin] in Hloop. rewrite Ex in Hloop.
  rewrite (bind_Ok _ _ _ _ _ Hloop).
  destruct (chain_locate 0 m' address_space_end target Hcm') as (i1 & w & i2 & Em' & Hw);
    [lia|].
  set (s' := St m' pt' h c b k rc).
  assert (Hms' : vma_map s' = i1 ++ w :: i2) by (unfold s'; cbn [vma_map]; exact Em').
  rewrite Em' in Hcm'.
  pose proof (chain_split _ _ _ _ _ Hcm') as (_ & _ & _ & Hc2' & Hlt' & _).
  rewrite (bind_Ok _ _ _ _ _ (FindVMA_at 0 i1 w i2 address_space_end s' target
                                Hms' Hcm' Hw ltac:(lia))).
  rewrite (bind_Ok _ _ _ w _ (area_at i1 w i2 s' Hms' Hlt')).
  exists m', pt'. apply assert_true. apply Z.leb_le.
  assert (Hend : te <= base w + size w); [|unfold te in *; lia].
  destruct i2 as [|n i2]; [cbn [chain] in Hc2'; lia|].
  cbn [chain] in Hc2'. destruct Hc2' as (En & _).
  assert (Hn : In (base n) (keys m')).
  { rewrite Em'. unfold keys. rewrite map_app. apply in_app_iff. right. right. left.
    reflexivity. }
  apply Hincl', Hincl in Hn. cbn [In] in Hn.
  destruct Hn as [Hn | [Hn | Hn]]; [lia | lia |].
  unfold keys in Hn. rewrite map_app in Hn. apply in_app_iff in Hn. cbn [map In] in Hn.
  destruct Hn as [Hn | [Hn | Hn]]; [| lia |].
  - apply in_map_iff in Hn. destruct Hn as (u & Eu & Hu).
    pose proof (proj1 (Forall_forall _ _) Hlt u Hu) as Hx. cbv beta in Hx. lia.
  - apply in_map_iff in Hn. destruct Hn as (u & Eu & Hu).
    pose proof (proj1 (Forall_forall _ _) Hge u Hu) as Hx. cbv beta in Hx. lia.
Qed.

(** [UnmapBuffer] on a range inside one [Mapped] area whose first page has a
    CPU address. *)
Lemma UnmapBuffer_inside m pt h c b k rc vma gpu_addr size_ cpu_addr :
  tiles m -> Forall (projected false pt) m ->
  In vma m -> type vma = VMAType.Mapped ->
  base vma <= gpu_addr -> gpu_addr + AlignUp size_ page_size <= base vma + size vma ->
  gpu_addr mod 4096 = 0 -> 0 < AlignUp size_ page_size ->
  GpuToCpuAddress (St m pt h c b k rc) gpu_addr = Some cpu_addr ->
  k cpu_addr size_ false = true ->
  let cache_addr := ToCacheAddr (GetPointer (St m pt h c b k rc) gpu_addr) in
  exists m' pt',
    UnmapBuffer gpu_addr size_ (St m pt h c b k rc)
    = Ok (gpu_addr,
          St m' pt' (flush_region h rc cache_addr (AlignUp size_ page_size))
            (c ++ [FlushAndInvalidateRegion cache_addr (AlignUp size_ page_size);
                   SetMemoryAttribute cpu_addr size_ false]) b k
            (invalidate_region rc cache_addr (AlignUp size_ page_size)))
    /\ tiles m' /\ Forall (projected false pt') m'
    /\ forall a, gpu_addr <= a < gpu_addr + AlignUp size_ page_size -> in_allocated m' a.
Proof.
  intros Hc Hp Hin Hty Hlo Hhi Hal Hpos Hcpu Hk cache_addr.
  destruct (tiles_In m vma Hc Hin) as (Hb0 & _ & _ & _ & Hbe).
  destruct (in_split _ _ Hin) as (l1 & l2 & Em). subst m.
  set (s := St (l1 ++ vma :: l2) pt h c b k rc) in *.
  set (fl := FlushAndInvalidateRegion cache_addr (AlignUp size_ page_size)).
  set (h1 := flush_region h rc cache_addr (AlignUp size_ page_size)).
  set (rc1 := invalidate_region rc cache_addr (AlignUp size_ page_size)).
  destruct (UnmapRange_inside false l1 vma l2 pt h1 (c ++ [fl]) b k rc1 gpu_addr
              (AlignUp size_ page_size) Hc Hp) as (m' & pt' & Hun);
    try assumption; [rewrite Hty; discriminate | apply AlignUp_mod |].
  pose proof pow64 as P. pose proof address_space_end_eq as Eend.
  destruct (UnmapRange_Inv false _ pt h1 (c ++ [fl]) b k rc1 gpu_addr
              (AlignUp size_ page_size) _
              Hc Hp ltac:(lia) (AlignUp_u64 _ _) Hun)
    as (m'' & pt'' & E & Hc' & Hp' & _ & Hall & _).
  injection E as E1 E2. subst m'' pt''.
  exists m', pt'. split; [|split; [exact Hc' | split; [exact Hp'|]]].
  - unfold UnmapBuffer.
    rewrite bind_assert_true by (apply aligned_test; exact Hal).
    rewrite bind_gets. rewrite Hcpu.
    rewrite (bind_Ok _ _ _ _ _ (GPU_FlushAndInvalidateRegion_Ok _ _ s)).
    unfold s at 1 2 3. norm_state. fold s. fold cache_addr. fold fl. fold h1. fold rc1.
    rewrite (bind_Ok _ _ _ _ _ Hun).
    unfold set_device_mapped, call. rewrite bind_bind, bind_modify, bind_bind, bind_gets.
    norm_state. rewrite Hk. rewrite bind_assert_true by reflexivity.
    unfold ret. rewrite <- app_assoc. reflexivity.
  - intros a Ha. apply Hall; lia.
Qed.

(** X24. On a manager that the constructor and the public calls produce,
    [UnmapBuffer(gpu_addr, size)] returns [gpu_addr] when [gpu_addr] is
    page-aligned, the range of the page-aligned size is not empty and lies
    inside one [Mapped] area, the page of [gpu_addr] has a CPU address and the
    kernel accepts the attribute change; every address of the range then lies
    in an [Allocated] area and has neither a host pointer nor a CPU
    address. *)
Theorem UnmapBuffer_returns
    (s : MemoryManager) (vma : VirtualMemoryArea) (gpu_addr size_ cpu_addr : Z) :
  reachable s ->
  In vma (vma_map s) -> type vma = VMAType.Mapped ->
  base vma <= gpu_addr -> gpu_addr + AlignUp size_ page_size <= base vma + size vma ->
  gpu_addr mod 4096 = 0 -> 0 < AlignUp size_ page_size ->
  GpuToCpuAddress s gpu_addr = Some cpu_addr ->
  SetMemoryAttribute_IsSuccess s cpu_addr size_ false = true ->
  exists s',
    UnmapBuffer gpu_addr size_ s = Ok (gpu_addr, s')
    /\ forall a, gpu_addr <= a < gpu_addr + AlignUp size_ page_size ->
         in_allocated (vma_map s') a
         /\ GetPointer s' a = nullptr /\ GpuToCpuAddress s' a = None.
Proof.
  intros Hr Hin Hty Hlo Hhi Hal Hpos Hcpu Hk.
  destruct (reachable_Inv_weak s Hr) as [Hc Hp].
  destruct (tiles_In _ vma Hc Hin) as (Hb0 & _).
  destruct s as [m pt h c b k rc]. cbn [vma_map page_table SetMemoryAttribute_IsSuccess] in *.
  destruct (UnmapBuffer_inside m pt h c b k rc vma gpu_addr size_ cpu_addr
              Hc Hp Hin Hty Hlo Hhi Hal Hpos Hcpu Hk) as (m' & pt' & E & Hc' & Hp' & Hall).
  eexists. split; [exact E|].
  intros a Ha. destruct (Hall a Ha) as (u & Hu & Hau & Htu).
  split; [exists u; auto|].
  assert (Hout : address_space_end <= a
                 \/ exists w, In w m' /\ type w <> VMAType.Mapped
                              /\ base w <= a < base w + size w).
  { right. exists u. rewrite Htu. repeat split; try assumption; try lia. discriminate. }
  split.
  - apply (GetPointer_null_outside false); [split; assumption | lia | exact Hout].
  - apply (Inv_no_translation false); [split; assumption | lia | exact Hout].
Qed.

(** The theorem for the two pages mapped at 0. *)
Lemma UnmapBuffer_returns_witness :
  exists s',
    UnmapBuffer 0 0x2000 mapped = Ok (0, s')
    /\ forall a, 0 <= a < 0 + AlignUp 0x2000 page_size ->
         in_allocated (vma_map s') a
         /\ GetPointer s' a = nullptr /\ GpuToCpuAddress s' a = None.
Proof.
  apply (UnmapBuffer_returns mapped mapped_area 0 0x2000 0x100000 mapped_reachable
           mapped_area_In); vm_compute; try reflexivity; try discriminate.
Defined.

(** X25. On a manager that the constructor and the public calls produce, after
    [MapBufferEx(cpu_addr, size)] has returned [gpu_addr], for a [cpu_addr]
    that is not 0 and has host memory behind it,
    [UnmapBuffer(gpu_addr, size)] returns [gpu_addr] when the kernel accepts
    the attribute change, and no address of the range has a host pointer or a
    CPU address any more. *)
Theorem MapBufferEx_then_UnmapBuffer
    (s : MemoryManager) (cpu_addr size_ gpu_addr : Z) (s' : MemoryManager) :
  reachable s -> is_u64 cpu_addr -> is_u64 size_ ->
  0 < cpu_addr -> cpu_addr + AlignUp size_ page_size <= 2 ^ 64 ->
  0 < Memory_GetPointer s cpu_addr ->
  MapBufferEx cpu_addr size_ s = Ok (gpu_addr, s') ->
  SetMemoryAttribute_IsSuccess s cpu_addr size_ false = true ->
  exists s'',
    UnmapBuffer gpu_addr size_ s' = Ok (gpu_addr, s'')
    /\ forall a, gpu_addr <= a < gpu_addr + AlignUp size_ page_size ->
         GetPointer s'' a = nullptr /\ GpuToCpuAddress s'' a = None.
Proof.
  intros Hr Hcpu Hn Hc0 Hw Hmem H Hk.
  pose proof (reachable_MapBufferEx s cpu_addr size_ gpu_addr s' Hr Hcpu Hn H) as Hr'.
  destruct (reachable_Inv_weak s Hr) as [Hc Hp].
  destruct (reachable_Inv_weak s' Hr') as [Hc' Hp'].
  destruct s as [m pt h c b k rc]. cbn [vma_map page_table Memory_GetPointer
                                      SetMemoryAttribute_IsSuccess] in *.
  destruct (MapBufferEx_result m pt h c b k rc cpu_addr size_ gpu_addr s' Hc Hp Hcpu Hn H)
    as (x & m' & -> & _ & Eb & Es & Hpos & Hreg & u & Hu & Htu & Hlo & Hhi).
  cbn [vma_map page_table] in Hc', Hp'.
  set (x' := set_mapping x VMAType.Mapped (b cpu_addr) cpu_addr) in *.
  assert (Hreg' : region_ok (base x') (size x')) by exact Hreg.
  pose proof Hreg as (Hb0 & Hn0 & Hbm & Hnm & He).
  assert (Etr : GpuToCpuAddress
                  (St m' (projection x' pt) h (c ++ [SetMemoryAttribute cpu_addr size_ true])
                     b k rc) gpu_addr = Some cpu_addr).
  { destruct (mapped_entry x' pt (base x) Hreg' eq_refl Hmem) as (Hvalid & Hpg & _);
      [cbn [base size x' set_mapping]; lia|].
    cbn [base size x' set_mapping] in Hpg.
    pose proof (Z.div_mod (base x) 4096 ltac:(lia)) as Hdm.
    rewrite <- Eb. unfold GpuToCpuAddress.
    rewrite Hvalid, shiftr_page_bits, land_page_mask. cbn [negb page_table].
    rewrite (projection_backing_mapped x' pt (base x / 4096) Hreg' eq_refl Hmem);
      cbn [base size vma_backing_addr x' set_mapping]; try lia.
    replace (cpu_addr + (base x / 4096 * 4096 - base x) =? 0) with false
      by (symmetry; apply Z.eqb_neq; lia).
    cbn [negb]. rewrite add64_small by lia. f_equal. lia. }
  subst gpu_addr.
  destruct (UnmapBuffer_inside m' (projection x' pt) h
              (c ++ [SetMemoryAttribute cpu_addr size_ true]) b k rc u (base x) size_ cpu_addr
              Hc' Hp' Hu Htu) as (m2 & pt2 & E & Hc2 & Hp2 & Hall);
    try assumption; try lia.
  eexists. split; [exact E|].
  intros a Ha. destruct (Hall a Ha) as (w & Hw1 & Haw & Htw).
  assert (Hout : address_space_end <= a
                 \/ exists w, In w m2 /\ type w <> VMAType.Mapped
                              /\ base w <= a < base w + size w).
  { right. exists w. rewrite Htw. repeat split; try assumption; try lia. discriminate. }
  split.
  - apply (GetPointer_null_outside false); [split; assumption | lia | exact Hout].
  - apply (Inv_no_translation false); [split; assumption | lia | exact Hout].
Qed.

(** The theorem for two pages mapped on the new manager and unmapped again. *)
Lemma MapBufferEx_then_UnmapBuffer_witness :
  exists s'',
    UnmapBuffer 0 0x2000 mapped = Ok (0, s'')
    /\ forall a, 0 <= a < 0 + AlignUp 0x2000 page_size ->
         GetPointer s'' a = nullptr /\ GpuToCpuAddress s'' a = None.
Proof.
  destruct (run_Ok (MapBufferEx 0x100000 0x2000) fresh) as [gpu E]; [vm_compute; reflexivity|].
  assert (Eg : gpu = 0).
  { assert (Ev : rbind (MapBufferEx 0x100000 0x2000 fresh) (fun r => Ok (fst r)) = Ok 0)
      by (vm_compute; reflexivity).
    rewrite E in Ev. cbn in Ev. congruence. }
  subst gpu.
  apply (MapBufferEx_then_UnmapBuffer fresh 0x100000 0x2000 0 _ fresh_reachable);
    try exact E; unfold is_u64; try lia; vm_compute; try reflexivity; try discriminate.
Defined.

(** ** Calls at a given address, and what a returned address names *)

(** [AllocateMemory] returns on a range inside one area that is not
    [Mapped]. *)
Lemma AllocateMemory_at l1 u l2 pt h c b k rc target offset_ size_ :
  tiles (l1 ++ u :: l2) -> type u <> VMAType.Mapped ->
  target mod 4096 = 0 -> size_ mod 4096 = 0 -> 0 < size_ ->
  base u <= target -> target + size_ <= base u + size u ->
  exists it m' pt',
    AllocateMemory target offset_ size_ (St (l1 ++ u :: l2) pt h c b k rc)
    = Ok (it, St m' pt' h c b k rc).
Proof.
  intros Hc Hty Hat Han Hpos Hlo Hhi.
  pose proof (chain_split _ _ _ _ _ Hc) as (Hc1 & _).
  pose proof (chain_aligned _ _ _ Hc1 eq_refl) as Hbu.
  set (start := target - base u).
  assert (Hst : 0 <= start) by (unfold start; lia).
  assert (Hsa : start mod 4096 = 0) by (unfold start; rewrite Zminus_mod, Hat, Hbu; reflexivity).
  destruct (carve_mid_fields u start size_) as (Eb & Es & Et); try (unfold start; lia).
  assert (Hcc : tiles ((l1 ++ carve_left u start size_)
                       ++ carve_mid u start size_ :: carve_right u start size_ ++ l2))
    by (apply carve_chain; try assumption; unfold start; lia).
  pose proof (chain_split _ _ _ _ _ Hcc) as (_ & _ & _ & _ & Hlt & _).
  unfold AllocateMemory.
  rewrite (bind_Ok _ _ _ _ _ (CarveVMA_at l1 u l2 pt h c b k rc target size_
                                Hc Hty Hat Han Hlo Hpos Hhi)).
  fold start. cbv beta.
  assert (Etx : It target = It (base (carve_mid u start size_)))
    by (rewrite Eb; unfold start; f_equal; lia).
  rewrite Etx.
  set (mid := carve_mid u start size_) in *.
  set (L1 := l1 ++ carve_left u start size_) in *.
  set (L2 := carve_right u start size_ ++ l2) in *.
  set (s1 := St (L1 ++ mid :: L2) pt h c b k rc).
  rewrite (bind_Ok _ _ _ _ _ (area_at _ mid _ s1 eq_refl Hlt)).
  rewrite bind_assert_true by (apply Z.eqb_eq; exact Es).
  rewrite (bind_Ok _ _ _ _ _ (assign_at L1 mid L2 _ s1 eq_refl Hlt)).
  unfold s1. norm_state.
  assert (Hc' : tiles (L1 ++ set_offset mid offset_ :: L2))
    by (eapply chain_replace; [exact Hcc | reflexivity | reflexivity]).
  change (base mid) with (base (set_offset mid offset_)).
  rewrite (Allocate_at L1 (set_offset mid offset_) L2 pt h c b k rc Hc').
  eexists. eexists. eexists. reflexivity.
Qed.

(** The translation of the pages of an area just mapped. *)
Lemma mapped_translation x m pt h c b k rc memory cpu_addr i :
  region_ok (base x) (size x) -> 0 < memory -> 0 <= i < size x ->
  let s := St m (projection (set_mapping x VMAType.Mapped memory cpu_addr) pt) h c b k rc in
  GetPointer s (base x + i) = memory + i
  /\ (0 < cpu_addr -> cpu_addr + size x <= 2 ^ 64 ->
      GpuToCpuAddress s (base x + i) = Some (cpu_addr + i)).
Proof.
  intros Hreg Hmem Hi s. unfold s. clear s.
  set (x' := set_mapping x VMAType.Mapped memory cpu_addr).
  assert (Hreg' : region_ok (base x') (size x')) by exact Hreg.
  pose proof Hreg as (Hb0 & Hn0 & Hbm & Hnm & He).
  destruct (mapped_entry x' pt (base x + i) Hreg' eq_refl Hmem)
    as (Hvalid & Hpg & Hptr); [cbn [base size x' set_mapping]; lia|].
  cbn [base size backing_memory x' set_mapping] in Hpg, Hptr.
  pose proof (Z.div_mod (base x + i) 4096 ltac:(lia)) as Hdm.
  pose proof (Z.mod_pos_bound (base x + i) 4096 ltac:(lia)) as Hmod.
  split.
  - unfold GetPointer. rewrite Hvalid, shiftr_page_bits, land_page_mask. cbn [negb page_table].
    fold x'. rewrite Hptr.
    replace (memory + ((base x + i) / 4096 * 4096 - base x) =? nullptr) with false
      by (symmetry; apply Z.eqb_neq; unfold nullptr; lia).
    cbn [negb]. lia.
  - intros Hc0 Hw.
    unfold GpuToCpuAddress. rewrite Hvalid, shiftr_page_bits, land_page_mask.
    cbn [negb page_table]. fold x'.
    rewrite (projection_backing_mapped x' pt ((base x + i) / 4096) Hreg' eq_refl Hmem);
      cbn [base size vma_backing_addr x' set_mapping]; try lia.
    replace (cpu_addr + ((base x + i) / 4096 * 4096 - base x) =? 0) with false
      by (symmetry; apply Z.eqb_neq; lia).
    cbn [negb]. rewrite add64_small by lia. f_equal. lia.
Qed.

(** An area of the map that holds [target] is the one area that does. *)
Lemma area_of_target m u x target :
  tiles m -> In u m -> In x m ->
  base u <= target < base u + size u -> base x <= target < base x + size x -> x = u.
Proof.
  intros Hc Hu Hx Htu Htx.
  destruct (tiles_distinct m x u Hc Hx Hu) as [E | [H | H]]; [exact E | lia | lia].
Qed.

(** X26. On a manager that the constructor and the public calls produce,
    [AllocateSpace(gpu_addr, size, align)] returns [gpu_addr] for every
    page-aligned [gpu_addr] and every [size] whose page-aligned range is not
    empty and lies inside one area that is not [Mapped]; it calls nothing,
    leaves host memory alone, and the range then lies inside one [Allocated]
    area. *)
Theorem AllocateSpaceAt_returns
    (s : MemoryManager) (u : VirtualMemoryArea) (gpu_addr size_ align : Z) :
  reachable s -> In u (vma_map s) -> type u <> VMAType.Mapped ->
  gpu_addr mod 4096 = 0 -> 0 < AlignUp size_ page_size ->
  base u <= gpu_addr -> gpu_addr + AlignUp size_ page_size <= base u + size u ->
  exists s',
    AllocateSpaceAt gpu_addr size_ align s = Ok (gpu_addr, s')
    /\ callouts s' = callouts s /\ host_memory s' = host_memory s
    /\ exists w, In w (vma_map s') /\ type w = VMAType.Allocated
                 /\ base w <= gpu_addr
                 /\ gpu_addr + AlignUp size_ page_size <= base w + size w.
Proof.
  intros Hr Hu Hty Hal Hpos Hlo Hhi.
  destruct (reachable_Inv_weak s Hr) as [Hc Hp].
  destruct s as [m pt h c b k rc]. cbn [vma_map page_table callouts host_memory] in *.
  destruct (tiles_In m u Hc Hu) as (Hb0 & _).
  pose proof Hu as Hu'. apply in_split in Hu'. destruct Hu' as (l1 & l2 & Em).
  destruct (AllocateMemory_at l1 u l2 pt h c b k rc gpu_addr 0 (AlignUp size_ page_size))
    as (it & m' & pt' & Emem); try assumption; [rewrite <- Em; exact Hc | apply AlignUp_mod |].
  rewrite <- Em in Emem.
  destruct (AllocateMemory_result m pt h c b k rc gpu_addr 0 (AlignUp size_ page_size) it _
              Hc Hp ltac:(lia) (AlignUp_u64 _ _) Emem)
    as (x & m'' & pt'' & E & _ & Hx & Es & _ & _ & Hcase & w & Hw & Htw & Hwl & Hwh).
  injection E as E1 E2. subst m'' pt''.
  assert (Ex : base x = gpu_addr).
  { destruct Hcase as [Ex | [Hxm Hxt]]; [exact Ex|].
    rewrite (area_of_target m u x gpu_addr Hc Hu Hxm ltac:(lia) Hx) in Hxt.
    contradiction. }
  exists (St m' pt' h c b k rc). split; [|split; [reflexivity | split; [reflexivity|]]].
  - unfold AllocateSpaceAt. rewrite (bind_Ok _ _ _ _ _ Emem). reflexivity.
  - exists w. cbn [vma_map]. repeat split; try assumption; lia.
Qed.

(** The theorem for a page and a half reserved at 0x5000, in the free area behind the two mapped pages. *)
Lemma AllocateSpaceAt_returns_witness :
  exists s',
    AllocateSpaceAt 0x5000 0x1800 1 mapped = Ok (0x5000, s')
    /\ callouts s' = callouts mapped /\ host_memory s' = host_memory mapped
    /\ exists w, In w (vma_map s') /\ type w = VMAType.Allocated
                 /\ base w <= 0x5000
                 /\ 0x5000 + AlignUp 0x1800 page_size <= base w + size w.
Proof.
  assert (Hin : In (mkVMA 0x2000 0xffffffe000 VMAType.Unmapped 0 0 0) (vma_map mapped))
    by (vm_compute; right; left; reflexivity).
  apply (AllocateSpaceAt_returns mapped _ 0x5000 0x1800 1 mapped_reachable Hin);
    vm_compute; try reflexivity; try discriminate.
Defined.

(** X27. On a manager that the constructor and the public calls produce,
    [MapBufferEx(cpu_addr, gpu_addr, size)] returns [gpu_addr] for every
    page-aligned [gpu_addr] and every [size] whose page-aligned range is not
    empty and lies inside one area that is not [Mapped], when the kernel
    accepts the attribute change; its one call is
    [SetMemoryAttribute(cpu_addr, size, DeviceMapped)], host memory is as
    before, and where the memory bus gave a pointer that is not null, every
    offset [i] of the range has the host pointer of [cpu_addr] plus [i] and,
    for a [cpu_addr] that is not 0 and does not wrap, the CPU address
    [cpu_addr + i]. *)
Theorem MapBufferExAt_returns
    (s : MemoryManager) (u : VirtualMemoryArea) (cpu_addr gpu_addr size_ : Z) :
  reachable s -> In u (vma_map s) -> type u <> VMAType.Mapped ->
  gpu_addr mod 4096 = 0 -> 0 < AlignUp size_ page_size ->
  base u <= gpu_addr -> gpu_addr + AlignUp size_ page_size <= base u + size u ->
  SetMemoryAttribute_IsSuccess s cpu_addr size_ true = true ->
  exists s',
    MapBufferExAt cpu_addr gpu_addr size_ s = Ok (gpu_addr, s')
    /\ callouts s' = callouts s ++ [SetMemoryAttribute cpu_addr size_ true]
    /\ host_memory s' = host_memory s
    /\ (0 < Memory_GetPointer s cpu_addr ->
        forall i, 0 <= i < AlignUp size_ page_size ->
          GetPointer s' (gpu_addr + i) = Memory_GetPointer s cpu_addr + i
          /\ (0 < cpu_addr -> cpu_addr + AlignUp size_ page_size <= 2 ^ 64 ->
              GpuToCpuAddress s' (gpu_addr + i) = Some (cpu_addr + i))).
Proof.
  intros Hr Hu Hty Hal Hpos Hlo Hhi Hk.
  destruct (reachable_Inv_weak s Hr) as [Hc Hp].
  destruct s as [m pt h c b k rc].
  cbn [vma_map page_table callouts host_memory Memory_GetPointer
       SetMemoryAttribute_IsSuccess] in *.
  destruct (tiles_In m u Hc Hu) as (Hb0 & _).
  destruct (MapBufferExAt_succeeds m pt h c b k rc u cpu_addr gpu_addr size_
              Hc Hu Hty Hal Hpos Hlo Hhi Hk) as (s' & E).
  exists s'. split; [exact E|].
  unfold MapBufferExAt in E.
  rewrite bind_assert_true in E by (apply aligned_test; exact Hal).
  rewrite bind_gets in E. cbn [Memory_GetPointer] in E.
  apply bind_inv in E. destruct E as (it & s1 & Emap & E).
  destruct (MapBackingMemory_result m pt h c b k rc gpu_addr (b cpu_addr)
              (AlignUp size_ page_size) cpu_addr it s1 Hc Hp ltac:(lia) (AlignUp_u64 _ _) Emap)
    as (x & m' & -> & _ & Hx & Es & _ & Hreg & Hcase & _).
  apply bind_inv in E. destruct E as (? & s2 & Hdev & E).
  apply set_device_mapped_inv in Hdev. subst s2.
  unfold ret in E. injection E as E. subst s'.
  assert (Ex : base x = gpu_addr).
  { destruct Hcase as [Ex | [Hxm Hxt]]; [exact Ex|].
    rewrite (area_of_target m u x gpu_addr Hc Hu Hxm ltac:(lia) Hx) in Hxt.
    contradiction. }
  norm_state. split; [reflexivity|]. split; [reflexivity|].
  intros Hmem i Hi. rewrite <- Ex, <- Es in *.
  exact (mapped_translation x m' pt h _ b k rc (b cpu_addr) cpu_addr i Hreg Hmem Hi).
Qed.

(** The theorem for two pages mapped at the second of the three reserved pages. *)
Lemma MapBufferExAt_returns_witness :
  exists s',
    MapBufferExAt 0x300000 0x1000 0x2000 reserved = Ok (0x1000, s')
    /\ callouts s' = callouts reserved ++ [SetMemoryAttribute 0x300000 0x2000 true]
    /\ host_memory s' = host_memory reserved
    /\ (0 < Memory_GetPointer reserved 0x300000 ->
        forall i, 0 <= i < AlignUp 0x2000 page_size ->
          GetPointer s' (0x1000 + i) = Memory_GetPointer reserved 0x300000 + i
          /\ (0 < 0x300000 -> 0x300000 + AlignUp 0x2000 page_size <= 2 ^ 64 ->
              GpuToCpuAddress s' (0x1000 + i) = Some (0x300000 + i))).
Proof.
  apply (MapBufferExAt_returns reserved reserved_area 0x300000 0x1000 0x2000
           reserved_reachable reserved_area_In);
    vm_compute; try reflexivity; try discriminate.
Defined.

(** What [AllocateMemory] and [MapBackingMemory] ask of [CarveVMA]. *)
Lemma carved_range_fits l1 v l2 pt h c b k rc size_ :
  tiles (l1 ++ v :: l2) -> type v = VMAType.Unmapped -> 0 <= size_ < 2 ^ 64 ->
  (exists offset_ r,
     AllocateMemory (base v) offset_ size_ (St (l1 ++ v :: l2) pt h c b k rc) = Ok r)
  \/ (exists memory backing r,
        MapBackingMemory (base v) memory size_ backing (St (l1 ++ v :: l2) pt h c b k rc)
        = Ok r) ->
  base v + size_ <= base v + size v.
Proof.
  intros Hc Hty Hn H.
  pose proof (chain_split _ _ _ _ _ Hc) as (_ & Hs & _).
  assert (Hcarve : exists r, CarveVMA (base v) size_ (St (l1 ++ v :: l2) pt h c b k rc) = Ok r).
  { destruct H as [(o & r & H) | (mem & back & r & H)].
    - unfold AllocateMemory in H. apply bind_inv in H.
      destruct H as (it & s0 & Hcarve & _). eexists. exact Hcarve.
    - unfold MapBackingMemory in H. apply bind_inv in H.
      destruct H as (it & s0 & Hcarve & _). eexists. exact Hcarve. }
  destruct Hcarve as (r & Hcarve).
  apply (CarveVMA_returns l1 v l2 pt h c b k rc (base v) size_ r Hc); try assumption; try lia.
  rewrite Hty. discriminate.
Qed.

(** X28. On a manager that the constructor and the public calls produce, an
    address other than 0 that [AllocateSpace(size, align)] or
    [MapBufferEx(cpu_addr, size)] returns is the base of an area that was
    [Unmapped] before the call, and the page-aligned range fits inside that
    area: the range held no reservation and no mapping. *)
Theorem returned_range_was_free
    (s : MemoryManager) (size_ gpu_addr : Z) :
  reachable s -> is_u64 size_ -> gpu_addr <> 0 ->
  (exists align s', AllocateSpace size_ align s = Ok (gpu_addr, s'))
  \/ (exists cpu_addr s', MapBufferEx cpu_addr size_ s = Ok (gpu_addr, s')) ->
  exists v, In v (vma_map s) /\ type v = VMAType.Unmapped
            /\ base v = gpu_addr
            /\ gpu_addr + AlignUp size_ page_size <= base v + size v.
Proof.
  intros Hr Hn Hne H.
  destruct (reachable_Inv_weak s Hr) as [Hc _].
  destruct s as [m pt h c b k rc]. cbn [vma_map] in *.
  set (s := St m pt h c b k rc) in *.
  assert (Hfree : gpu_addr = FindFreeRegion s address_space_base (AlignUp size_ page_size)
                  /\ ((exists o r, AllocateMemory gpu_addr o (AlignUp size_ page_size) s = Ok r)
                      \/ (exists mem back r,
                            MapBackingMemory gpu_addr mem (AlignUp size_ page_size) back s
                            = Ok r))).
  { destruct H as [(align & s' & H) | (cpu_addr & s' & H)].
    - unfold AllocateSpace in H. rewrite bind_gets in H.
      apply bind_inv in H. destruct H as (it & s1 & Hmem & H).
      unfold ret in H. injection H as Eg _. split; [symmetry; exact Eg|].
      left. rewrite <- Eg. eexists. eexists. exact Hmem.
    - unfold MapBufferEx in H. rewrite bind_gets in H.
      apply bind_inv in H. destruct H as (it & s1 & Hmem & H).
      apply bind_inv in H. destruct H as (? & s2 & _ & H).
      unfold ret in H. injection H as Eg _. split; [symmetry; exact Eg|].
      right. rewrite <- Eg. eexists. eexists. eexists. exact Hmem. }
  destruct Hfree as (Eg & Hmem).
  unfold FindFreeRegion in Eg. cbn [vma_map s] in Eg.
  destruct (find_free m address_space_base (AlignUp size_ page_size)) as [v|] eqn:F;
    [|contradiction].
  destruct (find_free_In _ _ _ _ F) as (Hv & Hty).
  destruct (tiles_In m v Hc Hv) as (Hb0 & _).
  unfold address_space_base in Eg. rewrite Z.max_r in Eg by exact Hb0.
  exists v. split; [exact Hv|]. split; [exact Hty|]. split; [symmetry; exact Eg|].
  apply in_split in Hv. destruct Hv as (l1 & l2 & Em).
  subst gpu_addr. unfold s in Hmem. rewrite Em in Hmem, Hc.
  exact (carved_range_fits l1 v l2 pt h c b k rc _ Hc Hty (AlignUp_u64 _ _) Hmem).
Qed.

(** The theorem for one page allocated behind the two mapped pages. *)
Lemma returned_range_was_free_witness :
  exists v, In v (vma_map mapped) /\ type v = VMAType.Unmapped
            /\ base v = 0x2000
            /\ 0x2000 + AlignUp 0x1000 page_size <= base v + size v.
Proof.
  destruct (run_Ok (AllocateSpace 0x1000 1) mapped) as [gpu E]; [vm_compute; reflexivity|].
  assert (Eg : gpu = 0x2000).
  { assert (Ev : rbind (AllocateSpace 0x1000 1 mapped) (fun r => Ok (fst r)) = Ok 0x2000)
      by (vm_compute; reflexivity).
    rewrite E in Ev. cbn in Ev. congruence. }
  subst gpu.
  apply (returned_range_was_free mapped 0x1000 0x2000 mapped_reachable).
  - unfold is_u64. lia.
  - discriminate.
  - left. exists 1. eexists. exact E.
Defined.

(** X29. The constructor returns, for every host memory, memory bus, kernel
    and rasterizer: the map of the new manager is the one [Unmapped] area
    [0, address_space_end), nothing has been called, host memory is as it
    was given, and no address has a host pointer or a CPU address. *)
Theorem MemoryManager_new_returns
    (host : Z -> Z) (memory_bus : Z -> HostPtr) (kernel : Z -> Z -> bool -> bool)
    (rasterizer : Z -> option Z) :
  exists s,
    MemoryManager_new host memory_bus kernel rasterizer = Ok s
    /\ vma_map s = [mkVMA 0 address_space_end VMAType.Unmapped 0 nullptr 0]
    /\ callouts s = [] /\ host_memory s = host
    /\ forall a, 0 <= a -> GetPointer s a = nullptr /\ GpuToCpuAddress s a = None.
Proof.
  unfold MemoryManager_new. cbn [map_emplace].
  set (initial_vma := set_size default_vma address_space_end).
  assert (Hc : tiles ([] ++ initial_vma :: [])).
  { cbn [app]. unfold tiles. cbn [chain base size initial_vma set_size default_vma].
    repeat split; try reflexivity. }
  rewrite (UpdatePageTableForVMA_at initial_vma [initial_vma] _ host [] memory_bus kernel rasterizer
             (tiles_region [] initial_vma [] Hc)).
  cbn [rbind snd]. eexists. split; [reflexivity|].
  cbn [vma_map callouts host_memory]. split; [reflexivity|]. split; [reflexivity|].
  split; [reflexivity|].
  intros a Ha.
  set (s := St _ _ _ _ _ _ _).
  assert (Hinv : Inv false s).
  { apply (MemoryManager_new_Inv false host memory_bus kernel rasterizer).
    unfold MemoryManager_new. cbn [map_emplace]. fold initial_vma.
    rewrite (UpdatePageTableForVMA_at initial_vma [initial_vma] _ host [] memory_bus kernel rasterizer
               (tiles_region [] initial_vma [] Hc)).
    reflexivity. }
  assert (Hout : address_space_end <= a
                 \/ exists w, In w (vma_map s) /\ type w <> VMAType.Mapped
                              /\ base w <= a < base w + size w).
  { destruct (Z_le_dec address_space_end a) as [Hge|Hlt]; [left; exact Hge|].
    right. exists initial_vma. split; [left; reflexivity|].
    split; [discriminate|]. cbn [base size initial_vma set_size default_vma]. lia. }
  split.
  - apply (GetPointer_null_outside false); assumption.
  - apply (Inv_no_translation false); assumption.
Qed.
